(** * Frick-Duplicate-Tabs: the reconciliation engine of [background.js]

    A shallow embedding of the duplicate-tab reconciler: the tab registry
    ([TabsInfo]) with its garbage collection, the URL canonicalizer
    ([getMatchingURL]), the tie-break resolver ([getCloseInfo]), the
    closure executor ([removeTab], [closeDuplicateTab]), the per-window
    debouncer ([windowBasedDebounce]) and the closing of duplicate groups by
    the startup reconciler ([findAndCloseDuplicatesOnInstall]), the
    refocus handler ([_handleRemainingTab]), the duplicate search
    ([searchForDuplicateTabsToClose]) and the event listeners.
    [getMatchPatternURL], which rests on the browser's [URL] parser, is not
    part of it: the tabs a query returns are an answer of the browser.

    Conventions.  Tab ids, window ids and [Date.now()] timestamps are JS
    integers, modelled as [Z].  A JS value that may be [null] is an
    [option].  Tab URLs are the ASCII serialisations the browser reports,
    modelled as [string].  The browser is a parameter of the world: its
    answers to removal requests and the order in which it runs pending
    callbacks are arbitrary.  An [await] runs the awaited promise to its
    end; listeners of other events do not run in between.  The duplicate
    search is the exception: it starts closures without awaiting them, so
    the world in which it resumes after an [await] is an answer of the
    browser as well. *)

From stdpp Require Import gmap strings list.
From Stdlib Require Import ZArith Ascii String.
From Equations Require Import Equations.
From Equations.Prop Require Logic.

Local Open Scope Z_scope.

(** ** Data model *)

(** A tab object as handed out by [chrome.tabs]: only the fields the
    engine reads. *)
Module Tab.
Record t : Type := mk {
    id : Z;
    windowId : Z;
    active : bool;
    index : Z;
    url : string;
    status : string;
    lastAccessed : option Z
  }.
End Tab.

(** A registry entry: [{ url, lastComplete, ignored, lastAccessed }]. *)
Record TabInfo : Type := mkTabInfo {
  url : option string;
  lastComplete : option Z;
  ignored : bool;
  lastAccessed : Z
}.

(** ** The registry: [class TabsInfo]

    [this.tabs] is a [Map] from tab id to entry.  Every method that calls
    [Date.now()] takes the clock reading as [now]. *)
Module TabsInfo.

Definition setNewTab (tabs : gmap Z TabInfo) (tabId : Z) (now : Z)
    : gmap Z TabInfo :=
    <[tabId := mkTabInfo None None false now]> tabs.

Definition setOpenedTab (tabs : gmap Z TabInfo) (openedTab : Tab.t) (now : Z)
    : gmap Z TabInfo :=
    <[Tab.id openedTab := mkTabInfo (Some (Tab.url openedTab)) (Some now) false now]> tabs.

Definition ignoreTab (tabs : gmap Z TabInfo) (tabId : Z) (state : bool) (now : Z)
    : gmap Z TabInfo :=
    match tabs !! tabId with
    | Some tab => <[tabId := mkTabInfo (url tab) (lastComplete tab) state now]> tabs
    | None => tabs
    end.

Definition isIgnoredTab (tabs : gmap Z TabInfo) (tabId : Z) : bool :=
    match tabs !! tabId with
    | Some tab => ignored tab
    | None => true
    end.

Definition getLastComplete (tabs : gmap Z TabInfo) (tabId : Z) : option Z :=
    match tabs !! tabId with
    | Some tab => lastComplete tab
    | None => None
    end.

Definition updateTab (tabs : gmap Z TabInfo) (openedTab : Tab.t) (now : Z)
    : gmap Z TabInfo :=
    match tabs !! Tab.id openedTab with
    | Some tab =>
        <[Tab.id openedTab := mkTabInfo (Some (Tab.url openedTab)) (Some now) (ignored tab) now]> tabs
    | None => tabs
    end.

Definition resetTab (tabs : gmap Z TabInfo) (tabId : Z) (now : Z)
    : gmap Z TabInfo :=
    setNewTab tabs tabId now.

Definition hasUrlChanged (tabs : gmap Z TabInfo) (openedTab : Tab.t) : bool :=
    match tabs !! Tab.id openedTab with
    | Some tab =>
        match url tab with
        | Some u => negb (String.eqb u (Tab.url openedTab))
        | None => true
        end
    | None => true
    end.

Definition removeTab (tabs : gmap Z TabInfo) (tabId : Z) : gmap Z TabInfo :=
    delete tabId tabs.

Definition hasTab (tabs : gmap Z TabInfo) (tabId : Z) : bool :=
    bool_decide (is_Some (tabs !! tabId)).

(** Garbage collection, the registry part of [cleanup()].  [currentTabs] is what [getTabs({})] resolved to ([None] for [null]),
    [now] the reading of [Date.now()].  The two loops run over the keys
    and the entries of the [Map]; the deletions of distinct keys commute,
    so the iteration order does not show in the result. *)
Definition deleteAbsent (currentTabIds : gset Z) (tabs : gmap Z TabInfo) (storedTabIds : list Z)
  : gmap Z TabInfo :=
  foldl (fun tabs tabId =>
           if bool_decide (tabId ∈ currentTabIds) then tabs else delete tabId tabs)
        tabs storedTabIds.

Definition deleteIdle (currentTabIds : gset Z) (oneHourAgo : Z) (tabs : gmap Z TabInfo)
    (entries : list (Z * TabInfo)) : gmap Z TabInfo :=
  foldl (fun tabs '(tabId, tab) =>
           if (lastAccessed tab <? oneHourAgo) && negb (bool_decide (tabId ∈ currentTabIds))
           then delete tabId tabs else tabs)
        tabs entries.

Definition cleanup (tabs : gmap Z TabInfo) (currentTabs : option (list Tab.t)) (now : Z)
  : gmap Z TabInfo :=
  match currentTabs with
  | None => tabs
  | Some currentTabs =>
      let currentTabIds : gset Z := list_to_set (map Tab.id currentTabs) in
      let storedTabIds := (map_to_list tabs).*1 in
      let tabs := deleteAbsent currentTabIds tabs storedTabIds in
      let oneHourAgo := now - 60 * 60 * 1000 in
      deleteIdle currentTabIds oneHourAgo tabs (map_to_list tabs)
  end.

End TabsInfo.

(** ** The tie-break resolver *)

(** [keepInfo], the second component of [getCloseInfo]'s result. *)
Record KeepInfo : Type := mkKeepInfo {
  observedTabClosed : bool;
  keep_active : bool;
  tabIndex : Z;
  tabId : Z;
  keep_windowId : Z
}.

(** The argument object of [getCloseInfo]. *)
Record Details : Type := mkDetails {
  observedTab : Tab.t;
  openedTab : Tab.t;
  activeWindowId : option Z
}.

(** JS truthiness of a nullable number ([if (activeWindowId)]): [null]
    and [0] are falsy. *)
Definition truthy (v : option Z) : bool :=
  match v with
  | Some n => negb (n =? 0)
  | None => false
  end.

(** [x === activeWindowId] for a number [x] and a nullable number. *)
Definition strict_eq_nullable (x : Z) (v : option Z) : bool :=
  match v with
  | Some n => x =? n
  | None => false
  end.

Definition getLastUpdatedTabId (tabs : gmap Z TabInfo) (observedTab openedTab : Tab.t) : Z :=
  let observedTabLastUpdate := TabsInfo.getLastComplete tabs (Tab.id observedTab) in
  let openedTabLastUpdate := TabsInfo.getLastComplete tabs (Tab.id openedTab) in
  match observedTabLastUpdate with
  | None => Tab.id openedTab
  | Some o =>
      match openedTabLastUpdate with
      | None => Tab.id observedTab
      | Some p => if o <? p then Tab.id observedTab else Tab.id openedTab
      end
  end.

Definition getFocusedTab (observedTab openedTab : Tab.t) (activeWindowId : option Z)
    (retainedTabId : Z) : Z :=
  if retainedTabId =? Tab.id observedTab then
    if strict_eq_nullable (Tab.windowId openedTab) activeWindowId
       && (Tab.active openedTab
           || negb (strict_eq_nullable (Tab.windowId observedTab) activeWindowId))
    then Tab.id openedTab else Tab.id observedTab
  else
    if strict_eq_nullable (Tab.windowId observedTab) activeWindowId
       && (Tab.active observedTab
           || negb (strict_eq_nullable (Tab.windowId openedTab) activeWindowId))
    then Tab.id observedTab else Tab.id openedTab.

Definition getCloseInfo (tabs : gmap Z TabInfo) (details : Details) : Z * KeepInfo :=
  let observedTab := observedTab details in
  let openedTab := openedTab details in
  let activeWindowId := activeWindowId details in
  let retainedTabId := getLastUpdatedTabId tabs observedTab openedTab in
  let retainedTabId :=
    if truthy activeWindowId
    then getFocusedTab observedTab openedTab activeWindowId retainedTabId
    else retainedTabId in
  let keepInfo := {|
    observedTabClosed := negb (retainedTabId =? Tab.id observedTab);
    keep_active := if retainedTabId =? Tab.id observedTab
                   then Tab.active openedTab else Tab.active observedTab;
    tabIndex := if retainedTabId =? Tab.id observedTab
                then Tab.index openedTab else Tab.index observedTab;
    tabId := retainedTabId;
    keep_windowId := if retainedTabId =? Tab.id observedTab
                     then Tab.windowId observedTab else Tab.windowId openedTab
  |} in
  (if retainedTabId =? Tab.id observedTab then Tab.id openedTab else Tab.id observedTab,
   keepInfo).

(** ** URL utilities *)

Definition isBlankURL (url : string) : bool := String.eqb url "about:blank".

(** [s.startsWith(p)] *)
Definition startsWith (s p : string) : bool := String.prefix p s.

Definition isChromeURL (url : string) : bool :=
  startsWith url "chrome://" || startsWith url "view-source:chrome-search".

Definition isExtensionURL (url : string) : bool := startsWith url "chrome-extension://".

Definition isBrowserURL (url : string) : bool :=
  startsWith url "about:" || startsWith url "chrome://" || startsWith url "chrome-extension://".

(** [c.toLowerCase()] on one ASCII character: only [A-Z] move. *)
Definition lowerChar (c : ascii) : ascii :=
  let n := nat_of_ascii c in
  if ((65 <=? n) && (n <=? 90))%nat then ascii_of_nat (n + 32) else c.

Fixpoint toLowerCase (s : string) : string :=
  match s with
  | EmptyString => EmptyString
  | String c s' => String (lowerChar c) (toLowerCase s')
  end.

(** [/^(f|ht)tps?:\/\//i.test(url)]: the alternatives of the regular
    expression written out, matched against the case-folded input. *)
Definition isValidURL (url : string) : bool :=
  let u := toLowerCase url in
  startsWith u "ftp://" || startsWith u "ftps://"
  || startsWith u "http://" || startsWith u "https://".

(** [s.split("#")[0]]: everything before the first [#]. *)
Fixpoint beforeHash (s : string) : string :=
  match s with
  | EmptyString => EmptyString
  | String c s' => if Ascii.eqb c "#" then EmptyString else String c (beforeHash s')
  end.

(** [s.slice(n)] *)
Fixpoint dropChars (n : nat) (s : string) : string :=
  match n, s with
  | O, _ => s
  | S _, EmptyString => EmptyString
  | S n', String _ s' => dropChars n' s'
  end.

(** [s.replace(pat, rep)] with a string pattern: only the first
    occurrence is replaced, and the comparison is case-sensitive. *)
Fixpoint replaceFirst (pat rep s : string) : string :=
  if String.prefix pat s then rep ++ dropChars (String.length pat) s
  else match s with
       | EmptyString => EmptyString
       | String c s' => String c (replaceFirst pat rep s')
       end.

(** [s.replace(/\/$/, "")]: one slash at the very end is dropped. *)
Fixpoint stripTrailingSlash (s : string) : string :=
  match s with
  | EmptyString => EmptyString
  | String c s' =>
      match s' with
      | EmptyString => if Ascii.eqb c "/" then EmptyString else s
      | String _ _ => String c (stripTrailingSlash s')
      end
  end.

Definition getMatchingURL (url : string) : string :=
  if negb (isValidURL url) then url
  else
    let matchingURL := url in
    let matchingURL := beforeHash matchingURL in
    let matchingURL := replaceFirst "://www." "://" matchingURL in
    let matchingURL := toLowerCase matchingURL in
    let matchingURL := stripTrailingSlash matchingURL in
    matchingURL.

(** [s.includes(needle)] *)
Fixpoint includes (s needle : string) : bool :=
  String.prefix needle s
  || match s with
     | EmptyString => false
     | String _ s' => includes s' needle
     end.

(** ** Per-window debounce: [windowBasedDebounce]

    The closure state of one debounced function.  [timers] is the
    closure's [Map] from window id to timer id; [timeouts] are the
    event loop's live [setTimeout] callbacks created by it, each with the
    [(windowId, ...args)] it captured; [clearTimeout] removes one. *)
Section Debounce.
Context {Args : Type}.

Record Debounced : Type := mkDebounced {
  timers : gmap Z nat;
  timeouts : gmap nat (Z * Args);
  nextTimerId : nat
}.

Definition setTimeout (callback : Z * Args) (d : Debounced) : nat * Debounced :=
  (nextTimerId d,
   mkDebounced (timers d) (<[nextTimerId d := callback]> (timeouts d)) (S (nextTimerId d))).

Definition clearTimeout (timerId : nat) (d : Debounced) : Debounced :=
  mkDebounced (timers d) (delete timerId (timeouts d)) (nextTimerId d).

Definition timers_set (windowId : Z) (timerId : nat) (d : Debounced) : Debounced :=
  mkDebounced (<[windowId := timerId]> (timers d)) (timeouts d) (nextTimerId d).

Definition timers_delete (windowId : Z) (d : Debounced) : Debounced :=
  mkDebounced (delete windowId (timers d)) (timeouts d) (nextTimerId d).

(** [debounced(windowId, ...args)] *)
Definition debounced (windowId : option Z) (args : Args) (d : Debounced) : Debounced :=
  match windowId with
  | None => d
  | Some windowId =>
      let d :=
        match timers d !! windowId with
        | Some timerId => clearTimeout timerId d
        | None => d
        end in
      let '(timerId, d) := setTimeout (windowId, args) d in
      timers_set windowId timerId d
  end.

(** [debounced.cancel(windowId)] *)
Definition cancel (windowId : option Z) (d : Debounced) : bool * Debounced :=
  match windowId with
  | Some windowId =>
      match timers d !! windowId with
      | Some timerId => (true, timers_delete windowId (clearTimeout timerId d))
      | None => (false, d)
      end
  | None => (false, d)
  end.

(** [debounced.cancelAll()] *)
Definition cancelAll (d : Debounced) : Debounced :=
  mkDebounced ∅
    (map_fold (fun _ timerId acc => delete timerId acc) (timeouts d) (timers d))
    (nextTimerId d).

Definition hasPending (windowId : Z) (d : Debounced) : bool :=
  bool_decide (is_Some (timers d !! windowId)).

Definition getPendingWindowIds (d : Debounced) : list Z :=
  (map_to_list (timers d)).*1.

(** [debounced.cleanupStaleWindows(currentWindowIds)] *)
Definition cleanupStaleWindows (currentWindowIds : gset Z) (d : Debounced) : Debounced :=
  foldl (fun d windowId =>
           if bool_decide (windowId ∈ currentWindowIds) then d
           else snd (cancel (Some windowId) d))
        d (getPendingWindowIds d).

(** The timer [timerId] expires: its callback hands [(windowId, args)]
    to [func] and deletes the window's entry. *)
Definition fire (timerId : nat) (d : Debounced) : option (Z * Args) * Debounced :=
  match timeouts d !! timerId with
  | Some (windowId, args) =>
      (Some (windowId, args), timers_delete windowId (clearTimeout timerId d))
  | None => (None, d)
  end.

End Debounce.
Arguments Debounced : clear implicits.

(** ** The world the asynchronous code runs in

    The browser is an external collaborator.  What it answers to the
    [n]-th [chrome.tabs.remove] request (for tab [tabId]) is
    [removeReplies n tabId]: [None] when [chrome.runtime.lastError] is
    unset in the callback, [Some message] otherwise.  [schedule] fixes the
    order in which the callbacks of concurrently pending promises run.
    [trace] lists, oldest first, the requests issued to the browser and
    the replies and delays seen; a request records the registry as it stood
    when the request was issued. *)
Inductive Event : Type :=
| RemoveRequest (tabId : Z) (registry : gmap Z TabInfo)
| RemoveReply (tabId : Z) (lastError : option string)
| Wait (timeout : Z)
| FocusRequest (tabId windowId : Z).

Record World : Type := mkWorld {
  tabsInfo : gmap Z TabInfo;
  handleRemainingTab : Debounced KeepInfo;
  clock : Z;
  removeReplies : nat -> Z -> option string;
  removeCalls : nat;
  schedule : list nat;
  trace : list Event
}.

Definition withTabs (f : gmap Z TabInfo -> gmap Z TabInfo) (w : World) : World :=
  mkWorld (f (tabsInfo w)) (handleRemainingTab w) (clock w) (removeReplies w)
          (removeCalls w) (schedule w) (trace w).

Definition withDebounced (f : Debounced KeepInfo -> Debounced KeepInfo) (w : World) : World :=
  mkWorld (tabsInfo w) (f (handleRemainingTab w)) (clock w) (removeReplies w)
          (removeCalls w) (schedule w) (trace w).

Definition emit (e : Event) (w : World) : World :=
  mkWorld (tabsInfo w) (handleRemainingTab w) (clock w) (removeReplies w)
          (removeCalls w) (schedule w) (trace w ++ [e]).

(** A settled promise. *)
Inductive Outcome (A : Type) : Type :=
| Fulfilled (value : A)
| Rejected (reason : string).
Arguments Fulfilled {A} value.
Arguments Rejected {A} reason.

Definition isFulfilled {A} (o : Outcome A) : bool :=
  match o with Fulfilled _ => true | Rejected _ => false end.

(** Asynchronous code awaited to completion: a state and error monad
    over the world. *)
Definition Async (A : Type) : Type := World -> Outcome A * World.

Definition resolve {A} (a : A) : Async A := fun w => (Fulfilled a, w).
Definition reject {A} (reason : string) : Async A := fun w => (Rejected reason, w).

Definition await {A B} (p : Async A) (k : A -> Async B) : Async B :=
  fun w =>
    match p w with
    | (Fulfilled a, w') => k a w'
    | (Rejected reason, w') => (Rejected reason, w')
    end.

Definition tryCatch {A} (body : Async A) (handler : string -> Async A) : Async A :=
  fun w =>
    match body w with
    | (Fulfilled a, w') => (Fulfilled a, w')
    | (Rejected reason, w') => handler reason w'
    end.

(** A synchronous statement that only changes the world. *)
Definition exec (f : World -> World) : Async unit := fun w => (Fulfilled tt, f w).

#[local] Instance Async_ret : MRet Async := fun A a => resolve a.
#[local] Instance Async_bind : MBind Async := fun A B k p => await p k.

(** [tabsInfo.ignoreTab(tabId, state)] with [Date.now()] read off the clock. *)
Definition ignoreTab (tabId : Z) (state : bool) (w : World) : World :=
  withTabs (fun tabs => TabsInfo.ignoreTab tabs tabId state (clock w)) w.

(** [wait(timeout)] *)
Definition wait (timeout : Z) (w : World) : World :=
  emit (Wait timeout)
    (mkWorld (tabsInfo w) (handleRemainingTab w) (clock w + timeout) (removeReplies w)
             (removeCalls w) (schedule w) (trace w)).

(** [chrome.tabs.remove(tabId, callback)] up to the point where the
    callback runs: the request goes out, the browser's answer comes back. *)
Definition chrome_tabs_remove_request (tabId : Z) (w : World) : option string * World :=
  (removeReplies w (removeCalls w) tabId,
   emit (RemoveRequest tabId (tabsInfo w))
     (mkWorld (tabsInfo w) (handleRemainingTab w) (clock w) (removeReplies w)
              (S (removeCalls w)) (schedule w) (trace w))).

Definition chrome_tabs_remove (tabId : Z) (w : World) : option string * World :=
  let '(lastError, w) := chrome_tabs_remove_request tabId w in
  (lastError, emit (RemoveReply tabId lastError) w).

(** ** The closure executor *)

Definition maxRetries : nat := 2.
Definition retryDelay : Z := 50.
Definition transientMarker : string := "Tabs cannot be edited right now".

(** What the callback of [chrome.tabs.remove] inside [removeTab] decides. *)
Inductive CallbackAction : Type :=
| DoResolve
| DoReject (errorMessage : string)
| DoRetry.

Definition removeTab_callback (lastError : option string) (retryCount : nat) : CallbackAction :=
  match lastError with
  | Some errorMessage =>
      if includes errorMessage transientMarker && (retryCount <? maxRetries)%nat
      then DoRetry
      else DoReject errorMessage
  | None => DoResolve
  end.

Equations? removeTab (tabId : Z) (retryCount : nat) (w : World) : Outcome unit * World
  by wf (maxRetries - retryCount)%nat lt :=
removeTab tabId retryCount w with chrome_tabs_remove tabId w => {
  | (lastError, w1) with Logic.inspect (removeTab_callback lastError retryCount) => {
    | exist _ DoResolve _ => (Fulfilled tt, w1);
    | exist _ (DoReject errorMessage) _ => (Rejected errorMessage, w1);
    | exist _ DoRetry Hretry => removeTab tabId (S retryCount) (wait retryDelay w1) } }.
Proof.
  unfold removeTab_callback in Hretry.
  destruct lastError as [errorMessage|]; [|discriminate].
  destruct (includes errorMessage transientMarker); [|discriminate].
  unfold maxRetries in *.
  destruct (Nat.ltb_spec retryCount 2); [lia|discriminate].
Qed.

(** [handleRemainingTab(windowId, details)] *)
Definition handleRemainingTabCall (windowId : option Z) (details : KeepInfo) (w : World) : World :=
  withDebounced (debounced windowId details) w.

Definition closeDuplicateTab (tabToCloseId : Z) (remainingTabInfo : KeepInfo) : Async unit :=
  tryCatch
    (exec (ignoreTab tabToCloseId true) ;;
     removeTab tabToCloseId 0 ;;
     exec (handleRemainingTabCall (Some (keep_windowId remainingTabInfo)) remainingTabInfo))
    (fun error => exec (ignoreTab tabToCloseId false)).

(** [async cleanup()]: [currentTabs] and [currentWindows] are what
    [getTabs({})] and [chrome.windows.getAll] resolved to. *)
Definition cleanup (currentTabs : option (list Tab.t)) (currentWindows : list Z) (w : World)
  : World :=
  match currentTabs with
  | None => w
  | Some _ =>
      let w := withTabs (fun tabs => TabsInfo.cleanup tabs currentTabs (clock w)) w in
      withDebounced (cleanupStaleWindows (list_to_set currentWindows)) w
  end.

(** ** The startup reconciler *)

(** [tab.lastAccessed || 0] *)
Definition lastAccessedOr0 (tab : Tab.t) : Z :=
  match Tab.lastAccessed tab with
  | Some n => n
  | None => 0
  end.

(** [tabs.sort((a, b) => (b.lastAccessed || 0) - (a.lastAccessed || 0))]:
    a stable sort, most recently accessed first. *)
Fixpoint sortInsert (a : Tab.t) (sorted : list Tab.t) : list Tab.t :=
  match sorted with
  | [] => [a]
  | b :: rest =>
      if lastAccessedOr0 b - lastAccessedOr0 a <=? 0 then a :: sorted
      else b :: sortInsert a rest
  end.

Definition sortByLastAccessed (tabs : list Tab.t) : list Tab.t :=
  foldr sortInsert [] tabs.

(** [tabGroups]: a [Map] in insertion order, from canonical key to the
    tabs that have it. *)
Fixpoint groupPush (matchingUrl : string) (tab : Tab.t) (tabGroups : list (string * list Tab.t))
  : list (string * list Tab.t) :=
  match tabGroups with
  | [] => [(matchingUrl, [tab])]
  | (key, tabs) :: rest =>
      if String.eqb key matchingUrl then (key, tabs ++ [tab]) :: rest
      else (key, tabs) :: groupPush matchingUrl tab rest
  end.

Definition groupTabs (allTabs : list Tab.t) : list (string * list Tab.t) :=
  foldl (fun tabGroups tab =>
           if isBlankURL (Tab.url tab) || isBrowserURL (Tab.url tab) then tabGroups
           else groupPush (getMatchingURL (Tab.url tab)) tab tabGroups)
        [] allTabs.

(** One of the closures mapped over [tabsToClose] on the concurrent path,
    between two turns of the event loop: its [chrome.tabs.remove] request is
    out and the callback has yet to run; it sleeps in [wait(retryDelay)]
    before calling [removeTab(tabId, retryCount)]; or it has returned
    [{ success, tabId }]. *)
Inductive Task : Type :=
| Requested (tabId : Z) (retryCount : nat) (lastError : option string)
| Sleeping (tabId : Z) (retryCount : nat) (wakeAt : Z)
| Settled (tabId : Z) (success : bool).

Definition taskTabId (t : Task) : Z :=
  match t with
  | Requested tabId _ _ | Sleeping tabId _ _ | Settled tabId _ => tabId
  end.

Definition isSettled (t : Task) : bool :=
  match t with Settled _ _ => true | _ => false end.

Definition advanceClock (t : Z) (w : World) : World :=
  mkWorld (tabsInfo w) (handleRemainingTab w) (Z.max (clock w) t) (removeReplies w)
          (removeCalls w) (schedule w) (trace w).

(** One turn of the event loop given to a closure. *)
Definition stepTask (t : Task) (w : World) : Task * World :=
  match t with
  | Requested tabId retryCount lastError =>
      let w := emit (RemoveReply tabId lastError) w in
      match removeTab_callback lastError retryCount with
      | DoResolve => (Settled tabId true, w)
      | DoReject _ => (Settled tabId false, ignoreTab tabId false w)
      | DoRetry => (Sleeping tabId (S retryCount) (clock w + retryDelay), emit (Wait retryDelay) w)
      end
  | Sleeping tabId retryCount wakeAt =>
      let '(lastError, w) := chrome_tabs_remove_request tabId (advanceClock wakeAt w) in
      (Requested tabId retryCount lastError, w)
  | Settled _ _ => (t, w)
  end.

(** The index of the [n]-th closure that has not settled. *)
Fixpoint nthPending (n : nat) (tasks : list Task) : option nat :=
  match tasks with
  | [] => None
  | t :: rest =>
      if isSettled t then S <$> nthPending n rest
      else match n with
           | O => Some O
           | S n' => S <$> nthPending n' rest
           end
  end.

Definition countPending (tasks : list Task) : nat :=
  List.length (filter (fun t => isSettled t = false) tasks).

(** The scheduler's next choice among the pending closures. *)
Definition pickTask (tasks : list Task) (w : World) : option nat :=
  nthPending (hd O (schedule w) mod countPending tasks) tasks.

Definition tick (w : World) : World :=
  mkWorld (tabsInfo w) (handleRemainingTab w) (clock w) (removeReplies w)
          (removeCalls w) (tl (schedule w)) (trace w).

Definition taskWeight (t : Task) : nat :=
  match t with
  | Requested _ retryCount _ => 2 * (maxRetries - retryCount) + 1
  | Sleeping _ retryCount _ => 2 * (maxRetries - retryCount) + 2
  | Settled _ _ => 0
  end.

Definition poolWeight (tasks : list Task) : nat :=
  foldr (fun t n => (taskWeight t + n)%nat) O tasks.

(** Termination of the event loop below: a closure's step lowers its
    weight. *)
Lemma stepTask_weight (t : Task) (w : World) :
  isSettled t = false -> (taskWeight (stepTask t w).1 < taskWeight t)%nat.
Proof.
  destruct t as [tabId k lastError|tabId k wakeAt|tabId b]; simpl; [| |discriminate].
  - intros _. unfold removeTab_callback, maxRetries.
    destruct lastError as [m|]; simpl; [|lia].
    destruct (includes m transientMarker); simpl; [|lia].
    destruct (Nat.ltb_spec k 2); simpl; lia.
  - intros _. simpl. lia.
Qed.

Lemma nthPending_Some (n : nat) (tasks : list Task) (i : nat) :
  nthPending n tasks = Some i ->
  exists t, tasks !! i = Some t /\ isSettled t = false.
Proof.
  revert n i. induction tasks as [|t rest IH]; intros n i; simpl; [discriminate|].
  destruct (isSettled t) eqn:Ht.
  - destruct (nthPending n rest) as [j|] eqn:Hj; simpl; [|discriminate].
    intros [= <-]. simpl. eauto.
  - destruct n as [|n'].
    + intros [= <-]. simpl. eauto.
    + destruct (nthPending n' rest) as [j|] eqn:Hj; simpl; [|discriminate].
      intros [= <-]. simpl. eauto.
Qed.

Lemma poolWeight_insert (tasks : list Task) (i : nat) (t t' : Task) :
  tasks !! i = Some t ->
  (taskWeight t' < taskWeight t)%nat ->
  (poolWeight (<[i := t']> tasks) < poolWeight tasks)%nat.
Proof.
  revert i. induction tasks as [|u rest IH]; intros i; [discriminate|].
  destruct i as [|i]; simpl.
  - intros [= ->]. lia.
  - intros Hi Hlt. specialize (IH i Hi Hlt).
    apply (proj1 (Nat.add_lt_mono_l _ _ _)), IH.
Qed.

(** [Promise.allSettled(closurePromises)]: the event loop runs the
    pending closures, in the order the scheduler picks, until all of them
    have settled. *)
Equations? runTasks (tasks : list Task) (w : World) : list Task * World
  by wf (poolWeight tasks) lt :=
runTasks tasks w with Logic.inspect (pickTask tasks w) => {
  | exist _ None _ => (tasks, w);
  | exist _ (Some i) Hpick with Logic.inspect (tasks !! i) => {
    | exist _ None _ => (tasks, w);
    | exist _ (Some t) Ht =>
        runTasks (<[i := (stepTask t (tick w)).1]> tasks) (stepTask t (tick w)).2 } }.
Proof.
  apply nthPending_Some in Hpick as (t' & Ht' & Hpending).
  assert (t' = t) as -> by congruence.
  eapply poolWeight_insert; [done|]. by apply stepTask_weight.
Qed.

(** [tabsToClose.map(async tabToClose => ...)]: each closure runs up to
    its first [await], so every first request is out before any callback
    runs. *)
Fixpoint issueAll (tabsToClose : list Tab.t) (w : World) : list Task * World :=
  match tabsToClose with
  | [] => ([], w)
  | tabToClose :: rest =>
      let '(lastError, w) := chrome_tabs_remove_request (Tab.id tabToClose) w in
      let '(tasks, w) := issueAll rest w in
      (Requested (Tab.id tabToClose) 0 lastError :: tasks, w)
  end.

(** [tabsToClose.forEach(tab => tabsInfo.ignoreTab(tab.id, true))] *)
Definition ignoreAll (tabsToClose : list Tab.t) (w : World) : World :=
  foldl (fun w tab => ignoreTab (Tab.id tab) true w) w tabsToClose.

(** The branch for small batches; the result is what
    [Promise.allSettled] collects. *)
Definition closeConcurrently (tabsToClose : list Tab.t) (w : World) : list Task * World :=
  let w := ignoreAll tabsToClose w in
  let '(tasks, w) := issueAll tabsToClose w in
  runTasks tasks w.

(** The branch for large batches. *)
Fixpoint closeSequentially (tabsToClose : list Tab.t) : Async unit :=
  match tabsToClose with
  | [] => resolve tt
  | tabToClose :: rest =>
      tryCatch
        (exec (ignoreTab (Tab.id tabToClose) true) ;;
         removeTab (Tab.id tabToClose) 0 ;;
         exec (wait 25))
        (fun error => exec (ignoreTab (Tab.id tabToClose) false)) ;;
      closeSequentially rest
  end.

(** "Balanced approach: concurrent for small batches, sequential for
    large ones". *)
Definition closeTabsToClose (tabsToClose : list Tab.t) : Async unit :=
  if (List.length tabsToClose <=? 4)%nat
  then fun w => (Fulfilled tt, (closeConcurrently tabsToClose w).2)
  else closeSequentially tabsToClose.

(** [focusTab(tabId, windowId)]; a rejection is caught and logged by the
    caller, so only the request is recorded. *)
Definition focusTab (tabId windowId : Z) : Async unit :=
  exec (emit (FocusRequest tabId windowId)).

(** The body of the loop over [urlGroups]. *)
Definition closeGroup (tabs : list Tab.t) : Async unit :=
  match sortByLastAccessed tabs with
  | [] => resolve tt
  | tabToKeep :: tabsToClose =>
      closeTabsToClose tabsToClose ;;
      if existsb Tab.active tabsToClose
      then focusTab (Tab.id tabToKeep) (Tab.windowId tabToKeep)
      else resolve tt
  end.

Fixpoint closeGroups (urlGroups : list (string * list Tab.t)) : Async unit :=
  match urlGroups with
  | [] => resolve tt
  | (_, tabs) :: rest => closeGroup tabs ;; closeGroups rest
  end.

(** [allTabs] is what [getTabs({})] resolved to. *)
Definition findAndCloseDuplicatesOnInstall (allTabs : option (list Tab.t)) : Async unit :=
  match allTabs with
  | None => resolve tt
  | Some allTabs =>
      if (List.length allTabs <=? 1)%nat then resolve tt
      else
        let tabGroups := groupTabs allTabs in
        let urlGroups :=
          filter (fun g => (1 < List.length g.2)%nat) tabGroups in
        closeGroups urlGroups
  end.

(** ** The refocus handler *)

(** [focusTab(tabId, windowId)] as an awaiting caller that acts on the
    rejection sees it: [lastError] is the browser's complaint about one of
    the two updates, if there was one. *)
Definition focusTabWith (lastError : option string) (tabId windowId : Z) : Async unit :=
  fun w =>
    (match lastError with
     | None => Fulfilled tt
     | Some message => Rejected message
     end,
     emit (FocusRequest tabId windowId) w).

(** [_handleRemainingTab(windowId, details)], the function behind the
    debouncer.  [tab] is what [getTab(details.tabId)] resolved to and
    [focusError] the browser's answer to the focus request. *)
Definition _handleRemainingTab (tab : option Tab.t) (focusError : option string)
    (windowId : Z) (details : KeepInfo) : Async unit :=
  fun w =>
    if negb (TabsInfo.hasTab (tabsInfo w) (tabId details)) then (Fulfilled tt, w)
    else
      tryCatch
        (match tab with
         | None => exec (withTabs (fun tabs => TabsInfo.removeTab tabs (tabId details)))
         | Some _ => focusTabWith focusError (tabId details) windowId
         end)
        (fun error => exec (withTabs (fun tabs => TabsInfo.removeTab tabs (tabId details))))
        w.

(** The timer [timerId] of [handleRemainingTab] expires: its callback
    runs [func(windowId, ...args); timers.delete(windowId)]. *)
Definition handleRemainingTab_timeout (tab : option Tab.t) (focusError : option string)
    (timerId : nat) (w : World) : World :=
  match fire timerId (handleRemainingTab w) with
  | (Some (windowId, details), d) =>
      (_handleRemainingTab tab focusError windowId details (withDebounced (fun _ => d) w)).2
  | (None, _) => w
  end.

(** ** The duplicate search *)

Definition isTabComplete (tab : Tab.t) : bool := String.eqb (Tab.status tab) "complete".

(** What the browser answers to the listeners and to the search.
    [getTab tabId] is what [getTab(tabId)] resolves to.  [getTabs
    queryComplete observedTabUrl windowId] is what the query of
    [searchForDuplicateTabsToClose] resolves to; the match pattern of the
    query is computed from [observedTabUrl].  [getActiveWindowId n w] is
    the [n]-th [await getActiveWindowId()] of a search that suspends in the
    world [w]: the id the browser reports and the world in which the search
    resumes, since the closures the search has started, and other
    listeners, may have run in between. *)
Record Browser : Type := mkBrowser {
  getTab : Z -> option Tab.t;
  getTabs : bool -> string -> Z -> option (list Tab.t);
  getActiveWindowId : nat -> World -> option Z * World
}.

(** [closeDuplicateTab(tabToCloseId, remainingTabInfo)] called and not
    awaited: it runs up to its first [await], setting the flag and sending
    the first removal request; the callback of the request runs in a later
    turn of the event loop. *)
Definition closeDuplicateTab_start (tabToCloseId : Z) (w : World) : option string * World :=
  chrome_tabs_remove_request tabToCloseId (ignoreTab tabToCloseId true w).

(** A closure the search has started: the arguments of the call and the
    answer its first request is going to get. *)
Record Started : Type := mkStarted {
  tabToCloseId : Z;
  remainingTabInfo : KeepInfo;
  pendingReply : option string
}.

(** The [continue] condition of the loop. *)
Definition skipsOpenedTab (tabs : gmap Z TabInfo) (observedTab openedTab : Tab.t) : bool :=
  (Tab.id openedTab =? Tab.id observedTab)
  || TabsInfo.isIgnoredTab tabs (Tab.id openedTab)
  || (isBlankURL (Tab.url openedTab) && negb (isTabComplete openedTab)).

(** The loop over [openedTabs]; [awaits] counts the awaits so far. *)
Fixpoint searchLoop (browser : Browser) (observedTab : Tab.t)
    (matchingObservedTabUrl : string) (openedTabs : list Tab.t) (awaits : nat) (w : World)
  : list Started * World :=
  match openedTabs with
  | [] => ([], w)
  | openedTab :: rest =>
      if skipsOpenedTab (tabsInfo w) observedTab openedTab
      then searchLoop browser observedTab matchingObservedTabUrl rest awaits w
      else if String.eqb (getMatchingURL (Tab.url openedTab)) matchingObservedTabUrl
      then
        let '(activeWindowId, w) := getActiveWindowId browser awaits w in
        let '(tabToCloseId, remainingTabInfo) :=
          getCloseInfo (tabsInfo w) (mkDetails observedTab openedTab activeWindowId) in
        let '(lastError, w) := closeDuplicateTab_start tabToCloseId w in
        let started := mkStarted tabToCloseId remainingTabInfo lastError in
        if observedTabClosed remainingTabInfo then ([started], w)
        else
          let '(more, w) :=
            searchLoop browser observedTab matchingObservedTabUrl rest (S awaits) w in
          (started :: more, w)
      else searchLoop browser observedTab matchingObservedTabUrl rest awaits w
  end.

(** [loadingUrl || observedTab.url] *)
Definition observedTabUrl (observedTab : Tab.t) (loadingUrl : option string) : string :=
  match loadingUrl with
  | Some url => if String.eqb url "" then Tab.url observedTab else url
  | None => Tab.url observedTab
  end.

(** [searchForDuplicateTabsToClose(observedTab, queryComplete, loadingUrl)];
    the result lists the closures started, in the order of the calls. *)
Definition searchForDuplicateTabsToClose (browser : Browser) (observedTab : Tab.t)
    (queryComplete : bool) (loadingUrl : option string) (w : World) : list Started * World :=
  let observedTabUrl := observedTabUrl observedTab loadingUrl in
  match getTabs browser queryComplete observedTabUrl (Tab.windowId observedTab) with
  | Some openedTabs =>
      if (1 <? List.length openedTabs)%nat
      then searchLoop browser observedTab (getMatchingURL observedTabUrl) openedTabs 0 w
      else ([], w)
  | None => ([], w)
  end.

(** ** The event listeners

    A listener returns the closures its search has started, and the
    world. *)

(** The [details] of a [webNavigation] event. *)
Record NavigationDetails : Type := mkNavigationDetails {
  frameId : Z;
  nav_tabId : Z;
  nav_url : string
}.

(** The [changeInfo] of [tabs.onUpdated]. *)
Record ChangeInfo : Type := mkChangeInfo {
  change_status : option string;
  change_url : option string
}.

(** The [removeInfo] of [tabs.onRemoved]. *)
Record RemoveInfo : Type := mkRemoveInfo {
  isWindowClosing : bool;
  remove_windowId : Z
}.

(** JS truthiness of a nullable string. *)
Definition truthyString (s : option string) : bool :=
  match s with
  | Some s => negb (String.eqb s "")
  | None => false
  end.

Definition onCreatedTab (browser : Browser) (tab : Tab.t) (w : World) : list Started * World :=
  let w := withTabs (fun tabs => TabsInfo.setNewTab tabs (Tab.id tab) (clock w)) w in
  if isTabComplete tab && negb (isBlankURL (Tab.url tab))
  then searchForDuplicateTabsToClose browser tab true None w
  else ([], w).

Definition onBeforeNavigate (browser : Browser) (details : NavigationDetails) (w : World)
  : list Started * World :=
  if (frameId details =? 0) && negb (nav_tabId details =? -1)
     && negb (isBlankURL (nav_url details))
  then
    if TabsInfo.isIgnoredTab (tabsInfo w) (nav_tabId details) then ([], w)
    else
      match getTab browser (nav_tabId details) with
      | Some tab =>
          let w := withTabs (fun tabs => TabsInfo.resetTab tabs (Tab.id tab) (clock w)) w in
          searchForDuplicateTabsToClose browser tab true (Some (nav_url details)) w
      | None => ([], w)
      end
  else ([], w).

Definition onCompletedTab (browser : Browser) (details : NavigationDetails) (w : World)
  : list Started * World :=
  if (frameId details =? 0) && negb (nav_tabId details =? -1)
  then
    if TabsInfo.isIgnoredTab (tabsInfo w) (nav_tabId details) then ([], w)
    else
      match getTab browser (nav_tabId details) with
      | Some tab =>
          let w := withTabs (fun tabs => TabsInfo.updateTab tabs tab (clock w)) w in
          searchForDuplicateTabsToClose browser tab false None w
      | None => ([], w)
      end
  else ([], w).

(** [onUpdatedTab(tabId, changeInfo, tab)]; [favIconUrl] is
    [tab.favIconUrl]. *)
Definition onUpdatedTab (browser : Browser) (tabId : Z) (changeInfo : ChangeInfo)
    (tab : Tab.t) (favIconUrl : option string) (w : World) : list Started * World :=
  let updateAndSearch :=
    let w := withTabs (fun tabs => TabsInfo.updateTab tabs tab (clock w)) w in
    searchForDuplicateTabsToClose browser tab false None w in
  if TabsInfo.isIgnoredTab (tabsInfo w) tabId then ([], w)
  else
    match change_status changeInfo with
    | Some status =>
        if String.eqb status "complete" then
          if truthyString (change_url changeInfo)
             && negb (bool_decide (change_url changeInfo = Some (Tab.url tab)))
          then
            if isBlankURL (Tab.url tab) || negb (truthyString favIconUrl)
               || negb (TabsInfo.hasUrlChanged (tabsInfo w) tab)
            then ([], w)
            else updateAndSearch
          else if isChromeURL (Tab.url tab) then updateAndSearch
          else ([], w)
        else ([], w)
    | None => ([], w)
    end.

Definition onAttached (browser : Browser) (tabId : Z) (w : World) : list Started * World :=
  match getTab browser tabId with
  | Some tab => searchForDuplicateTabsToClose browser tab false None w
  | None => ([], w)
  end.

Definition onRemovedTab (removedTabId : Z) (removeInfo : RemoveInfo) (w : World) : World :=
  let w := withTabs (fun tabs => TabsInfo.removeTab tabs removedTabId) w in
  if isWindowClosing removeInfo
  then withDebounced (fun d => (cancel (Some (remove_windowId removeInfo)) d).2) w
  else w.

Definition onWindowRemoved (windowId : Z) (w : World) : World :=
  withDebounced (fun d => (cancel (Some windowId) d).2) w.

(** [onStartup()] up to the timer it sets for the startup reconciler. *)
Definition onStartup (w : World) : World :=
  withDebounced cancelAll w.

(** ** The specification's wording *)

(** The recency rule as the specification words it: a [null] timestamp
    loses to the other candidate, the strictly smaller timestamp wins, and
    the observed tab is kept on a tie. *)
Definition recencyRule_asStated (observedLast openedLast : option Z)
    (observedId openedId : Z) : Z :=
  match observedLast, openedLast with
  | None, _ => openedId
  | Some _, None => observedId
  | Some o, Some p => if p <? o then openedId else observedId
  end.

(** The focus-override condition as the specification words it: the
    candidate is in the focused window and (is the active tab or the other
    candidate is not in the focused window). *)
Definition focusOverride (candidate other : Tab.t) (focusedWindowId : Z) : bool :=
  (Tab.windowId candidate =? focusedWindowId)
  && (Tab.active candidate || negb (Tab.windowId other =? focusedWindowId)).

(** The resolver as a table over its boolean inputs: whether the recency
    rule retains the observed tab, whether the focused window is known, and
    for each candidate whether it is in the focused window and whether it is
    active.  The result says whether the observed tab is kept. *)
Definition keepsObserved (observedRetained focusKnown
    observedFocused observedActive openedFocused openedActive : bool) : bool :=
  if focusKnown then
    if observedRetained
    then negb (openedFocused && (openedActive || negb observedFocused))
    else observedFocused && (observedActive || negb openedFocused)
  else observedRetained.

(** ** Ways of writing a URL *)

(** [s] contains the fragment separator. *)
Fixpoint hasHash (s : string) : bool :=
  match s with
  | EmptyString => false
  | String c s' => Ascii.eqb c "#" || hasHash s'
  end.




(** ** Traces and the ignored flag *)

Definition isRemoveRequest (e : Event) : bool :=
  match e with RemoveRequest _ _ => true | _ => false end.

(** The number of [chrome.tabs.remove] requests in a trace. *)
Definition attempts (events : list Event) : nat :=
  List.length (List.filter isRemoveRequest events).

(** One attempt: the request and the browser's answer to it. *)
Definition attempt (tabId : Z) (registry : gmap Z TabInfo) (lastError : option string)
  : list Event :=
  [RemoveRequest tabId registry; RemoveReply tabId lastError].

(** [event] is a request or a reply for [tabId]. *)
Definition concerns (tabId : Z) (event : Event) : Prop :=
  match event with
  | RemoveRequest id _ | RemoveReply id _ => id = tabId
  | _ => False
  end.

(** The ignored flag of a tab in a registry, if the tab has a record. *)
Definition ignoredFlag (registry : gmap Z TabInfo) (tabId : Z) : option bool :=
  ignored <$> registry !! tabId.

(** Every removal request for [tabId] in [events] went out while the
    tab's flag was set. *)
Definition requestsGuarded (tabId : Z) (events : list Event) : Prop :=
  forall registry, RemoveRequest tabId registry ∈ events ->
                   ignoredFlag registry tabId = Some true.

(** What a closure of [tabId] that produced [events] and ended in
    [after] owes the registry: it asked the browser at least once, only
    with the flag set, and the flag it leaves is set exactly when the
    browser confirmed the removal. *)
Definition flagDiscipline (tabId : Z) (events : list Event) (after : World) : Prop :=
  requestsGuarded tabId events
  /\ (exists registry, RemoveRequest tabId registry ∈ events)
  /\ (RemoveReply tabId None ∈ events -> ignoredFlag (tabsInfo after) tabId = Some true)
  /\ (RemoveReply tabId None ∉ events -> ignoredFlag (tabsInfo after) tabId = Some false).

(** What the closure for [tabId] has reached, against the events seen
    so far and the registry. *)
Definition taskState (tabId : Z) (events : list Event) (w : World) (t : Task) : Prop :=
  match t with
  | Settled _ true =>
      RemoveReply tabId None ∈ events /\ ignoredFlag (tabsInfo w) tabId = Some true
  | Settled _ false =>
      (RemoveReply tabId None ∉ events) /\ ignoredFlag (tabsInfo w) tabId = Some false
  | _ =>
      (RemoveReply tabId None ∉ events) /\ ignoredFlag (tabsInfo w) tabId = Some true
  end.

(** The invariant of the event loop, for one loser [tabId]: [base] is
    the trace when the batch started, [ids] the losers' ids. *)
Definition poolInv (tabId : Z) (base : list Event) (ids : list Z)
    (tasks : list Task) (w : World) : Prop :=
  map taskTabId tasks = ids
  /\ exists events,
       trace w = base ++ events
       /\ requestsGuarded tabId events
       /\ (exists registry, RemoveRequest tabId registry ∈ events)
       /\ forall t, t ∈ tasks -> taskTabId t = tabId -> taskState tabId events w t.

(** The part of the trace one loser owns on the sequential branch: it
    holds the attempts for this tab only, at least one, and ends with the
    pause of 25 ms exactly when the removal succeeded. *)
Definition sequentialSegment (tabId : Z) (segment : list Event) : Prop :=
  exists chain,
    Forall (fun e => concerns tabId e \/ e = Wait retryDelay) chain
    /\ (exists registry, RemoveRequest tabId registry ∈ chain)
    /\ ((RemoveReply tabId None ∈ chain /\ segment = chain ++ [Wait 25])
        \/ ((RemoveReply tabId None ∉ chain) /\ segment = chain)).

(** How a closure of the concurrent branch ended, against the events
    handled after the requests of the batch went out: it reports success
    after the browser confirmed a removal of its tab, and failure after the
    browser refused one. *)
Definition settledBy (events : list Event) (t : Task) : Prop :=
  match t with
  | Settled tabId true => RemoveReply tabId None ∈ events
  | Settled tabId false => exists message, RemoveReply tabId (Some message) ∈ events
  | _ => False
  end.

(** The same while the closure may still be running. *)
Definition repliedSoFar (events : list Event) (t : Task) : Prop :=
  match t with
  | Settled _ _ => settledBy events t
  | _ => True
  end.

(** No removal of the closure's tab has been confirmed unless the closure
    reported success. *)
Definition unconfirmed (events : list Event) (t : Task) : Prop :=
  match t with
  | Settled _ true => True
  | _ => RemoveReply (taskTabId t) None ∉ events
  end.

(** ** Predicates of the further properties *)

(** The bookkeeping of a debounced function is consistent: every entry
    of [timers] names a live timeout that captured this window, every live
    timeout is the one [timers] names for its window, and timer ids not yet
    handed out are not live. *)
Definition tracked {Args : Type} (d : Debounced Args) : Prop :=
  (forall windowId timerId,
      timers d !! windowId = Some timerId ->
      exists args, timeouts d !! timerId = Some (windowId, args))
  /\ (forall timerId windowId args,
        timeouts d !! timerId = Some (windowId, args) ->
        timers d !! windowId = Some timerId)
  /\ (forall timerId, is_Some (timeouts d !! timerId) -> (timerId < nextTimerId d)%nat).


(** The two candidates did not settle at the same instant, and at least
    one of them has settled. *)
Definition settledApart (tabs : gmap Z TabInfo) (a b : Tab.t) : Prop :=
  match TabsInfo.getLastComplete tabs (Tab.id a), TabsInfo.getLastComplete tabs (Tab.id b) with
  | Some x, Some y => x <> y
  | None, None => False
  | _, _ => True
  end.




(** [openedTab] is a tab the search may pair with [observedTab]: another
    tab, with the canonical key [key], that is not a blank page still
    loading. *)
Definition candidateFor (observedTab : Tab.t) (key : string) (openedTab : Tab.t) : Prop :=
  Tab.id openedTab <> Tab.id observedTab
  /\ getMatchingURL (Tab.url openedTab) = key
  /\ isBlankURL (Tab.url openedTab) && negb (isTabComplete openedTab) = false.

(** The closures a search over [openedTabs] can start: each belongs to a
    candidate, taken in the order of [openedTabs]; it closes the candidate
    and keeps the observed tab, or it closes the observed tab, keeps the
    candidate and is the last one. *)
Inductive searchOutcome (observedTab : Tab.t) (key : string)
  : list Tab.t -> list Started -> Prop :=
| outcome_done : searchOutcome observedTab key [] []
| outcome_skip (openedTab : Tab.t) (rest : list Tab.t) (started : list Started) :
    searchOutcome observedTab key rest started ->
    searchOutcome observedTab key (openedTab :: rest) started
| outcome_closeOpened (openedTab : Tab.t) (rest : list Tab.t)
    (s : Started) (started : list Started) :
    candidateFor observedTab key openedTab ->
    tabToCloseId s = Tab.id openedTab ->
    tabId (remainingTabInfo s) = Tab.id observedTab ->
    observedTabClosed (remainingTabInfo s) = false ->
    searchOutcome observedTab key rest started ->
    searchOutcome observedTab key (openedTab :: rest) (s :: started)
| outcome_closeObserved (openedTab : Tab.t) (rest : list Tab.t) (s : Started) :
    candidateFor observedTab key openedTab ->
    tabToCloseId s = Tab.id observedTab ->
    tabId (remainingTabInfo s) = Tab.id openedTab ->
    observedTabClosed (remainingTabInfo s) = true ->
    searchOutcome observedTab key (openedTab :: rest) [s].

(** Nothing else runs while a search waits for the focused window. *)
Definition undisturbed (browser : Browser) : Prop :=
  forall n w, (getActiveWindowId browser n w).2 = w.

(** [tab] takes part in the startup grouping under the canonical key
    [key]. *)
Definition groupedUnder (key : string) (tab : Tab.t) : bool :=
  negb (isBlankURL (Tab.url tab) || isBrowserURL (Tab.url tab))
  && String.eqb (getMatchingURL (Tab.url tab)) key.

(** [tabGroups.get(key)] *)
Fixpoint lookupGroup (key : string) (tabGroups : list (string * list Tab.t))
  : option (list Tab.t) :=
  match tabGroups with
  | [] => None
  | (k, tabs) :: rest => if String.eqb k key then Some tabs else lookupGroup key rest
  end.

(** Most recently accessed first. *)
Fixpoint descending (tabs : list Tab.t) : Prop :=
  match tabs with
  | [] => True
  | tab :: rest =>
      Forall (fun later => lastAccessedOr0 later <= lastAccessedOr0 tab) rest
      /\ descending rest
  end.

(** The removal requests and replies among [events] are for tabs of
    [ids] only. *)
Definition closesOnly (ids : list Z) (events : list Event) : Prop :=
  Forall (fun e => forall id, concerns id e -> id ∈ ids) events.

(** The events of one group: requests and replies for the tabs after the
    first of the sorted group, and at most a focus request for the
    first. *)
Definition groupEvents (tabs : list Tab.t) (e : Event) : Prop :=
  (forall id, concerns id e -> id ∈ map Tab.id (tail (sortByLastAccessed tabs)))
  /\ (forall tabId windowId,
        e = FocusRequest tabId windowId ->
        exists tabToKeep,
          head (sortByLastAccessed tabs) = Some tabToKeep
          /\ tabId = Tab.id tabToKeep /\ windowId = Tab.windowId tabToKeep).

(** ** Sample inputs *)

Definition sampleTab (id windowId : Z) (active : bool) : Tab.t :=
  Tab.mk id windowId active id "https://example.com/a" "complete" None.

Definition settledAt (t : Z) : TabInfo :=
  mkTabInfo (Some "https://example.com/a") (Some t) false t.

Definition unsettled : TabInfo := mkTabInfo None None false 0.

Definition idleWorld : World :=
  mkWorld {[ 1 := settledAt 0; 2 := settledAt 0 ]} (mkDebounced ∅ ∅ 0)
          (1000 * 60 * 60 * 24) (fun _ _ => None) 0 [] [].

Definition lockedTwice : World :=
  mkWorld {[ 7 := settledAt 1 ]} (mkDebounced ∅ ∅ 0) 0
          (fun n _ => if (n <? 2)%nat then Some "Tabs cannot be edited right now" else None)
          0 [] [].

Definition lockedForGood : World :=
  mkWorld {[ 7 := settledAt 1 ]} (mkDebounced ∅ ∅ 0) 0
          (fun _ _ => Some "Tabs cannot be edited right now") 0 [] [].

(** A window with tabs [1..n] on the same page, and a registry that
    knows five of them; the browser refuses the second removal request. *)
Definition batchTabs (n : nat) : list Tab.t :=
  map (fun i => sampleTab (Z.of_nat i) 1 false) (seq 1 n).

Definition batchWorld : World :=
  mkWorld (list_to_map (map (fun i => (Z.of_nat i, settledAt 1)) (seq 1 5)))
          (mkDebounced ∅ ∅ 0) 0
          (fun n _ => if (n =? 1)%nat then Some "No tab with id" else None)
          0 [2; 0]%nat [].

(** An event without the registry snapshot, for reading traces. *)
Inductive EventLabel : Type :=
| Req (tabId : Z)
| Ok (tabId : Z)
| Err (tabId : Z)
| Pause (timeout : Z)
| Focus (tabId : Z).

Definition eventLabel (e : Event) : EventLabel :=
  match e with
  | RemoveRequest tabId _ => Req tabId
  | RemoveReply tabId None => Ok tabId
  | RemoveReply tabId (Some _) => Err tabId
  | Wait timeout => Pause timeout
  | FocusRequest tabId _ => Focus tabId
  end.

Definition oneSettled : gmap Z TabInfo := {[ 1 := settledAt 5 ]}.
Definition oneUnsettled : gmap Z TabInfo := {[ 1 := unsettled ]}.
Definition settledPair : gmap Z TabInfo := {[ 1 := settledAt 10; 2 := settledAt 20 ]}.

(** A browser that reports [tab] for every id, [found] for every query
    and [focus] as the focused window, and in which nothing else runs while
    a search is suspended. *)
Definition quietBrowser (tab : option Tab.t) (found : list Tab.t) (focus : option Z)
  : Browser :=
  mkBrowser (fun _ => tab) (fun _ _ _ => Some found) (fun _ w => (focus, w)).

(** * Theorems *)

(** ** The tie-break resolver *)

(** C1, as stated, fails on a tie: when both candidates settled at the
    same instant the code keeps the opened tab, where the claim keeps the
    observed one. *)
Lemma getLastUpdatedTabId_tie_counterexample :
  let tabs : gmap Z TabInfo := {[ 1 := settledAt 5; 2 := settledAt 5 ]} in
  let observedTab := sampleTab 1 1 false in
  let openedTab := sampleTab 2 1 false in
  getLastUpdatedTabId tabs observedTab openedTab = 2
  /\ recencyRule_asStated (TabsInfo.getLastComplete tabs 1) (TabsInfo.getLastComplete tabs 2)
       (Tab.id observedTab) (Tab.id openedTab) = 1
  /\ getLastUpdatedTabId tabs observedTab openedTab
     <> recencyRule_asStated (TabsInfo.getLastComplete tabs (Tab.id observedTab))
          (TabsInfo.getLastComplete tabs (Tab.id openedTab))
          (Tab.id observedTab) (Tab.id openedTab).
Proof. vm_compute. repeat split; congruence. Qed.

(** C1 (amended): [getLastUpdatedTabId] returns the opened tab's id when
    the observed tab's [lastComplete] is [null]; the observed tab's id when
    only the opened tab's is [null]; otherwise the observed tab's id when
    its [lastComplete] is strictly smaller, and the opened tab's id when it
    is larger or equal (so the opened tab is kept on a tie). *)
Theorem getLastUpdatedTabId_recency (tabs : gmap Z TabInfo) (observedTab openedTab : Tab.t)
    (observedLast openedLast : option Z) :
  TabsInfo.getLastComplete tabs (Tab.id observedTab) = observedLast ->
  TabsInfo.getLastComplete tabs (Tab.id openedTab) = openedLast ->
  (observedLast = None ->
     getLastUpdatedTabId tabs observedTab openedTab = Tab.id openedTab)
  /\ (is_Some observedLast -> openedLast = None ->
     getLastUpdatedTabId tabs observedTab openedTab = Tab.id observedTab)
  /\ (forall o p, observedLast = Some o -> openedLast = Some p -> o < p ->
     getLastUpdatedTabId tabs observedTab openedTab = Tab.id observedTab)
  /\ (forall o p, observedLast = Some o -> openedLast = Some p -> p <= o ->
     getLastUpdatedTabId tabs observedTab openedTab = Tab.id openedTab).
Proof.
  intros Ho Hp. unfold getLastUpdatedTabId. rewrite Ho, Hp.
  repeat split.
  - by intros ->.
  - intros [o ->] ->. done.
  - intros o p -> -> Hlt. by rewrite (proj2 (Z.ltb_lt o p) Hlt).
  - intros o p -> -> Hle. by rewrite (proj2 (Z.ltb_ge o p) Hle).
Qed.

Lemma getLastUpdatedTabId_recency_witness :
  getLastUpdatedTabId {[ 2 := settledAt 5 ]} (sampleTab 1 1 false) (sampleTab 2 1 false) = 2
  /\ getLastUpdatedTabId {[ 1 := settledAt 5 ]} (sampleTab 1 1 false) (sampleTab 2 1 false) = 1
  /\ getLastUpdatedTabId {[ 1 := settledAt 10; 2 := settledAt 20 ]}
       (sampleTab 1 1 false) (sampleTab 2 1 false) = 1
  /\ getLastUpdatedTabId {[ 1 := settledAt 5; 2 := settledAt 5 ]}
       (sampleTab 1 1 false) (sampleTab 2 1 false) = 2.
Proof.
  pose proof (getLastUpdatedTabId_recency {[ 2 := settledAt 5 ]}
                (sampleTab 1 1 false) (sampleTab 2 1 false) None (Some 5)
                eq_refl eq_refl) as (H1 & _).
  pose proof (getLastUpdatedTabId_recency {[ 1 := settledAt 5 ]}
                (sampleTab 1 1 false) (sampleTab 2 1 false) (Some 5) None
                eq_refl eq_refl) as (_ & H2 & _).
  pose proof (getLastUpdatedTabId_recency {[ 1 := settledAt 10; 2 := settledAt 20 ]}
                (sampleTab 1 1 false) (sampleTab 2 1 false) (Some 10) (Some 20)
                eq_refl eq_refl) as (_ & _ & H3 & _).
  pose proof (getLastUpdatedTabId_recency {[ 1 := settledAt 5; 2 := settledAt 5 ]}
                (sampleTab 1 1 false) (sampleTab 2 1 false) (Some 5) (Some 5)
                eq_refl eq_refl) as (_ & _ & _ & H4).
  exact (conj (H1 eq_refl)
          (conj (H2 (ex_intro _ 5 eq_refl) eq_refl)
            (conj (H3 10 20 eq_refl eq_refl ltac:(lia))
                  (H4 5 5 eq_refl eq_refl ltac:(lia))))).
Defined.

Lemma getFocusedTab_focusOverride (observedTab openedTab : Tab.t) (focused retainedTabId : Z) :
  getFocusedTab observedTab openedTab (Some focused) retainedTabId =
  if retainedTabId =? Tab.id observedTab
  then if focusOverride openedTab observedTab focused
       then Tab.id openedTab else Tab.id observedTab
  else if focusOverride observedTab openedTab focused
       then Tab.id observedTab else Tab.id openedTab.
Proof. reflexivity. Qed.

(** The retained id is one of the two candidates' ids. *)
Lemma getLastUpdatedTabId_cases (tabs : gmap Z TabInfo) (observedTab openedTab : Tab.t) :
  getLastUpdatedTabId tabs observedTab openedTab = Tab.id observedTab
  \/ getLastUpdatedTabId tabs observedTab openedTab = Tab.id openedTab.
Proof.
  unfold getLastUpdatedTabId.
  destruct (TabsInfo.getLastComplete tabs (Tab.id observedTab)) as [o|]; [|by right].
  destruct (TabsInfo.getLastComplete tabs (Tab.id openedTab)) as [p|]; [|by left].
  destruct (o <? p); [by left|by right].
Qed.

Lemma getFocusedTab_cases (observedTab openedTab : Tab.t) (activeWindowId : option Z)
    (retainedTabId : Z) :
  getFocusedTab observedTab openedTab activeWindowId retainedTabId = Tab.id observedTab
  \/ getFocusedTab observedTab openedTab activeWindowId retainedTabId = Tab.id openedTab.
Proof.
  unfold getFocusedTab.
  destruct (retainedTabId =? Tab.id observedTab);
    match goal with |- context [if ?c then _ else _] => destruct c end; auto.
Qed.

(** The id [getCloseInfo] retains, that is [keepInfo.tabId]. *)
Lemma getCloseInfo_tabId (tabs : gmap Z TabInfo) (details : Details) :
  tabId (getCloseInfo tabs details).2 =
  if truthy (activeWindowId details)
  then getFocusedTab (observedTab details) (openedTab details) (activeWindowId details)
         (getLastUpdatedTabId tabs (observedTab details) (openedTab details))
  else getLastUpdatedTabId tabs (observedTab details) (openedTab details).
Proof. reflexivity. Qed.

Lemma getCloseInfo_tabId_cases (tabs : gmap Z TabInfo) (details : Details) :
  tabId (getCloseInfo tabs details).2 = Tab.id (observedTab details)
  \/ tabId (getCloseInfo tabs details).2 = Tab.id (openedTab details).
Proof.
  rewrite getCloseInfo_tabId. destruct (truthy (activeWindowId details)).
  - apply getFocusedTab_cases.
  - apply getLastUpdatedTabId_cases.
Qed.

(** C2: when the focused window id is falsy ([null] or [0]) the keeper is
    the one the recency rule retained.  When it is a known window [f], the
    candidate the recency rule did not retain takes over exactly when it is
    in the focused window and (is the active tab or the retained candidate
    is not in the focused window); so a candidate that alone meets that
    condition is the keeper, and when neither meets it the recency keeper
    stands. *)
Theorem getCloseInfo_focus_override (tabs : gmap Z TabInfo) (details : Details) :
  let observed := observedTab details in
  let opened := openedTab details in
  let provisional := getLastUpdatedTabId tabs observed opened in
  let keeper := tabId (getCloseInfo tabs details).2 in
  (truthy (activeWindowId details) = false -> keeper = provisional)
  /\ (forall f, activeWindowId details = Some f -> f <> 0 ->
        (provisional = Tab.id observed ->
           keeper = if focusOverride opened observed f
                    then Tab.id opened else Tab.id observed)
        /\ (provisional <> Tab.id observed ->
           keeper = if focusOverride observed opened f
                    then Tab.id observed else Tab.id opened)
        /\ (focusOverride observed opened f = true ->
            focusOverride opened observed f = false -> keeper = Tab.id observed)
        /\ (focusOverride opened observed f = true ->
            focusOverride observed opened f = false -> keeper = Tab.id opened)
        /\ (focusOverride observed opened f = false ->
            focusOverride opened observed f = false -> keeper = provisional)).
Proof.
  intros observed opened provisional keeper. subst keeper.
  rewrite getCloseInfo_tabId. fold observed opened provisional. split.
  - by intros ->.
  - intros f Hf Hf0. rewrite Hf. simpl.
    rewrite (proj2 (Z.eqb_neq f 0) Hf0). simpl.
    rewrite getFocusedTab_focusOverride.
    destruct (getLastUpdatedTabId_cases tabs observed opened) as [Hp|Hp];
      fold provisional in Hp.
    + rewrite Hp, Z.eqb_refl. repeat split; try done.
      * by intros _ ->.
      * by intros ->.
      * by intros _ ->.
    + destruct (Z.eqb_spec provisional (Tab.id observed)) as [Heq|Hne].
      * repeat split; try done.
        -- by intros _ ->.
        -- by intros ->.
        -- intros _ ->. congruence.
      * repeat split; try done.
        -- by intros ->.
        -- intros _ ->. congruence.
        -- intros -> _. congruence.
Qed.

Lemma getCloseInfo_focus_override_witness :
  (* focus unknown: the older tab 1 is kept *)
  tabId (getCloseInfo {[ 1 := settledAt 10; 2 := settledAt 20 ]}
           (mkDetails (sampleTab 1 1 false) (sampleTab 2 1 true) None)).2 = 1
  (* window 7 focused, tab 2 active there, the older tab 1 elsewhere: 2 is kept *)
  /\ tabId (getCloseInfo {[ 1 := settledAt 10; 2 := settledAt 20 ]}
           (mkDetails (sampleTab 1 3 false) (sampleTab 2 7 true) (Some 7))).2 = 2.
Proof.
  pose proof (getCloseInfo_focus_override {[ 1 := settledAt 10; 2 := settledAt 20 ]}
                (mkDetails (sampleTab 1 1 false) (sampleTab 2 1 true) None)) as (H1 & _).
  pose proof (getCloseInfo_focus_override {[ 1 := settledAt 10; 2 := settledAt 20 ]}
                (mkDetails (sampleTab 1 3 false) (sampleTab 2 7 true) (Some 7)))
    as (_ & H2).
  destruct (H2 7 eq_refl ltac:(lia)) as (_ & _ & _ & H3 & _).
  exact (conj (H1 eq_refl) (H3 eq_refl eq_refl)).
Defined.

(** The loser is the candidate that is not retained, and the rest of
    [keepInfo] follows from the retained id alone. *)
Lemma getCloseInfo_unfold (tabs : gmap Z TabInfo) (details : Details) :
  let observed := observedTab details in
  let opened := openedTab details in
  let retained := tabId (getCloseInfo tabs details).2 in
  getCloseInfo tabs details =
  (if retained =? Tab.id observed then Tab.id opened else Tab.id observed,
   {| observedTabClosed := negb (retained =? Tab.id observed);
      keep_active := if retained =? Tab.id observed
                     then Tab.active opened else Tab.active observed;
      tabIndex := if retained =? Tab.id observed
                  then Tab.index opened else Tab.index observed;
      tabId := retained;
      keep_windowId := if retained =? Tab.id observed
                       then Tab.windowId observed else Tab.windowId opened |}).
Proof. reflexivity. Qed.

Lemma getLastUpdatedTabId_ext (tabs1 tabs2 : gmap Z TabInfo) (observedTab openedTab : Tab.t) :
  TabsInfo.getLastComplete tabs1 (Tab.id observedTab)
    = TabsInfo.getLastComplete tabs2 (Tab.id observedTab) ->
  TabsInfo.getLastComplete tabs1 (Tab.id openedTab)
    = TabsInfo.getLastComplete tabs2 (Tab.id openedTab) ->
  getLastUpdatedTabId tabs1 observedTab openedTab
    = getLastUpdatedTabId tabs2 observedTab openedTab.
Proof. intros H1 H2. unfold getLastUpdatedTabId. by rewrite H1, H2. Qed.

(** The keeper is a function of the six booleans of [keepsObserved]. *)
Lemma getCloseInfo_decision_table (tabs : gmap Z TabInfo) (details : Details) :
  let observed := observedTab details in
  let opened := openedTab details in
  let focus := activeWindowId details in
  tabId (getCloseInfo tabs details).2 =
  if keepsObserved
       (getLastUpdatedTabId tabs observed opened =? Tab.id observed)
       (truthy focus)
       (strict_eq_nullable (Tab.windowId observed) focus) (Tab.active observed)
       (strict_eq_nullable (Tab.windowId opened) focus) (Tab.active opened)
  then Tab.id observed else Tab.id opened.
Proof.
  intros observed opened focus. rewrite getCloseInfo_tabId.
  fold observed opened focus. unfold keepsObserved, getFocusedTab.
  destruct (truthy focus).
  - destruct (getLastUpdatedTabId tabs observed opened =? Tab.id observed);
      by destruct (_ && _).
  - destruct (Z.eqb_spec (getLastUpdatedTabId tabs observed opened) (Tab.id observed))
      as [Heq|Hne]; [done|].
    by destruct (getLastUpdatedTabId_cases tabs observed opened).
Qed.

(** C3: [getCloseInfo] always returns a pair whose loser is the id of one
    of the two candidates, whatever the timestamps, the active flags, the
    windows and the focused window (known or not); and its result is fixed
    by the two tab objects, the focused window id and the two [lastComplete]
    values read from the registry: two registries that agree on those give
    the same loser and the same [keepInfo]. *)
Theorem getCloseInfo_total_deterministic (tabs1 tabs2 : gmap Z TabInfo) (details : Details) :
  TabsInfo.getLastComplete tabs1 (Tab.id (observedTab details))
    = TabsInfo.getLastComplete tabs2 (Tab.id (observedTab details)) ->
  TabsInfo.getLastComplete tabs1 (Tab.id (openedTab details))
    = TabsInfo.getLastComplete tabs2 (Tab.id (openedTab details)) ->
  (exists loser keepInfo,
      getCloseInfo tabs1 details = (loser, keepInfo)
      /\ (loser = Tab.id (observedTab details) \/ loser = Tab.id (openedTab details))
      /\ forall loser' keepInfo',
           getCloseInfo tabs2 details = (loser', keepInfo') ->
           loser' = loser /\ keepInfo' = keepInfo).
Proof.
  intros Hobs Hop.
  assert (getCloseInfo tabs1 details = getCloseInfo tabs2 details) as Heq.
  { unfold getCloseInfo.
    by rewrite (getLastUpdatedTabId_ext tabs1 tabs2 _ _ Hobs Hop). }
  exists (getCloseInfo tabs1 details).1, (getCloseInfo tabs1 details).2.
  split; [by destruct (getCloseInfo tabs1 details)|]. split.
  - rewrite getCloseInfo_unfold. simpl.
    destruct (_ =? _); [by right|by left].
  - intros loser' keepInfo' H'. rewrite Heq, H'. done.
Qed.

Lemma getCloseInfo_total_deterministic_witness :
  exists loser keepInfo,
    getCloseInfo {[ 1 := settledAt 10; 2 := settledAt 20 ]}
      (mkDetails (sampleTab 1 1 false) (sampleTab 2 1 true) (Some 1)) = (loser, keepInfo)
    /\ (loser = 1 \/ loser = 2)
    /\ forall loser' keepInfo',
         getCloseInfo {[ 1 := mkTabInfo None (Some 10) true 99;
                         2 := settledAt 20; 3 := unsettled ]}
           (mkDetails (sampleTab 1 1 false) (sampleTab 2 1 true) (Some 1))
           = (loser', keepInfo') ->
         loser' = loser /\ keepInfo' = keepInfo.
Proof.
  exact (getCloseInfo_total_deterministic
           {[ 1 := settledAt 10; 2 := settledAt 20 ]}
           {[ 1 := mkTabInfo None (Some 10) true 99; 2 := settledAt 20; 3 := unsettled ]}
           (mkDetails (sampleTab 1 1 false) (sampleTab 2 1 true) (Some 1))
           eq_refl eq_refl).
Defined.

(** C10: for two candidates with distinct ids, [getCloseInfo] closes one
    of them and keeps the other: either the observed tab is the loser and
    [keepInfo] names the opened tab, with the opened tab's window and the
    observed (closed) tab's active flag and index, or the other way round.
    The loser is never the keeper and never a third id. *)
Theorem getCloseInfo_partition (tabs : gmap Z TabInfo) (details : Details) :
  Tab.id (observedTab details) <> Tab.id (openedTab details) ->
  let observed := observedTab details in
  let opened := openedTab details in
  let loser := (getCloseInfo tabs details).1 in
  let keepInfo := (getCloseInfo tabs details).2 in
  loser <> tabId keepInfo
  /\ ((loser = Tab.id observed
       /\ tabId keepInfo = Tab.id opened
       /\ keep_windowId keepInfo = Tab.windowId opened
       /\ keep_active keepInfo = Tab.active observed
       /\ tabIndex keepInfo = Tab.index observed
       /\ observedTabClosed keepInfo = true)
      \/ (loser = Tab.id opened
          /\ tabId keepInfo = Tab.id observed
          /\ keep_windowId keepInfo = Tab.windowId observed
          /\ keep_active keepInfo = Tab.active opened
          /\ tabIndex keepInfo = Tab.index opened
          /\ observedTabClosed keepInfo = false)).
Proof.
  intros Hne observed opened loser keepInfo. subst loser keepInfo.
  pose proof (getCloseInfo_unfold tabs details) as Hu. cbv zeta in Hu.
  fold observed opened in Hu, Hne.
  destruct (getCloseInfo_tabId_cases tabs details) as [Hk|Hk];
    fold observed opened in Hk; rewrite Hk in Hu; rewrite Hu; clear Hu Hk.
  - rewrite Z.eqb_refl. simpl. split; [congruence|]. right. done.
  - rewrite (proj2 (Z.eqb_neq (Tab.id opened) (Tab.id observed))); [|congruence].
    simpl. split; [done|]. left. done.
Qed.

Lemma getCloseInfo_partition_witness :
  let details := mkDetails (sampleTab 1 3 false) (sampleTab 2 7 true) (Some 7) in
  let tabs : gmap Z TabInfo := {[ 1 := settledAt 10; 2 := settledAt 20 ]} in
  (getCloseInfo tabs details).1 = 1
  /\ tabId (getCloseInfo tabs details).2 = 2
  /\ (getCloseInfo tabs details).1 <> tabId (getCloseInfo tabs details).2.
Proof.
  intros details tabs.
  pose proof (getCloseInfo_partition tabs details ltac:(simpl; lia)) as (Hne & _).
  exact (conj eq_refl (conj eq_refl Hne)).
Defined.

(** ** The URL canonicalizer *)





Lemma lowerChar_slash (c : ascii) : Ascii.eqb (lowerChar c) "/" = Ascii.eqb c "/".
Proof. destruct c as [[] [] [] [] [] [] [] []]; reflexivity. Qed.


Lemma hasHash_append (s t : string) : hasHash (s +:+ t) = hasHash s || hasHash t.
Proof. induction s as [|c s IH]; simpl; [done|]. by rewrite IH, orb_assoc. Qed.






















(** ** Garbage collection *)

Lemma deleteAbsent_lookup_present (currentTabIds : gset Z) (storedTabIds : list Z)
    (tabs : gmap Z TabInfo) (tabId : Z) :
  tabId ∈ currentTabIds ->
  TabsInfo.deleteAbsent currentTabIds tabs storedTabIds !! tabId = tabs !! tabId.
Proof.
  intros Hin. unfold TabsInfo.deleteAbsent.
  revert tabs. induction storedTabIds as [|k ks IH]; intros tabs; simpl; [done|].
  rewrite IH. case_bool_decide as Hk; [done|].
  apply lookup_delete_ne. intros ->. done.
Qed.

Lemma deleteIdle_lookup_present (currentTabIds : gset Z) (oneHourAgo : Z)
    (entries : list (Z * TabInfo)) (tabs : gmap Z TabInfo) (tabId : Z) :
  tabId ∈ currentTabIds ->
  TabsInfo.deleteIdle currentTabIds oneHourAgo tabs entries !! tabId = tabs !! tabId.
Proof.
  intros Hin. unfold TabsInfo.deleteIdle.
  revert tabs. induction entries as [|[k tab] es IH]; intros tabs; simpl; [done|].
  rewrite IH. destruct (lastAccessed tab <? oneHourAgo); simpl; [|done].
  case_bool_decide as Hk; simpl; [done|].
  apply lookup_delete_ne. intros ->. done.
Qed.

Lemma deleteAbsent_lookup_Some (currentTabIds : gset Z) (storedTabIds : list Z)
    (tabs : gmap Z TabInfo) (tabId : Z) (tab : TabInfo) :
  TabsInfo.deleteAbsent currentTabIds tabs storedTabIds !! tabId = Some tab ->
  tabs !! tabId = Some tab.
Proof.
  unfold TabsInfo.deleteAbsent.
  revert tabs. induction storedTabIds as [|k ks IH]; intros tabs; simpl; [done|].
  intros H. apply IH in H. case_bool_decide; [done|].
  by apply lookup_delete_Some in H as [_ H].
Qed.

Lemma deleteIdle_lookup_Some (currentTabIds : gset Z) (oneHourAgo : Z)
    (entries : list (Z * TabInfo)) (tabs : gmap Z TabInfo) (tabId : Z) (tab : TabInfo) :
  TabsInfo.deleteIdle currentTabIds oneHourAgo tabs entries !! tabId = Some tab ->
  tabs !! tabId = Some tab.
Proof.
  unfold TabsInfo.deleteIdle.
  revert tabs. induction entries as [|[k e] es IH]; intros tabs; simpl; [done|].
  intros H. apply IH in H.
  destruct (_ && _); [|done].
  by apply lookup_delete_Some in H as [_ H].
Qed.

(** C8: a record whose id is in the snapshot fetched by [cleanup()] is
    still in the registry, unchanged, when [cleanup()] is done, whatever its
    [lastAccessed] and whatever the clock reads; and [cleanup()] adds and
    alters nothing, so a record that is gone afterwards had an id absent
    from the snapshot. *)
Theorem cleanup_keeps_present (currentTabs : list Tab.t) (currentWindows : list Z)
    (w : World) (tabId : Z) :
  tabId ∈ map Tab.id currentTabs ->
  tabsInfo (cleanup (Some currentTabs) currentWindows w) !! tabId = tabsInfo w !! tabId
  /\ (forall other tab,
        tabsInfo (cleanup (Some currentTabs) currentWindows w) !! other = Some tab ->
        tabsInfo w !! other = Some tab)
  /\ (forall other,
        is_Some (tabsInfo w !! other) ->
        tabsInfo (cleanup (Some currentTabs) currentWindows w) !! other = None ->
        other ∉ map Tab.id currentTabs).
Proof.
  intros Hin.
  assert (forall k, k ∈ map Tab.id currentTabs ->
            tabsInfo (cleanup (Some currentTabs) currentWindows w) !! k = tabsInfo w !! k)
    as Hkeep.
  { intros k Hk. simpl.
    rewrite deleteIdle_lookup_present, deleteAbsent_lookup_present;
      [done| |]; by apply elem_of_list_to_set. }
  split; [by apply Hkeep|]. split.
  - intros other tab H. simpl in H.
    by apply deleteIdle_lookup_Some, deleteAbsent_lookup_Some in H.
  - intros other [tab Htab] Hgone Hother.
    rewrite (Hkeep _ Hother) in Hgone. congruence.
Qed.

Lemma cleanup_keeps_present_witness :
  tabsInfo (cleanup (Some [sampleTab 1 1 true]) [1] idleWorld) !! 1 = Some (settledAt 0)
  /\ tabsInfo (cleanup (Some [sampleTab 1 1 true]) [1] idleWorld) !! 2 = None.
Proof.
  split.
  - exact (proj1 (cleanup_keeps_present [sampleTab 1 1 true] [1] idleWorld 1
                    ltac:(apply list_elem_of_In; simpl; auto))).
  - vm_compute. reflexivity.
Defined.

(** ** Debounce cancellation *)

(** C9: [cancel(windowId)] returns [true] exactly when a timer is pending
    for the window, and then clears that timer and removes the window's
    entry, leaving the other windows' entries alone; when none is pending
    (or [windowId] is [null]) it returns [false] and changes nothing; and
    a second [cancel] for the same window returns [false] and changes
    nothing. *)
Theorem cancel_idempotent {Args : Type} (windowId : option Z) (d : Debounced Args) :
  let pending :=
    match windowId with
    | Some windowId => hasPending windowId d
    | None => false
    end in
  (cancel windowId d).1 = pending
  /\ (pending = false -> (cancel windowId d).2 = d)
  /\ (forall id timerId,
        windowId = Some id -> timers d !! id = Some timerId ->
        (cancel windowId d).1 = true
        /\ timers (cancel windowId d).2 !! id = None
        /\ timeouts (cancel windowId d).2 !! timerId = None
        /\ hasPending id (cancel windowId d).2 = false
        /\ forall other, other <> id ->
             timers (cancel windowId d).2 !! other = timers d !! other)
  /\ cancel windowId (cancel windowId d).2 = (false, (cancel windowId d).2).
Proof.
  destruct windowId as [id|]; simpl; [|by repeat split].
  destruct (timers d !! id) as [timerId|] eqn:Hid.
  - assert (hasPending id d = true) as ->.
    { unfold hasPending. rewrite Hid. by apply bool_decide_eq_true_2. }
    simpl. split; [done|]. split; [discriminate|]. split.
    + intros id' timerId' [= <-] Htimer.
      assert (timerId' = timerId) as -> by congruence. split; [done|].
      split; [apply lookup_delete_eq|]. split; [apply lookup_delete_eq|].
      split.
      * unfold hasPending. simpl. rewrite lookup_delete_eq.
        apply bool_decide_eq_false_2. by inversion 1.
      * intros other Hne. by apply lookup_delete_ne.
    + by rewrite lookup_delete_eq.
  - assert (hasPending id d = false) as ->.
    { unfold hasPending. rewrite Hid. apply bool_decide_eq_false_2. by inversion 1. }
    simpl. split; [done|]. split; [done|]. split; [intros ? ? [= <-]; congruence|].
    by rewrite Hid.
Qed.

Lemma cancel_idempotent_witness :
  let d := debounced (Some 7) tt (mkDebounced ∅ ∅ 0) in
  (cancel (Some 7) d).1 = true
  /\ (cancel (Some 7) (cancel (Some 7) d).2).1 = false
  /\ (cancel (Some 8) d).2 = d.
Proof.
  intros d.
  pose proof (cancel_idempotent (Some 7) d) as (_ & _ & H1 & H2).
  pose proof (cancel_idempotent (Some 8) d) as (_ & H3 & _).
  destruct (H1 7 O eq_refl eq_refl) as (Htrue & _).
  exact (conj Htrue (conj (f_equal fst H2) (H3 eq_refl))).
Defined.

(** ** The closure executor *)

Lemma removeTab_eq (tabId : Z) (retryCount : nat) (w : World) :
  removeTab tabId retryCount w =
  let '(lastError, w1) := chrome_tabs_remove tabId w in
  match removeTab_callback lastError retryCount with
  | DoResolve => (Fulfilled tt, w1)
  | DoReject errorMessage => (Rejected errorMessage, w1)
  | DoRetry => removeTab tabId (S retryCount) (wait retryDelay w1)
  end.
Proof.
  simp removeTab.
  destruct (chrome_tabs_remove tabId w) as [lastError w1].
  simpl.
  destruct (Logic.inspect (removeTab_callback lastError retryCount)) as [a Ha].
  rewrite Ha. by destruct a.
Qed.

Lemma removeTab_callback_retry (lastError : option string) (retryCount : nat) :
  removeTab_callback lastError retryCount = DoRetry ->
  (retryCount < maxRetries)%nat
  /\ exists m, lastError = Some m /\ includes m transientMarker = true.
Proof.
  unfold removeTab_callback. destruct lastError as [m|]; [|discriminate].
  destruct (includes m transientMarker) eqn:Htransient; [|discriminate].
  destruct (Nat.ltb_spec retryCount maxRetries); [|discriminate].
  intros _. split; [done|]. by exists m.
Qed.

Lemma attempts_app (l1 l2 : list Event) :
  attempts (l1 ++ l2) = (attempts l1 + attempts l2)%nat.
Proof. unfold attempts. by rewrite List.filter_app, length_app. Qed.

Lemma chrome_tabs_remove_world (tabId : Z) (w : World) :
  let r := chrome_tabs_remove tabId w in
  r.1 = removeReplies w (removeCalls w) tabId
  /\ tabsInfo r.2 = tabsInfo w
  /\ handleRemainingTab r.2 = handleRemainingTab w
  /\ clock r.2 = clock w
  /\ removeReplies r.2 = removeReplies w
  /\ removeCalls r.2 = S (removeCalls w)
  /\ schedule r.2 = schedule w
  /\ trace r.2 = trace w ++ attempt tabId (tabsInfo w) r.1.
Proof. simpl. repeat split. by rewrite <- app_assoc. Qed.

Lemma removeTab_eq' (tabId : Z) (retryCount : nat) (w : World) :
  removeTab tabId retryCount w =
  match removeTab_callback (chrome_tabs_remove tabId w).1 retryCount with
  | DoResolve => (Fulfilled tt, (chrome_tabs_remove tabId w).2)
  | DoReject errorMessage => (Rejected errorMessage, (chrome_tabs_remove tabId w).2)
  | DoRetry => removeTab tabId (S retryCount) (wait retryDelay (chrome_tabs_remove tabId w).2)
  end.
Proof. rewrite removeTab_eq. by destruct (chrome_tabs_remove tabId w). Qed.

(** What a run of [removeTab] does to the world: it leaves the registry,
    the debouncer and the browser alone, and adds to the trace between one
    and [maxRetries + 1 - retryCount] attempts for [tabId], separated by
    waits of [retryDelay]; it fulfils exactly when the browser answered one
    of them without an error. *)
Lemma removeTab_run (tabId : Z) (n retryCount : nat) (w : World) :
  (maxRetries - retryCount <= n)%nat ->
  tabsInfo (removeTab tabId retryCount w).2 = tabsInfo w
  /\ handleRemainingTab (removeTab tabId retryCount w).2 = handleRemainingTab w
  /\ removeReplies (removeTab tabId retryCount w).2 = removeReplies w
  /\ schedule (removeTab tabId retryCount w).2 = schedule w
  /\ exists new,
       trace (removeTab tabId retryCount w).2 = trace w ++ new
       /\ removeCalls (removeTab tabId retryCount w).2 = (removeCalls w + attempts new)%nat
       /\ (1 <= attempts new <= S (maxRetries - retryCount))%nat
       /\ Forall (fun e => e = RemoveRequest tabId (tabsInfo w)
                           \/ (exists lastError, e = RemoveReply tabId lastError)
                           \/ e = Wait retryDelay) new
       /\ (isFulfilled (removeTab tabId retryCount w).1 = true
           <-> RemoveReply tabId None ∈ new).
Proof.
  revert retryCount w. induction n as [|n IH]; intros retryCount w Hn.
  all: rewrite removeTab_eq'.
  all: destruct (chrome_tabs_remove_world tabId w)
         as (Hreply & Ht & Hd & _ & Hr & Hc & Hs & Htr).
  all: destruct (chrome_tabs_remove tabId w) as [lastError w1]; simpl in *.
  all: destruct (removeTab_callback lastError retryCount) as [|m|] eqn:Hcb.
  all: simpl.
  1,4: assert (lastError = None) as HlastError
         by (unfold removeTab_callback in Hcb; destruct lastError as [m'|];
             [destruct (_ && _); discriminate|done]).
  1,2: repeat (split; [done|]); exists (attempt tabId (tabsInfo w) lastError);
       split; [done|]; change (attempts (attempt tabId (tabsInfo w) lastError)) with 1%nat;
       split; [lia|]; split; [lia|];
       split; [apply Forall_cons; split; [by left|];
               apply Forall_cons; split; [right; left; eauto|by apply Forall_nil]|];
       split; [intros _; rewrite HlastError; apply list_elem_of_In; simpl; auto|done].
  1,3: assert (exists m', lastError = Some m') as [m' HlastError]
         by (unfold removeTab_callback in Hcb; destruct lastError as [m'|];
             [eauto|discriminate]).
  1,2: repeat (split; [done|]); exists (attempt tabId (tabsInfo w) lastError);
       split; [done|]; change (attempts (attempt tabId (tabsInfo w) lastError)) with 1%nat;
       split; [lia|]; split; [lia|];
       split; [apply Forall_cons; split; [by left|];
               apply Forall_cons; split; [right; left; eauto|by apply Forall_nil]|];
       split; [discriminate|]; rewrite HlastError; intros Hin;
       apply list_elem_of_In in Hin; simpl in Hin;
       destruct Hin as [|[|[]]]; discriminate.
  all: apply removeTab_callback_retry in Hcb as (Hlt & m & Hm & Htransient).
  { exfalso. lia. }
  destruct (IH (S retryCount) (wait retryDelay w1) ltac:(lia))
    as (Ht' & Hd' & Hr' & Hs' & new & Htr' & Hcalls & Hbound & Hall & Hok).
  simpl in Ht', Hd', Hr', Hs', Htr', Hcalls, Hall.
  split; [congruence|]. split; [congruence|]. split; [congruence|].
  split; [congruence|].
  exists (attempt tabId (tabsInfo w) lastError ++ Wait retryDelay :: new).
  split; [rewrite Htr', Htr; by rewrite <- !app_assoc|].
  rewrite attempts_app.
  change (attempts (attempt tabId (tabsInfo w) lastError)) with 1%nat.
  change (attempts (Wait retryDelay :: new)) with (attempts new).
  split; [lia|]. split; [lia|].
  split.
  - apply Forall_app. split.
    + apply Forall_cons; split; [by left|].
      apply Forall_cons; split; [right; left; eauto|by apply Forall_nil].
    + apply Forall_cons; split; [by right; right|]. by rewrite <- Ht.
  - rewrite Hok, Hm. rewrite elem_of_app, !list_elem_of_In. simpl.
    split; [auto|]. intros [[|[|[]]]|[|]]; try discriminate; done.
Qed.

Ltac settle_cases :=
  repeat first [split | intro];
  repeat match goal with
         | H : Some _ = Some _ |- _ => injection H as <-
         end;
  try discriminate; try congruence; try done;
  try (by simpl; rewrite <- !app_assoc).

(** C6: a call [removeTab(tabId)] issues between one and three
    [chrome.tabs.remove] requests and then settles.  A reply without error
    fulfils it; a failure whose message lacks the transient marker rejects
    it at once, with that message; a failure with the marker is followed by
    a wait of [retryDelay] and another attempt, twice at most: the third
    failure rejects it whatever its message. *)
Theorem removeTab_bounded_retry (tabId : Z) (w : World) :
  let reply (k : nat) := removeReplies w (k + removeCalls w)%nat tabId in
  let transient (k : nat) :=
    match reply k with
    | Some m => includes m transientMarker
    | None => false
    end in
  let registry := tabsInfo w in
  let r := removeTab tabId 0 w in
  (exists new,
      trace r.2 = trace w ++ new
      /\ (1 <= attempts new <= maxRetries + 1)%nat
      /\ removeCalls r.2 = (removeCalls w + attempts new)%nat)
  /\ (reply 0%nat = None ->
      r.1 = Fulfilled tt /\ trace r.2 = trace w ++ attempt tabId registry None)
  /\ (forall m, reply 0%nat = Some m -> includes m transientMarker = false ->
      r.1 = Rejected m /\ trace r.2 = trace w ++ attempt tabId registry (Some m))
  /\ (transient 0%nat = true -> reply 1%nat = None ->
      r.1 = Fulfilled tt
      /\ trace r.2 = trace w ++ attempt tabId registry (reply 0%nat)
                       ++ [Wait retryDelay] ++ attempt tabId registry None)
  /\ (transient 0%nat = true ->
      forall m, reply 1%nat = Some m -> includes m transientMarker = false ->
      r.1 = Rejected m
      /\ trace r.2 = trace w ++ attempt tabId registry (reply 0%nat)
                       ++ [Wait retryDelay] ++ attempt tabId registry (Some m))
  /\ (transient 0%nat = true -> transient 1%nat = true -> reply 2%nat = None ->
      r.1 = Fulfilled tt
      /\ trace r.2 = trace w ++ attempt tabId registry (reply 0%nat)
                       ++ [Wait retryDelay] ++ attempt tabId registry (reply 1%nat)
                       ++ [Wait retryDelay] ++ attempt tabId registry None)
  /\ (transient 0%nat = true -> transient 1%nat = true ->
      forall m, reply 2%nat = Some m ->
      r.1 = Rejected m
      /\ trace r.2 = trace w ++ attempt tabId registry (reply 0%nat)
                       ++ [Wait retryDelay] ++ attempt tabId registry (reply 1%nat)
                       ++ [Wait retryDelay] ++ attempt tabId registry (Some m)).
Proof.
  intros reply transient registry r. split.
  { destruct (removeTab_run tabId maxRetries 0 w ltac:(lia))
      as (_ & _ & _ & _ & new & Htr & Hcalls & Hbound & _).
    exists new. repeat split; try done; unfold maxRetries in *; simpl in *; lia. }
  subst r transient reply registry. cbn beta. unfold attempt.
  change (0 + removeCalls w)%nat with (removeCalls w).
  change (1 + removeCalls w)%nat with (S (removeCalls w)).
  change (2 + removeCalls w)%nat with (S (S (removeCalls w))).
  remember (removeReplies w (removeCalls w) tabId) as r0 eqn:E0.
  remember (removeReplies w (S (removeCalls w)) tabId) as r1 eqn:E1.
  remember (removeReplies w (S (S (removeCalls w))) tabId) as r2 eqn:E2.
  rewrite removeTab_eq'. simpl. rewrite <- E0.
  unfold removeTab_callback at 1. simpl.
  destruct r0 as [m0|]; simpl; [|settle_cases].
  destruct (includes m0 transientMarker) eqn:Ht0; simpl; [|settle_cases].
  rewrite removeTab_eq'. simpl. rewrite <- E1.
  unfold removeTab_callback at 1. simpl.
  destruct r1 as [m1|]; simpl; [|settle_cases].
  destruct (includes m1 transientMarker) eqn:Ht1; simpl; [|settle_cases].
  rewrite removeTab_eq'. simpl. rewrite <- E2.
  unfold removeTab_callback at 1. simpl.
  destruct r2 as [m2|]; simpl; [|settle_cases].
  rewrite andb_false_r. settle_cases.
Qed.

Lemma removeTab_bounded_retry_witness :
  ((removeTab 7 0 lockedTwice).1 = Fulfilled tt
   /\ attempts (trace (removeTab 7 0 lockedTwice).2) = 3%nat)
  /\ ((removeTab 7 0 lockedForGood).1 = Rejected "Tabs cannot be edited right now"
      /\ attempts (trace (removeTab 7 0 lockedForGood).2) = 3%nat).
Proof.
  destruct (removeTab_bounded_retry 7 lockedTwice) as (_ & _ & _ & _ & _ & H1 & _).
  destruct (removeTab_bounded_retry 7 lockedForGood) as (_ & _ & _ & _ & _ & _ & H2).
  destruct (H1 eq_refl eq_refl eq_refl) as [Hok Htrace].
  destruct (H2 eq_refl eq_refl _ eq_refl) as [Hrejected Htrace'].
  exact (conj (conj Hok (f_equal attempts Htrace))
              (conj Hrejected (f_equal attempts Htrace'))).
Defined.

(** ** The ignored flag around a closure *)

Lemma ignoreTab_flag (tabs : gmap Z TabInfo) (tabId : Z) (state : bool) (now : Z) :
  is_Some (tabs !! tabId) ->
  ignoredFlag (TabsInfo.ignoreTab tabs tabId state now) tabId = Some state.
Proof.
  intros [tab Htab]. unfold ignoredFlag, TabsInfo.ignoreTab.
  rewrite Htab. by rewrite lookup_insert_eq.
Qed.

Lemma ignoreTab_lookup_ne (tabs : gmap Z TabInfo) (tabId other : Z) (state : bool) (now : Z) :
  tabId <> other ->
  TabsInfo.ignoreTab tabs tabId state now !! other = tabs !! other.
Proof.
  intros Hne. unfold TabsInfo.ignoreTab.
  destruct (tabs !! tabId); [by rewrite lookup_insert_ne|done].
Qed.

Lemma ignoreTab_is_Some (tabs : gmap Z TabInfo) (tabId other : Z) (state : bool) (now : Z) :
  is_Some (TabsInfo.ignoreTab tabs tabId state now !! other) <-> is_Some (tabs !! other).
Proof.
  destruct (decide (tabId = other)) as [->|Hne];
    [|by rewrite ignoreTab_lookup_ne].
  unfold TabsInfo.ignoreTab. destruct (tabs !! other) as [tab|] eqn:Htab.
  - rewrite lookup_insert_eq. split; eauto.
  - by rewrite Htab.
Qed.

Lemma ignoredFlag_is_Some (registry : gmap Z TabInfo) (tabId : Z) (b : bool) :
  ignoredFlag registry tabId = Some b -> is_Some (registry !! tabId).
Proof. unfold ignoredFlag. destruct (registry !! tabId); [eauto|discriminate]. Qed.

Lemma attempts_request (tabId : Z) (registry0 : gmap Z TabInfo) (events : list Event) :
  (1 <= attempts events)%nat ->
  Forall (fun e => e = RemoveRequest tabId registry0
                   \/ (exists lastError, e = RemoveReply tabId lastError)
                   \/ e = Wait retryDelay) events ->
  exists registry, RemoveRequest tabId registry ∈ events.
Proof.
  induction events as [|e l IH]; [unfold attempts; simpl; lia|].
  intros Hpos Hall. apply Forall_cons in Hall as [He Hl].
  destruct He as [-> | [[lastError ->] | ->]].
  - eexists. by left.
  - destruct (IH Hpos Hl) as [registry Hr]. exists registry. by right.
  - destruct (IH Hpos Hl) as [registry Hr]. exists registry. by right.
Qed.

(** One closure, from marking the tab to settling its flag: the body
    shared by [closeDuplicateTab] and by the sequential branch of the
    startup reconciler. *)
Lemma closure_flagDiscipline (tabId : Z) (w : World) :
  let w1 := ignoreTab tabId true w in
  let r := removeTab tabId 0 w1 in
  let after := if isFulfilled r.1 then r.2 else ignoreTab tabId false r.2 in
  exists new,
    trace after = trace w ++ new
    /\ Forall (fun e => concerns tabId e \/ e = Wait retryDelay) new
    /\ (forall other, other <> tabId -> tabsInfo after !! other = tabsInfo w !! other)
    /\ (is_Some (tabsInfo w !! tabId) -> flagDiscipline tabId new after).
Proof.
  intros w1 r after.
  destruct (removeTab_run tabId maxRetries 0 w1 ltac:(lia))
    as (Ht & _ & _ & _ & new & Htr & _ & Hbound & Hall & Hok).
  fold r in Ht, Htr, Hok.
  exists new. split; [|split; [|split]].
  - subst after. by destruct (isFulfilled r.1).
  - eapply Forall_impl; [exact Hall|]. simpl.
    intros e [-> | [[lastError ->] | ->]]; simpl; auto.
  - intros other Hne. subst after.
    destruct (isFulfilled r.1); simpl; rewrite ?ignoreTab_lookup_ne by done;
      rewrite Ht; simpl; by rewrite ignoreTab_lookup_ne.
  - intros Hreg.
    assert (ignoredFlag (tabsInfo w1) tabId = Some true) as Hflag1
      by (by apply ignoreTab_flag).
    split; [|split; [|split]].
  + intros registry Hin. rewrite Forall_forall in Hall.
    destruct (Hall _ Hin) as [[= ->]|[[lastError [=]]|[=]]]. done.
  + eapply attempts_request; [|exact Hall]. lia.
  + intros Hin. apply Hok in Hin. subst after. rewrite Hin. by rewrite Ht.
  + intros Hnot. subst after.
    destruct (isFulfilled r.1) eqn:Hf; [exfalso; apply Hnot; by apply Hok|].
    simpl. apply ignoreTab_flag. rewrite Ht. by eapply ignoredFlag_is_Some.
Qed.

(** Events about other tabs, before or after, and a world that agrees on
    the tab's record, do not disturb a closure's discipline. *)
Lemma flagDiscipline_frame (tabId : Z) (before events after' : list Event)
    (after world : World) :
  flagDiscipline tabId events after ->
  Forall (fun e => ~ concerns tabId e) before ->
  Forall (fun e => ~ concerns tabId e) after' ->
  tabsInfo world !! tabId = tabsInfo after !! tabId ->
  flagDiscipline tabId (before ++ events ++ after') world.
Proof.
  intros (Hguard & [registry Hreq] & Hyes & Hno) Hbefore Hafter Hsame.
  rewrite Forall_forall in Hbefore, Hafter.
  assert (forall e, concerns tabId e ->
            e ∈ before ++ events ++ after' -> e ∈ events) as Hin.
  { intros e He. rewrite !elem_of_app. intros [H|[H|H]]; [|done|].
    - by destruct (Hbefore _ H).
    - by destruct (Hafter _ H). }
  unfold flagDiscipline, ignoredFlag in *. rewrite Hsame.
  split; [|split; [|split]].
  - intros r Hr. apply Hguard, Hin; [done|exact Hr].
  - exists registry. rewrite !elem_of_app. auto.
  - intros H. apply Hyes, Hin; [done|exact H].
  - intros H. apply Hno. intros H'. apply H. rewrite !elem_of_app. auto.
Qed.

Lemma concerns_other (tabId other : Z) (events : list Event) :
  other <> tabId ->
  Forall (fun e => concerns tabId e \/ e = Wait retryDelay) events ->
  Forall (fun e => ~ concerns other e) events.
Proof.
  intros Hne Hall. eapply Forall_impl; [exact Hall|]. simpl.
  intros e [He| ->]; [|by intros []].
  destruct e; simpl in *; congruence.
Qed.

Lemma closeSequentially_cons (tabToClose : Tab.t) (rest : list Tab.t) (w : World) :
  closeSequentially (tabToClose :: rest) w =
  closeSequentially rest
    (let r := removeTab (Tab.id tabToClose) 0 (ignoreTab (Tab.id tabToClose) true w) in
     if isFulfilled r.1 then wait 25 r.2 else ignoreTab (Tab.id tabToClose) false r.2).
Proof.
  simpl. unfold mbind, Async_bind, await, tryCatch, exec. simpl.
  by destruct (removeTab (Tab.id tabToClose) 0 (ignoreTab (Tab.id tabToClose) true w))
    as [[[]|reason] w'].
Qed.

(** The sequential branch: every loser's closure keeps the discipline,
    and tabs that are not among the losers are left alone. *)
Lemma closeSequentially_flagDiscipline (tabsToClose : list Tab.t) (w : World) :
  NoDup (map Tab.id tabsToClose) ->
  exists new,
    trace (closeSequentially tabsToClose w).2 = trace w ++ new
    /\ (forall id, id ∉ map Tab.id tabsToClose ->
          tabsInfo (closeSequentially tabsToClose w).2 !! id = tabsInfo w !! id
          /\ Forall (fun e => ~ concerns id e) new)
    /\ (forall id, id ∈ map Tab.id tabsToClose -> is_Some (tabsInfo w !! id) ->
          flagDiscipline id new (closeSequentially tabsToClose w).2).
Proof.
  revert w. induction tabsToClose as [|t rest IH]; intros w Hnodup.
  { exists []. simpl. rewrite app_nil_r. split; [done|]. split; [done|].
    intros id Hin. by apply elem_of_nil in Hin. }
  apply NoDup_cons in Hnodup as [Hfresh Hnodup].
  rewrite closeSequentially_cons.
  destruct (closure_flagDiscipline (Tab.id t) w) as (new1 & Htr1 & Hall1 & Hframe1 & Hdisc1).
  set (r := removeTab (Tab.id t) 0 (ignoreTab (Tab.id t) true w)) in *.
  cbv zeta in Htr1, Hframe1, Hdisc1.
  set (after1 := if isFulfilled r.1 then r.2 else ignoreTab (Tab.id t) false r.2) in *.
  set (w' := if isFulfilled r.1 then wait 25 r.2 else ignoreTab (Tab.id t) false r.2).
  set (pause := if isFulfilled r.1 then [Wait 25] else []).
  assert (trace w' = trace w ++ new1 ++ pause) as Htr'.
  { subst w' pause after1. destruct (isFulfilled r.1); simpl in *.
    - by rewrite Htr1, app_assoc.
    - by rewrite Htr1, app_nil_r. }
  assert (tabsInfo w' = tabsInfo after1) as Htabs'
    by (subst w' after1; by destruct (isFulfilled r.1)).
  assert (forall id, Forall (fun e => ~ concerns id e) pause) as Hpause.
  { intros id. subst pause. destruct (isFulfilled r.1); [|done].
    apply Forall_cons. split; [by intros []|done]. }
  destruct (IH w' Hnodup) as (new2 & Htr2 & Hframe2 & Hdisc2).
  exists (new1 ++ pause ++ new2). split; [|split].
  - rewrite Htr2, Htr'. by rewrite <- !app_assoc.
  - intros id Hid. apply not_elem_of_cons in Hid as [Hne Hid].
    destruct (Hframe2 id Hid) as [Hsame Hquiet]. split.
    + rewrite Hsame, Htabs'. by apply Hframe1.
    + rewrite !Forall_app. split; [|split; [apply Hpause|done]].
      by eapply concerns_other.
  - intros id Hid Hreg. apply elem_of_cons in Hid as [->|Hid].
    + destruct (Hframe2 (Tab.id t) Hfresh) as [Hsame Hquiet].
      change (new1 ++ pause ++ new2) with ([] ++ new1 ++ pause ++ new2).
      eapply flagDiscipline_frame; [by apply Hdisc1|done| |].
      * apply Forall_app. split; [apply Hpause|done].
      * by rewrite Hsame, Htabs'.
    + assert (id <> Tab.id t) as Hne by (intros ->; done).
      rewrite app_assoc.
      rewrite <- (app_nil_r new2).
      eapply flagDiscipline_frame; [apply Hdisc2; [done|]|  |done|done].
      * rewrite Htabs', Hframe1 by done. done.
      * apply Forall_app. split; [by eapply concerns_other|apply Hpause].
Qed.

(** *** The concurrent branch *)

Lemma runTasks_eq (tasks : list Task) (w : World) :
  runTasks tasks w =
  match pickTask tasks w with
  | None => (tasks, w)
  | Some i =>
      match tasks !! i with
      | None => (tasks, w)
      | Some t => runTasks (<[i := (stepTask t (tick w)).1]> tasks) (stepTask t (tick w)).2
      end
  end.
Proof.
  simp runTasks.
  destruct (Logic.inspect (pickTask tasks w)) as [a Ha].
  transitivity
    (match a with
     | None => (tasks, w)
     | Some i =>
         match tasks !! i with
         | None => (tasks, w)
         | Some t =>
             runTasks (<[i := (stepTask t (tick w)).1]> tasks) (stepTask t (tick w)).2
         end
     end); [|by rewrite Ha].
  destruct a as [i|]; simpl; [|done].
  by destruct (tasks !! i).
Qed.

Lemma nthPending_None (n : nat) (tasks : list Task) :
  nthPending n tasks = None -> (countPending tasks <= n)%nat.
Proof.
  unfold countPending. revert n. induction tasks as [|t rest IH]; intros n; simpl; [lia|].
  rewrite filter_cons. destruct (isSettled t) eqn:Ht.
  - rewrite decide_False by done. intros H. apply IH.
    by destruct (nthPending n rest).
  - rewrite decide_True by done. destruct n as [|n]; [discriminate|].
    intros H. simpl. apply le_n_S, IH. by destruct (nthPending n rest).
Qed.

Lemma countPending_0 (tasks : list Task) :
  countPending tasks = O -> Forall (fun t => isSettled t = true) tasks.
Proof.
  unfold countPending. induction tasks as [|t rest IH]; [done|].
  rewrite filter_cons. destruct (isSettled t) eqn:Ht.
  - rewrite decide_False by done. intros H. apply Forall_cons. auto.
  - rewrite decide_True by done. discriminate.
Qed.

Lemma pickTask_None (tasks : list Task) (w : World) :
  pickTask tasks w = None -> Forall (fun t => isSettled t = true) tasks.
Proof.
  unfold pickTask. intros H. apply nthPending_None in H.
  apply countPending_0. destruct (countPending tasks) as [|c] eqn:Hc; [done|].
  pose proof (Nat.mod_upper_bound (hd O (schedule w)) (S c)). lia.
Qed.

(** A property of the pool and the world that every turn of the event
    loop preserves holds when [Promise.allSettled] resolves, and by then
    every closure has settled. *)
Lemma runTasks_invariant (Inv : list Task -> World -> Prop) :
  (forall tasks w i t,
      Inv tasks w -> tasks !! i = Some t -> isSettled t = false ->
      Inv (<[i := (stepTask t (tick w)).1]> tasks) (stepTask t (tick w)).2) ->
  forall tasks w,
    Inv tasks w ->
    Inv (runTasks tasks w).1 (runTasks tasks w).2
    /\ Forall (fun t => isSettled t = true) (runTasks tasks w).1.
Proof.
  intros Hstep tasks.
  remember (poolWeight tasks) as n eqn:Hn.
  assert (poolWeight tasks <= n)%nat as Hle by lia. clear Hn.
  revert tasks Hle. induction n as [|n IH]; intros tasks Hle w Hinv;
    rewrite runTasks_eq;
    destruct (pickTask tasks w) as [i|] eqn:Hpick;
    try (split; [done|by eapply pickTask_None]).
  all: apply nthPending_Some in Hpick as (t & Ht & Hpending); rewrite Ht.
  all: pose proof (poolWeight_insert tasks i t _ Ht
                     (stepTask_weight t (tick w) Hpending)) as Hlt.
  - lia.
  - apply IH; [lia|]. by apply Hstep.
Qed.

Lemma elem_of_snoc_concerns (tabId : Z) (e : Event) (events extra : list Event) :
  concerns tabId e ->
  Forall (fun e' => ~ concerns tabId e') extra ->
  e ∈ events ++ extra <-> e ∈ events.
Proof.
  intros He Hextra. rewrite elem_of_app. split; [|auto].
  intros [H|H]; [done|]. rewrite Forall_forall in Hextra. by destruct (Hextra _ H).
Qed.

(** A turn given to the closure of another tab. *)
Lemma stepTask_frame (tabId : Z) (t : Task) (w : World) :
  taskTabId t <> tabId ->
  tabsInfo (stepTask t w).2 !! tabId = tabsInfo w !! tabId
  /\ exists extra,
       trace (stepTask t w).2 = trace w ++ extra
       /\ Forall (fun e => ~ concerns tabId e) extra.
Proof.
  intros Hne. destruct t as [id k lastError|id k wakeAt|id b]; simpl in *.
  - destruct (removeTab_callback lastError k); simpl.
    + split; [done|]. exists [RemoveReply id lastError]. split; [done|].
      apply Forall_cons. split; [by simpl|done].
    + split; [by apply ignoreTab_lookup_ne|].
      exists [RemoveReply id lastError]. split; [done|].
      apply Forall_cons. split; [by simpl|done].
    + split; [done|]. exists [RemoveReply id lastError; Wait retryDelay].
      split; [by rewrite <- app_assoc|].
      apply Forall_cons. split; [by simpl|].
      apply Forall_cons. split; [by intros []|done].
  - split; [done|]. exists [RemoveRequest id (tabsInfo w)]. split; [done|].
    apply Forall_cons. split; [by simpl|done].
  - split; [done|]. exists []. by rewrite app_nil_r.
Qed.

(** A turn given to the closure of [tabId] itself. *)
Lemma stepTask_own (tabId : Z) (events : list Event) (t : Task) (w : World) :
  taskTabId t = tabId ->
  requestsGuarded tabId events ->
  taskState tabId events w t ->
  exists extra,
    trace (stepTask t w).2 = trace w ++ extra
    /\ requestsGuarded tabId (events ++ extra)
    /\ taskState tabId (events ++ extra) (stepTask t w).2 (stepTask t w).1.
Proof.
  intros Hid Hguard Hstate.
  destruct t as [id k lastError|id k wakeAt|id b]; simpl in *; subst id.
  - destruct Hstate as [Hnone Hflag].
    assert (requestsGuarded tabId (events ++ [RemoveReply tabId lastError])) as Hguard1.
    { intros registry Hin. apply elem_of_app in Hin as [Hin|Hin]; [by apply Hguard|].
      apply list_elem_of_singleton in Hin. discriminate. }
    destruct (removeTab_callback lastError k) as [|m|] eqn:Hcb; simpl.
    + exists [RemoveReply tabId lastError]. split; [done|]. split; [done|].
      assert (lastError = None) as ->
        by (unfold removeTab_callback in Hcb; destruct lastError;
            [destruct (_ && _); discriminate|done]).
      split; [|done]. apply elem_of_app. right. by apply list_elem_of_singleton.
    + exists [RemoveReply tabId lastError]. split; [done|]. split; [done|].
      assert (lastError <> None) as Hsome
        by (intros ->; discriminate).
      split.
      * intros Hin. apply elem_of_app in Hin as [Hin|Hin]; [done|].
        apply list_elem_of_singleton in Hin. congruence.
      * apply ignoreTab_flag. by eapply ignoredFlag_is_Some.
    + exists [RemoveReply tabId lastError; Wait retryDelay].
      split; [by rewrite <- app_assoc|].
      apply removeTab_callback_retry in Hcb as (_ & m & -> & _).
      split; [|split; [|done]].
      * intros registry Hin. apply elem_of_app in Hin as [Hin|Hin]; [by apply Hguard|].
        apply list_elem_of_In in Hin. simpl in Hin.
        destruct Hin as [|[|[]]]; discriminate.
      * intros Hin. apply elem_of_app in Hin as [Hin|Hin]; [done|].
        apply list_elem_of_In in Hin. simpl in Hin.
        destruct Hin as [|[|[]]]; discriminate.
  - destruct Hstate as [Hnone Hflag].
    exists [RemoveRequest tabId (tabsInfo w)]. split; [done|]. split; [|split; [|done]].
    + intros registry Hin. apply elem_of_app in Hin as [Hin|Hin]; [by apply Hguard|].
      apply list_elem_of_singleton in Hin. by injection Hin as ->.
    + intros Hin. apply elem_of_app in Hin as [Hin|Hin]; [done|].
      apply list_elem_of_singleton in Hin. discriminate.
  - exists []. rewrite !app_nil_r. done.
Qed.

Lemma stepTask_taskTabId (t : Task) (w : World) : taskTabId (stepTask t w).1 = taskTabId t.
Proof.
  destruct t as [id k lastError|id k wakeAt|id b]; simpl; [|done|done].
  by destruct (removeTab_callback lastError k).
Qed.

Lemma taskState_frame (tabId : Z) (events extra : list Event) (w w' : World) (t : Task) :
  Forall (fun e => ~ concerns tabId e) extra ->
  tabsInfo w' !! tabId = tabsInfo w !! tabId ->
  taskState tabId events w t -> taskState tabId (events ++ extra) w' t.
Proof.
  intros Hextra Hsame.
  assert (RemoveReply tabId None ∈ events ++ extra <-> RemoveReply tabId None ∈ events)
    as Hin by (by apply (elem_of_snoc_concerns tabId)).
  unfold taskState, ignoredFlag. destruct t as [| |? []]; by rewrite Hsame, Hin.
Qed.

(** Every turn of the event loop preserves the invariant. *)
Lemma poolInv_step (tabId : Z) (base : list Event) (ids : list Z) :
  NoDup ids ->
  forall tasks w i t,
    poolInv tabId base ids tasks w -> tasks !! i = Some t -> isSettled t = false ->
    poolInv tabId base ids (<[i := (stepTask t (tick w)).1]> tasks) (stepTask t (tick w)).2.
Proof.
  intros Hnodup tasks w i t (Hids & events & Htr & Hguard & Hreq & Hstates) Hi _.
  assert (map taskTabId (<[i := (stepTask t (tick w)).1]> tasks) = ids) as Hids'.
  { rewrite <- Hids. change map with (@fmap list _) in *.
    rewrite list_fmap_insert, stepTask_taskTabId.
    apply list_insert_id. by rewrite list_lookup_fmap, Hi. }
  split; [done|].
  destruct (decide (taskTabId t = tabId)) as [Hown|Hother].
  - destruct (stepTask_own tabId events t (tick w) Hown Hguard)
      as (extra & Htr' & Hguard' & Hstate').
    { apply (Hstates t); [|done]. eapply list_elem_of_lookup_2, Hi. }
    exists (events ++ extra). split; [rewrite Htr'; simpl; by rewrite Htr, app_assoc|].
    split; [done|]. split.
    { destruct Hreq as [registry Hr]. exists registry. apply elem_of_app. auto. }
    intros u Hu Hu_id. apply list_elem_of_lookup in Hu as [j Hj].
    destruct (decide (i = j)) as [->|Hij].
    + rewrite list_lookup_insert_eq in Hj by (by eapply lookup_lt_Some).
      by injection Hj as <-.
    + rewrite list_lookup_insert_ne in Hj by done. exfalso. apply Hij.
      eapply (NoDup_lookup ids _ _ tabId Hnodup); rewrite <- Hids;
        change map with (@fmap list _); rewrite list_lookup_fmap.
      * by rewrite Hi; simpl; rewrite Hown.
      * by rewrite Hj; simpl; rewrite Hu_id.
  - destruct (stepTask_frame tabId t (tick w) Hother) as (Hsame & extra & Htr' & Hquiet).
    exists (events ++ extra). split; [rewrite Htr'; simpl; by rewrite Htr, app_assoc|].
    split.
    { intros registry Hin. apply Hguard.
      by eapply (elem_of_snoc_concerns tabId (RemoveRequest tabId registry)). }
    split.
    { destruct Hreq as [registry Hr]. exists registry. apply elem_of_app. auto. }
    intros u Hu Hu_id. apply list_elem_of_lookup in Hu as [j Hj].
    destruct (decide (i = j)) as [->|Hij].
    + rewrite list_lookup_insert_eq in Hj by (by eapply lookup_lt_Some).
      injection Hj as <-. rewrite stepTask_taskTabId in Hu_id. done.
    + rewrite list_lookup_insert_ne in Hj by done.
      eapply taskState_frame; [done|exact Hsame|].
      apply Hstates; [|done]. eapply list_elem_of_lookup_2, Hj.
Qed.

Lemma ignoreAll_world (tabsToClose : list Tab.t) (w : World) :
  trace (ignoreAll tabsToClose w) = trace w
  /\ (forall id, ignoredFlag (tabsInfo w) id = Some true ->
        ignoredFlag (tabsInfo (ignoreAll tabsToClose w)) id = Some true)
  /\ (forall id, id ∈ map Tab.id tabsToClose -> is_Some (tabsInfo w !! id) ->
        ignoredFlag (tabsInfo (ignoreAll tabsToClose w)) id = Some true).
Proof.
  unfold ignoreAll. revert w.
  induction tabsToClose as [|t rest IH]; intros w; simpl.
  { split; [done|]. split; [done|]. intros id Hin. by apply elem_of_nil in Hin. }
  destruct (IH (ignoreTab (Tab.id t) true w)) as (Htr & Hkeep & Hset).
  split; [by rewrite Htr|]. split.
  - intros id Hflag. apply Hkeep. simpl.
    destruct (decide (Tab.id t = id)) as [<-|Hne].
    + apply ignoreTab_flag. by eapply ignoredFlag_is_Some.
    + unfold ignoredFlag. by rewrite ignoreTab_lookup_ne.
  - intros id Hin Hreg. apply elem_of_cons in Hin as [->|Hin].
    + apply Hkeep. simpl. by apply ignoreTab_flag.
    + apply Hset; [done|]. simpl. by apply ignoreTab_is_Some.
Qed.

Lemma issueAll_world (tabsToClose : list Tab.t) (w : World) :
  map taskTabId (issueAll tabsToClose w).1 = map Tab.id tabsToClose
  /\ Forall (fun t => isSettled t = false) (issueAll tabsToClose w).1
  /\ tabsInfo (issueAll tabsToClose w).2 = tabsInfo w
  /\ trace (issueAll tabsToClose w).2
     = trace w ++ map (fun tab => RemoveRequest (Tab.id tab) (tabsInfo w)) tabsToClose.
Proof.
  revert w. induction tabsToClose as [|t rest IH]; intros w; simpl.
  { by rewrite app_nil_r. }
  match goal with |- context [issueAll rest ?w1] =>
    destruct (IH w1) as (Hids & Hpending & Htabs & Htr);
    destruct (issueAll rest w1) as [tasks w2]
  end.
  simpl in *. split; [by rewrite Hids|]. split; [by apply Forall_cons|].
  split; [done|]. by rewrite Htr, <- app_assoc.
Qed.

Lemma stepTask_events (t : Task) (w : World) :
  exists extra,
    trace (stepTask t w).2 = trace w ++ extra
    /\ Forall (fun e => concerns (taskTabId t) e \/ e = Wait retryDelay) extra.
Proof.
  destruct t as [id k lastError|id k wakeAt|id b]; simpl.
  - destruct (removeTab_callback lastError k); simpl.
    + exists [RemoveReply id lastError]. split; [done|].
      apply Forall_cons. split; [by left|done].
    + exists [RemoveReply id lastError]. split; [done|].
      apply Forall_cons. split; [by left|done].
    + exists [RemoveReply id lastError; Wait retryDelay].
      split; [by rewrite <- app_assoc|].
      apply Forall_cons. split; [by left|].
      apply Forall_cons. split; [by right|done].
  - exists [RemoveRequest id (tabsInfo w)]. split; [done|].
    apply Forall_cons. split; [by left|done].
  - exists []. by rewrite app_nil_r.
Qed.

(** The trace of the event loop: replies, retries and waits of
    [retryDelay]; never the sequential branch's pause. *)
Lemma runTasks_trace (tasks : list Task) (w : World) :
  exists extra,
    trace (runTasks tasks w).2 = trace w ++ extra
    /\ Forall (fun e => e <> Wait 25) extra.
Proof.
  apply (runTasks_invariant
           (fun _ w' => exists extra, trace w' = trace w ++ extra
                                      /\ Forall (fun e => e <> Wait 25) extra)).
  - intros tasks' w' i t (extra & Htr & Hall) _ _.
    destruct (stepTask_events t (tick w')) as (extra' & Htr' & Hall').
    exists (extra ++ extra'). split; [rewrite Htr'; simpl; by rewrite Htr, app_assoc|].
    apply Forall_app. split; [done|].
    eapply Forall_impl; [exact Hall'|]. simpl.
    intros e [He| ->]; [|discriminate]. intros ->. by destruct He.
  - exists []. by rewrite app_nil_r.
Qed.

(** The concurrent branch: every loser's closure keeps the discipline. *)
Lemma closeConcurrently_flagDiscipline (tabsToClose : list Tab.t) (w : World) :
  NoDup (map Tab.id tabsToClose) ->
  exists new,
    trace (closeConcurrently tabsToClose w).2 = trace w ++ new
    /\ (forall id, id ∈ map Tab.id tabsToClose -> is_Some (tabsInfo w !! id) ->
          flagDiscipline id new (closeConcurrently tabsToClose w).2).
Proof.
  intros Hnodup. unfold closeConcurrently.
  destruct (ignoreAll_world tabsToClose w) as (Htr1 & _ & Hset).
  destruct (issueAll_world tabsToClose (ignoreAll tabsToClose w))
    as (Hids & Hpending & Htabs & Htr2).
  destruct (issueAll tabsToClose (ignoreAll tabsToClose w)) as [tasks w2]. simpl in *.
  destruct (runTasks_trace tasks w2) as (extra & Htr3 & _).
  set (requests := map (fun tab => RemoveRequest (Tab.id tab)
                                     (tabsInfo (ignoreAll tabsToClose w))) tabsToClose) in *.
  exists (requests ++ extra).
  split; [by rewrite Htr3, Htr2, Htr1, app_assoc|].
  intros id Hid Hreg.
  destruct (runTasks_invariant (poolInv id (trace w) (map Tab.id tabsToClose))
              (poolInv_step id (trace w) _ Hnodup) tasks w2)
    as ((Hids' & events & Htr & Hguard & Hreq & Hstates) & Hsettled).
  { split; [done|]. exists requests. split; [by rewrite Htr2, Htr1|].
    split; [|split].
    - intros registry Hin. subst requests. apply list_elem_of_fmap in Hin as (tab & [= _ ->] & _).
      by apply Hset.
    - apply list_elem_of_fmap in Hid as (tab & -> & Htab).
      eexists. subst requests. apply list_elem_of_fmap. eauto.
    - intros t Ht Ht_id. rewrite Forall_forall in Hpending.
      specialize (Hpending t Ht).
      destruct t as [? ? ?|? ? ?|? ?]; simpl in *; try discriminate.
      all: split; [|rewrite Htabs; by apply Hset].
      all: intros Hin; subst requests; apply list_elem_of_fmap in Hin as (tab & [=] & _). }
  assert (events = requests ++ extra) as <-.
  { apply (app_inv_head (trace w)). rewrite <- Htr, Htr3, Htr2, Htr1.
    by rewrite app_assoc. }
  rewrite <- Hids' in Hid. apply list_elem_of_fmap in Hid as (t & Ht_id & Ht).
  specialize (Hstates t Ht (eq_sym Ht_id)).
  rewrite Forall_forall in Hsettled. specialize (Hsettled t Ht).
  destruct t as [? ? ?|? ? ?|? [|]]; simpl in *; try discriminate.
  all: destruct Hstates as [Hreply Hflag]; split; [done|]; split; [done|]; split;
    [intros ?|intros ?]; done.
Qed.

Lemma closeDuplicateTab_eq (tabToCloseId : Z) (remainingTabInfo : KeepInfo) (w : World) :
  closeDuplicateTab tabToCloseId remainingTabInfo w =
  let r := removeTab tabToCloseId 0 (ignoreTab tabToCloseId true w) in
  (Fulfilled tt,
   if isFulfilled r.1
   then handleRemainingTabCall (Some (keep_windowId remainingTabInfo)) remainingTabInfo r.2
   else ignoreTab tabToCloseId false r.2).
Proof.
  unfold closeDuplicateTab, mbind, Async_bind, await, tryCatch, exec. simpl.
  by destruct (removeTab tabToCloseId 0 (ignoreTab tabToCloseId true w)) as [[[]|reason] w'].
Qed.

Lemma flagDiscipline_same_registry (tabId : Z) (events : list Event) (after after' : World) :
  tabsInfo after' = tabsInfo after ->
  flagDiscipline tabId events after -> flagDiscipline tabId events after'.
Proof. unfold flagDiscipline. by intros ->. Qed.

Lemma ignoreTab_records (tabId other : Z) (state : bool) (w : World) :
  is_Some (tabsInfo (ignoreTab tabId state w) !! other) <-> is_Some (tabsInfo w !! other).
Proof. apply ignoreTab_is_Some. Qed.

Lemma ignoreTab_unregistered (tabId : Z) (state : bool) (w : World) :
  tabsInfo w !! tabId = None -> tabsInfo (ignoreTab tabId state w) = tabsInfo w.
Proof.
  intros Hnone. unfold ignoreTab. cbn [withTabs tabsInfo].
  unfold TabsInfo.ignoreTab. by rewrite Hnone.
Qed.

Lemma stepTask_records (t : Task) (w : World) (other : Z) :
  is_Some (tabsInfo (stepTask t w).2 !! other) <-> is_Some (tabsInfo w !! other).
Proof.
  destruct t as [id k lastError|id k wakeAt|id b]; simpl; [|done|done].
  destruct (removeTab_callback lastError k); simpl; [done| |done].
  apply ignoreTab_is_Some.
Qed.

Lemma closeConcurrently_records (tabsToClose : list Tab.t) (w : World) (other : Z) :
  is_Some (tabsInfo (closeConcurrently tabsToClose w).2 !! other)
  <-> is_Some (tabsInfo w !! other).
Proof.
  unfold closeConcurrently.
  assert (is_Some (tabsInfo (ignoreAll tabsToClose w) !! other)
          <-> is_Some (tabsInfo w !! other)) as Hignore.
  { unfold ignoreAll. revert w. induction tabsToClose as [|t rest IH]; intros w; [done|].
    cbn [foldl]. rewrite IH. apply ignoreTab_records. }
  destruct (issueAll_world tabsToClose (ignoreAll tabsToClose w)) as (_ & _ & Htabs & _).
  destruct (issueAll tabsToClose (ignoreAll tabsToClose w)) as [tasks w2]. cbn [fst snd] in *.
  rewrite <- Hignore, <- Htabs.
  apply (runTasks_invariant
           (fun _ w' => is_Some (tabsInfo w' !! other) <-> is_Some (tabsInfo w2 !! other)));
    [|done].
  intros tasks' w' i t Hinv _ _. by rewrite stepTask_records.
Qed.

Lemma closeSequentially_records (tabsToClose : list Tab.t) (w : World) (other : Z) :
  is_Some (tabsInfo (closeSequentially tabsToClose w).2 !! other)
  <-> is_Some (tabsInfo w !! other).
Proof.
  revert w. induction tabsToClose as [|t rest IH]; intros w; [done|].
  rewrite closeSequentially_cons, IH. cbv zeta.
  destruct (removeTab_run (Tab.id t) maxRetries 0 (ignoreTab (Tab.id t) true w) ltac:(lia))
    as (Htabs & _).
  destruct (isFulfilled _).
  - change (tabsInfo (wait 25 (removeTab (Tab.id t) 0 (ignoreTab (Tab.id t) true w)).2))
      with (tabsInfo (removeTab (Tab.id t) 0 (ignoreTab (Tab.id t) true w)).2).
    rewrite Htabs. apply ignoreTab_records.
  - rewrite ignoreTab_records, Htabs. apply ignoreTab_records.
Qed.

(** C5, as stated, fails for a tab the registry has no record of.
    [ignoreTab] does nothing then: every removal request goes out with no
    flag set, after the removal has failed there is no flag to put back to
    false, and after it has succeeded there is none that is left set. *)
Lemma ignored_flag_unregistered_counterexample :
  let remainingTabInfo := mkKeepInfo false false 0 1 1 in
  let failed := (closeDuplicateTab 9 remainingTabInfo lockedForGood).2 in
  let closed := (closeDuplicateTab 9 remainingTabInfo idleWorld).2 in
  map eventLabel (trace failed)
  = [Req 9; Err 9; Pause 50; Req 9; Err 9; Pause 50; Req 9; Err 9]
  /\ Forall (fun e => forall registry,
               e = RemoveRequest 9 registry -> ignoredFlag registry 9 = None)
            (trace failed)
  /\ ignoredFlag (tabsInfo failed) 9 = None
  /\ map eventLabel (trace closed) = [Req 9; Ok 9]
  /\ ignoredFlag (tabsInfo closed) 9 = None
  /\ ~ flagDiscipline 9 (trace failed) failed
  /\ ~ flagDiscipline 9 (trace closed) closed.
Proof.
  intros remainingTabInfo failed closed.
  assert (ignoredFlag (tabsInfo failed) 9 = None) as Hfailed by (vm_compute; done).
  assert (ignoredFlag (tabsInfo closed) 9 = None) as Hclosed by (vm_compute; done).
  split; [vm_compute; done|]. split.
  { vm_compute. repeat constructor; intros registry [= <-]; done. }
  split; [done|]. split; [vm_compute; done|]. split; [done|]. split.
  - intros (_ & _ & _ & Hleft). rewrite Hfailed in Hleft.
    assert (RemoveReply 9 None ∉ trace failed) as Hnot.
    { vm_compute. intros Hin. apply list_elem_of_In in Hin. simpl in Hin.
      repeat (destruct Hin as [Hin|Hin]; [discriminate|]). done. }
    by specialize (Hleft Hnot).
  - intros (_ & _ & Hset & _). rewrite Hclosed in Hset.
    assert (RemoveReply 9 None ∈ trace closed) as Hin.
    { vm_compute. apply list_elem_of_In. simpl. auto. }
    by specialize (Hset Hin).
Qed.

(** C5 (amended): [closeDuplicateTab(tabToCloseId, ...)], for a tab that
    has a record, sends its removal requests only while the tab's ignored
    flag is set, ends with the flag set when the browser confirmed the
    removal and cleared when the removal failed, and never rejects; and
    within a batch of the startup reconciler, on either branch, the same
    holds for every loser that has a record.  For a tab without a record
    there is no flag: the requests go out all the same, they see the
    registry as it was, and the registry is as it was afterwards; a batch
    creates no record either. *)
Theorem ignored_flag_discipline :
  (forall (tabToCloseId : Z) (remainingTabInfo : KeepInfo) (w : World),
      is_Some (tabsInfo w !! tabToCloseId) ->
      (closeDuplicateTab tabToCloseId remainingTabInfo w).1 = Fulfilled tt
      /\ exists new,
           trace (closeDuplicateTab tabToCloseId remainingTabInfo w).2 = trace w ++ new
           /\ flagDiscipline tabToCloseId new
                (closeDuplicateTab tabToCloseId remainingTabInfo w).2)
  /\ (forall (tabsToClose : list Tab.t) (w : World),
        NoDup (map Tab.id tabsToClose) ->
        exists new,
          trace (closeTabsToClose tabsToClose w).2 = trace w ++ new
          /\ forall tabToClose,
               tabToClose ∈ tabsToClose ->
               is_Some (tabsInfo w !! Tab.id tabToClose) ->
               flagDiscipline (Tab.id tabToClose) new (closeTabsToClose tabsToClose w).2)
  /\ (forall (tabToCloseId : Z) (remainingTabInfo : KeepInfo) (w : World),
        tabsInfo w !! tabToCloseId = None ->
        (closeDuplicateTab tabToCloseId remainingTabInfo w).1 = Fulfilled tt
        /\ tabsInfo (closeDuplicateTab tabToCloseId remainingTabInfo w).2 = tabsInfo w
        /\ exists new,
             trace (closeDuplicateTab tabToCloseId remainingTabInfo w).2 = trace w ++ new
             /\ (exists registry, RemoveRequest tabToCloseId registry ∈ new)
             /\ forall registry,
                  RemoveRequest tabToCloseId registry ∈ new ->
                  registry = tabsInfo w /\ ignoredFlag registry tabToCloseId = None)
  /\ (forall (tabsToClose : list Tab.t) (w : World) (tabId : Z),
        tabsInfo w !! tabId = None ->
        tabsInfo (closeTabsToClose tabsToClose w).2 !! tabId = None).
Proof.
  split; [|split; [|split]].
  - intros tabToCloseId remainingTabInfo w Hreg. rewrite closeDuplicateTab_eq.
    cbv zeta. split; [done|].
    destruct (closure_flagDiscipline tabToCloseId w) as (new & Htr & _ & _ & Hdisc).
    cbv zeta in Htr, Hdisc. specialize (Hdisc Hreg). exists new.
    destruct (isFulfilled _); simpl in *; [|done].
    split; [done|]. by eapply flagDiscipline_same_registry; [|exact Hdisc].
  - intros tabsToClose w Hnodup. unfold closeTabsToClose.
    destruct (List.length tabsToClose <=? 4)%nat.
    + destruct (closeConcurrently_flagDiscipline tabsToClose w Hnodup) as (new & Htr & Hdisc).
      exists new. split; [done|]. intros tab Htab Hreg. simpl.
      apply Hdisc; [|done]. apply list_elem_of_fmap. eauto.
    + destruct (closeSequentially_flagDiscipline tabsToClose w Hnodup)
        as (new & Htr & _ & Hdisc).
      exists new. split; [done|]. intros tab Htab Hreg.
      apply Hdisc; [|done]. apply list_elem_of_fmap. eauto.
  - intros tabToCloseId remainingTabInfo w Hnone. rewrite closeDuplicateTab_eq. cbv zeta.
    split; [done|].
    pose proof (ignoreTab_unregistered tabToCloseId true w Hnone) as Hsame.
    destruct (removeTab_run tabToCloseId maxRetries 0 (ignoreTab tabToCloseId true w)
                ltac:(lia))
      as (Htabs & _ & _ & _ & new & Hnew & _ & Hbound & Hshape & _).
    set (r := removeTab tabToCloseId 0 (ignoreTab tabToCloseId true w)) in *.
    assert (tabsInfo r.2 = tabsInfo w) as Htabs' by (by rewrite Htabs).
    assert (tabsInfo r.2 !! tabToCloseId = None) as Hnone' by (by rewrite Htabs').
    split.
    { destruct (isFulfilled r.1); cbn [snd]; [done|].
      by rewrite (ignoreTab_unregistered _ _ _ Hnone'). }
    exists new. split.
    { destruct (isFulfilled r.1); exact Hnew. }
    split; [eapply attempts_request; [|exact Hshape]; lia|].
    intros registry Hin.
    assert (registry = tabsInfo w) as ->.
    { apply (proj1 (Forall_forall _ _) Hshape) in Hin as [Heq|[[? Heq]|Heq]];
        [|discriminate..]. injection Heq as ->. done. }
    split; [done|]. unfold ignoredFlag. by rewrite Hnone.
  - intros tabsToClose w tabId Hnone. apply eq_None_not_Some. intros Hsome.
    assert (is_Some (tabsInfo w !! tabId)) as [? ?]; [|congruence].
    unfold closeTabsToClose in Hsome. destruct (List.length tabsToClose <=? 4)%nat.
    + by apply closeConcurrently_records in Hsome.
    + by apply closeSequentially_records in Hsome.
Qed.

Lemma batchTabs_NoDup : NoDup (map Tab.id (batchTabs 4)).
Proof.
  repeat (apply NoDup_cons_2;
          [intros Hin; apply list_elem_of_In in Hin; simpl in Hin; lia|]).
  apply NoDup_nil_2.
Qed.

Lemma ignored_flag_discipline_witness :
  (exists new,
      trace (closeDuplicateTab 7 (mkKeepInfo false false 0 1 1) lockedTwice).2
        = trace lockedTwice ++ new
      /\ flagDiscipline 7 new (closeDuplicateTab 7 (mkKeepInfo false false 0 1 1) lockedTwice).2)
  /\ (exists new,
      trace (closeDuplicateTab 7 (mkKeepInfo false false 0 1 1) lockedForGood).2
        = trace lockedForGood ++ new
      /\ flagDiscipline 7 new
           (closeDuplicateTab 7 (mkKeepInfo false false 0 1 1) lockedForGood).2)
  /\ (exists new,
      trace (closeTabsToClose (batchTabs 4) batchWorld).2 = trace batchWorld ++ new
      /\ forall tabToClose,
           tabToClose ∈ batchTabs 4 ->
           is_Some (tabsInfo batchWorld !! Tab.id tabToClose) ->
           flagDiscipline (Tab.id tabToClose) new
             (closeTabsToClose (batchTabs 4) batchWorld).2)
  /\ ignoredFlag
       (tabsInfo (closeDuplicateTab 7 (mkKeepInfo false false 0 1 1) lockedTwice).2) 7
     = Some true
  /\ ignoredFlag
       (tabsInfo (closeDuplicateTab 7 (mkKeepInfo false false 0 1 1) lockedForGood).2) 7
     = Some false
  /\ tabsInfo (closeDuplicateTab 9 (mkKeepInfo false false 0 1 1) lockedForGood).2
     = tabsInfo lockedForGood.
Proof.
  pose proof (proj1 ignored_flag_discipline 7 (mkKeepInfo false false 0 1 1) lockedTwice
                (ex_intro _ (settledAt 1) eq_refl)) as [_ H1].
  pose proof (proj1 ignored_flag_discipline 7 (mkKeepInfo false false 0 1 1) lockedForGood
                (ex_intro _ (settledAt 1) eq_refl)) as [_ H2].
  pose proof (proj1 (proj2 ignored_flag_discipline) (batchTabs 4) batchWorld batchTabs_NoDup)
    as H3.
  pose proof (proj1 (proj2 (proj2 ignored_flag_discipline)) 9
                (mkKeepInfo false false 0 1 1) lockedForGood eq_refl) as (_ & H4 & _).
  exact (conj H1 (conj H2 (conj H3 (conj eq_refl (conj eq_refl H4))))).
Defined.

(** ** The startup batch policy *)

Lemma closeSequentially_segments (tabsToClose : list Tab.t) (w : World) :
  exists segments,
    trace (closeSequentially tabsToClose w).2 = trace w ++ List.concat segments
    /\ Forall2 (fun tab segment => sequentialSegment (Tab.id tab) segment)
               tabsToClose segments.
Proof.
  revert w. induction tabsToClose as [|t rest IH]; intros w.
  { exists []. simpl. by rewrite app_nil_r. }
  rewrite closeSequentially_cons. cbv zeta.
  destruct (removeTab_run (Tab.id t) maxRetries 0 (ignoreTab (Tab.id t) true w) ltac:(lia))
    as (_ & _ & _ & _ & chain & Htr & _ & Hbound & Hall & Hok).
  set (r := removeTab (Tab.id t) 0 (ignoreTab (Tab.id t) true w)) in *.
  set (w' := if isFulfilled r.1 then wait 25 r.2 else ignoreTab (Tab.id t) false r.2).
  destruct (IH w') as (segments & Htr' & Hsegs).
  assert (Forall (fun e => concerns (Tab.id t) e \/ e = Wait retryDelay) chain) as Hchain.
  { eapply Forall_impl; [exact Hall|]. simpl.
    intros e [-> | [[lastError ->] | ->]]; simpl; auto. }
  assert (exists registry, RemoveRequest (Tab.id t) registry ∈ chain) as Hreq
    by (eapply attempts_request; [|exact Hall]; lia).
  destruct (isFulfilled r.1) eqn:Hf.
  - exists ((chain ++ [Wait 25]) :: segments). split.
    + rewrite Htr'. subst w'. simpl. rewrite Htr. simpl. by rewrite <- !app_assoc.
    + apply Forall2_cons. split; [|done]. exists chain.
      split; [done|]. split; [done|]. left. split; [by apply Hok|done].
  - exists (chain :: segments). split.
    + rewrite Htr'. subst w'. simpl. rewrite Htr. simpl. by rewrite <- !app_assoc.
    + apply Forall2_cons. split; [|done]. exists chain.
      split; [done|]. split; [done|]. right. split; [|done].
      intros Hin. apply Hok in Hin. congruence.
Qed.

Lemma closeConcurrently_results (tabsToClose : list Tab.t) (w : World) :
  map taskTabId (closeConcurrently tabsToClose w).1 = map Tab.id tabsToClose
  /\ Forall (fun t => isSettled t = true) (closeConcurrently tabsToClose w).1.
Proof.
  unfold closeConcurrently.
  destruct (issueAll_world tabsToClose (ignoreAll tabsToClose w)) as (Hids & _).
  destruct (issueAll tabsToClose (ignoreAll tabsToClose w)) as [tasks w2]. simpl in *.
  apply (runTasks_invariant (fun tasks' _ => map taskTabId tasks' = map Tab.id tabsToClose));
    [|done].
  intros tasks' w' i t Hids' Hi _. rewrite <- Hids'.
  change map with (@fmap list _). rewrite list_fmap_insert, stepTask_taskTabId.
  apply list_insert_id. by rewrite list_lookup_fmap, Hi.
Qed.

Lemma closeTabsToClose_fulfils (tabsToClose : list Tab.t) (w : World) :
  (closeTabsToClose tabsToClose w).1 = Fulfilled tt.
Proof.
  unfold closeTabsToClose. destruct (List.length tabsToClose <=? 4)%nat; [done|].
  revert w. induction tabsToClose as [|t rest IH]; intros w; [done|].
  rewrite closeSequentially_cons. apply IH.
Qed.

Lemma repliedSoFar_app (events extra : list Event) (t : Task) :
  repliedSoFar events t -> repliedSoFar (events ++ extra) t.
Proof.
  destruct t as [| |id []]; simpl; try done.
  - intros H. apply elem_of_app. by left.
  - intros [m H]. exists m. apply elem_of_app. by left.
Qed.

(** One turn of a closure that has not settled: what it adds to the
    trace, and where it stands afterwards. *)
Lemma stepTask_reply (t : Task) (w : World) :
  isSettled t = false ->
  exists extra,
    trace (stepTask t w).2 = trace w ++ extra
    /\ Forall (fun e => concerns (taskTabId t) e \/ e = Wait retryDelay) extra
    /\ repliedSoFar extra (stepTask t w).1
    /\ (RemoveReply (taskTabId t) None ∈ extra ->
        (stepTask t w).1 = Settled (taskTabId t) true).
Proof.
  destruct t as [id k lastError|id k wakeAt|id b]; simpl; [| |discriminate]; intros _.
  - destruct (removeTab_callback lastError k) as [|m|] eqn:Hcb; simpl.
    + assert (lastError = None) as ->
        by (unfold removeTab_callback in Hcb; destruct lastError;
            [destruct (_ && _); discriminate|done]).
      exists [RemoveReply id None]. split; [done|].
      split; [apply Forall_cons; split; [by left|done]|].
      split; [by apply list_elem_of_singleton|done].
    + assert (exists m', lastError = Some m') as [m' ->]
        by (unfold removeTab_callback in Hcb; destruct lastError; [eauto|discriminate]).
      exists [RemoveReply id (Some m')]. split; [done|].
      split; [apply Forall_cons; split; [by left|done]|].
      split; [exists m'; by apply list_elem_of_singleton|].
      intros Hin. apply list_elem_of_singleton in Hin. discriminate.
    + apply removeTab_callback_retry in Hcb as (_ & m & -> & _).
      exists [RemoveReply id (Some m); Wait retryDelay].
      split; [by rewrite <- app_assoc|].
      split; [apply Forall_cons; split; [by left|];
              apply Forall_cons; split; [by right|done]|].
      split; [done|].
      intros Hin. apply list_elem_of_In in Hin. simpl in Hin.
      destruct Hin as [|[|[]]]; discriminate.
  - exists [RemoveRequest id (tabsInfo w)]. split; [done|].
    split; [apply Forall_cons; split; [by left|done]|].
    split; [done|].
    intros Hin. apply list_elem_of_singleton in Hin. discriminate.
Qed.

(** The concurrent branch: after the requests of the batch, the trace
    holds only replies, retries and pauses of [retryDelay] for the losers,
    every closure settles on a reply for its own tab, and for distinct
    losers a confirmed removal is always reported as a success. *)
Lemma closeConcurrently_outcomes (tabsToClose : list Tab.t) (w : World) :
  exists rest,
    trace (closeConcurrently tabsToClose w).2
    = trace w
      ++ map (fun tab => RemoveRequest (Tab.id tab) (tabsInfo (ignoreAll tabsToClose w)))
             tabsToClose
      ++ rest
    /\ Forall (fun e => (exists tab, tab ∈ tabsToClose /\ concerns (Tab.id tab) e)
                        \/ e = Wait retryDelay) rest
    /\ Forall (settledBy rest) (closeConcurrently tabsToClose w).1
    /\ (NoDup (map Tab.id tabsToClose) ->
        Forall (unconfirmed rest) (closeConcurrently tabsToClose w).1).
Proof.
  unfold closeConcurrently.
  destruct (ignoreAll_world tabsToClose w) as (Htr1 & _).
  destruct (issueAll_world tabsToClose (ignoreAll tabsToClose w))
    as (Hids & Hpending & _ & Htr2).
  destruct (issueAll tabsToClose (ignoreAll tabsToClose w)) as [tasks w2]. cbn [fst snd] in *.
  rewrite Htr1 in Htr2.
  set (ids := map Tab.id tabsToClose) in *.
  set (Inv := fun (tasks' : list Task) (w' : World) =>
                map taskTabId tasks' = ids
                /\ exists rest,
                     trace w' = trace w2 ++ rest
                     /\ Forall (fun e => (exists tab, tab ∈ tabsToClose
                                                      /\ concerns (Tab.id tab) e)
                                         \/ e = Wait retryDelay) rest
                     /\ Forall (repliedSoFar rest) tasks'
                     /\ (NoDup ids -> Forall (unconfirmed rest) tasks')).
  assert (Inv (runTasks tasks w2).1 (runTasks tasks w2).2
          /\ Forall (fun t => isSettled t = true) (runTasks tasks w2).1)
    as [(_ & rest & Htr & Hshape & Hreplied & Hunconfirmed) Hsettled].
  { apply (runTasks_invariant Inv).
    - intros tasks' w' i t (Hids' & rest & Htr & Hshape & Hreplied & Hunconfirmed) Hi Hrun.
      assert (map taskTabId (<[i := (stepTask t (tick w')).1]> tasks') = ids) as Hids''.
      { rewrite <- Hids'. change map with (@fmap list _).
        rewrite list_fmap_insert, stepTask_taskTabId.
        apply list_insert_id. by rewrite list_lookup_fmap, Hi. }
      split; [done|].
      destruct (stepTask_reply t (tick w') Hrun) as (extra & Htr' & Hextra & Hown & Hconfirmed).
      assert (exists tab, tab ∈ tabsToClose /\ Tab.id tab = taskTabId t) as (tab & Htab & Hid).
      { assert (taskTabId t ∈ ids) as Hin.
        { rewrite <- Hids'. apply list_elem_of_fmap. exists t. split; [done|].
          by eapply list_elem_of_lookup_2. }
        apply list_elem_of_fmap in Hin as (tab & ? & ?). by exists tab. }
      exists (rest ++ extra). split; [rewrite Htr'; simpl; by rewrite Htr, app_assoc|].
      split; [|split].
      + apply Forall_app. split; [done|].
        eapply Forall_impl; [exact Hextra|]. intros e [He| ->]; [left|by right].
        exists tab. by rewrite Hid.
      + apply Forall_forall. intros u Hu. apply list_elem_of_lookup in Hu as [j Hj].
        destruct (decide (i = j)) as [->|Hij].
        * rewrite list_lookup_insert_eq in Hj by (by eapply lookup_lt_Some).
          injection Hj as <-.
          destruct (stepTask t (tick w')).1 as [| |id []]; simpl in *; try done.
          -- apply elem_of_app. by right.
          -- destruct Hown as [m Hm]. exists m. apply elem_of_app. by right.
        * rewrite list_lookup_insert_ne in Hj by done.
          apply repliedSoFar_app.
          apply (proj1 (Forall_forall _ _) Hreplied). by eapply list_elem_of_lookup_2.
      + intros Hnodup. specialize (Hunconfirmed Hnodup).
        apply Forall_forall. intros u Hu. apply list_elem_of_lookup in Hu as [j Hj].
        destruct (decide (i = j)) as [->|Hij].
        * rewrite list_lookup_insert_eq in Hj by (by eapply lookup_lt_Some).
          injection Hj as <-.
          assert (RemoveReply (taskTabId t) None ∉ rest) as Hbefore.
          { pose proof (proj1 (Forall_forall _ _) Hunconfirmed t
                          (list_elem_of_lookup_2 _ _ _ Hi)) as Ht.
            destruct t as [| |? []]; simpl in *; try done. }
          pose proof (stepTask_taskTabId t (tick w')) as Hsame.
          destruct (stepTask t (tick w')).1 as [id k e|id k wake|id []] eqn:Hstep;
            simpl in Hsame |- *; try done; subst id.
          all: intros Hin; apply elem_of_app in Hin as [Hin|Hin]; [done|].
          all: by specialize (Hconfirmed Hin).
        * rewrite list_lookup_insert_ne in Hj by done.
          pose proof (proj1 (Forall_forall _ _) Hunconfirmed u
                        (list_elem_of_lookup_2 _ _ _ Hj)) as Hu.
          assert (taskTabId u <> taskTabId t) as Hother.
          { intros Heq. apply Hij.
            eapply (NoDup_lookup ids _ _ (taskTabId t) Hnodup); rewrite <- Hids';
              change map with (@fmap list _); rewrite list_lookup_fmap.
            - by rewrite Hi.
            - by rewrite Hj; simpl; rewrite Heq. }
          destruct u as [id k e|id k wake|id []]; simpl in *; try done.
          all: intros Hin; apply elem_of_app in Hin as [Hin|Hin]; [done|].
          all: apply (proj1 (Forall_forall _ _) Hextra) in Hin as [Hc|Hc];
            [simpl in Hc; congruence|discriminate].
    - split; [done|]. exists []. split; [by rewrite app_nil_r|]. split; [constructor|].
      split.
      + eapply Forall_impl; [exact Hpending|]. intros t Ht. by destruct t.
      + intros _. eapply Forall_impl; [exact Hpending|].
        intros t Ht. destruct t as [| |? []]; simpl in *; try done.
        all: intros Hin; by inversion Hin. }
  exists rest. split; [by rewrite Htr, Htr2, <- app_assoc|]. split; [done|]. split; [|done].
  apply Forall_forall. intros t Ht.
  pose proof (proj1 (Forall_forall _ _) Hreplied t Ht) as Hr.
  pose proof (proj1 (Forall_forall _ _) Hsettled t Ht) as Hs.
  by destruct t.
Qed.

(** C7, as stated, fails on the sequential branch: the pause of 25 ms is
    not between every two removals.  With five losers of which the second
    is refused, the request for the third follows the refusal at once. *)
Lemma startup_sequential_pause_counterexample :
  map eventLabel (trace (closeTabsToClose (batchTabs 5) batchWorld).2)
  = [Req 1; Ok 1; Pause 25; Req 2; Err 2; Req 3; Ok 3; Pause 25;
     Req 4; Ok 4; Pause 25; Req 5; Ok 5; Pause 25]
  /\ clock (closeTabsToClose (batchTabs 5) batchWorld).2 = clock batchWorld + 4 * 25.
Proof. vm_compute. done. Qed.

(** C7 (amended): a batch never rejects.  A batch of at most four losers
    takes the concurrent branch: all flags are set, then all removal
    requests go out back to back, before any reply is handled; what follows
    are the replies, retries and retry pauses of the losers, never the pause
    of 25 ms; every loser's closure settles, reporting success after a
    confirmed removal of its tab and failure after a refused one, whatever
    happened to the others, and for distinct losers a confirmed removal is
    always reported as a success.  A batch of five or more takes the
    sequential branch: the losers are closed one after the other, and the
    pause of 25 ms follows each removal that succeeded and none that
    failed.  So four losers are closed concurrently and five
    sequentially. *)
Theorem startup_batch_boundary (tabsToClose : list Tab.t) (w : World) :
  (closeTabsToClose tabsToClose w).1 = Fulfilled tt
  /\ ((List.length tabsToClose <= 4)%nat ->
      closeTabsToClose tabsToClose w = (Fulfilled tt, (closeConcurrently tabsToClose w).2)
      /\ map taskTabId (closeConcurrently tabsToClose w).1 = map Tab.id tabsToClose
      /\ exists rest,
           trace (closeTabsToClose tabsToClose w).2
           = trace w
             ++ map (fun tab => RemoveRequest (Tab.id tab) (tabsInfo (ignoreAll tabsToClose w)))
                    tabsToClose
             ++ rest
           /\ Forall (fun e => (exists tab, tab ∈ tabsToClose /\ concerns (Tab.id tab) e)
                               \/ e = Wait retryDelay) rest
           /\ Forall (fun e => e <> Wait 25) rest
           /\ Forall (settledBy rest) (closeConcurrently tabsToClose w).1
           /\ (NoDup (map Tab.id tabsToClose) ->
               Forall (fun t => RemoveReply (taskTabId t) None ∈ rest ->
                                t = Settled (taskTabId t) true)
                      (closeConcurrently tabsToClose w).1))
  /\ ((5 <= List.length tabsToClose)%nat ->
      closeTabsToClose tabsToClose w = closeSequentially tabsToClose w
      /\ exists segments,
           trace (closeTabsToClose tabsToClose w).2 = trace w ++ List.concat segments
           /\ Forall2 (fun tab segment => sequentialSegment (Tab.id tab) segment)
                      tabsToClose segments).
Proof.
  assert ((List.length tabsToClose <= 4)%nat ->
          closeTabsToClose tabsToClose w
          = (Fulfilled tt, (closeConcurrently tabsToClose w).2)) as Hsmall.
  { intros Hle. unfold closeTabsToClose.
    by rewrite (proj2 (Nat.leb_le _ _) Hle). }
  assert ((5 <= List.length tabsToClose)%nat ->
          closeTabsToClose tabsToClose w = closeSequentially tabsToClose w) as Hlarge.
  { intros Hle. unfold closeTabsToClose.
    by rewrite (proj2 (Nat.leb_gt _ _) Hle). }
  split; [apply closeTabsToClose_fulfils|]. split.
  - intros Hle. split; [by apply Hsmall|].
    destruct (closeConcurrently_results tabsToClose w) as [Hids _].
    split; [done|]. rewrite (Hsmall Hle). cbn [snd].
    destruct (closeConcurrently_outcomes tabsToClose w)
      as (rest & Htr & Hshape & Hsettled & Hunconfirmed).
    exists rest. split; [done|]. split; [done|]. split; [|split; [done|]].
    + eapply Forall_impl; [exact Hshape|].
      intros e [(tab & _ & He)| ->]; [|discriminate]. intros ->. done.
    + intros Hnodup. eapply Forall_impl; [exact (Hunconfirmed Hnodup)|].
      intros t Ht Hin. destruct t as [| |? []]; simpl in *; done.
  - intros Hle. split; [by apply Hlarge|]. rewrite (Hlarge Hle).
    apply closeSequentially_segments.
Qed.

(** Four losers: the four requests go out first, the second one fails and
    the others are not affected. *)
Example closeTabsToClose_four :
  map eventLabel (trace (closeTabsToClose (batchTabs 4) batchWorld).2)
  = [Req 1; Req 2; Req 3; Req 4; Ok 3; Ok 1; Err 2; Ok 4]
  /\ (closeConcurrently (batchTabs 4) batchWorld).1
     = [Settled 1 true; Settled 2 false; Settled 3 true; Settled 4 true]
  /\ map (fun id => ignoredFlag (tabsInfo (closeTabsToClose (batchTabs 4) batchWorld).2) id)
         [1; 2; 3; 4; 5]
     = [Some true; Some false; Some true; Some true; Some false].
Proof. vm_compute. done. Qed.

Lemma startup_batch_boundary_witness :
  (closeTabsToClose (batchTabs 4) batchWorld
   = (Fulfilled tt, (closeConcurrently (batchTabs 4) batchWorld).2)
   /\ exists rest,
        trace (closeTabsToClose (batchTabs 4) batchWorld).2
        = trace batchWorld
          ++ map (fun tab => RemoveRequest (Tab.id tab)
                               (tabsInfo (ignoreAll (batchTabs 4) batchWorld)))
                 (batchTabs 4)
          ++ rest
        /\ Forall (settledBy rest) (closeConcurrently (batchTabs 4) batchWorld).1
        /\ Forall (fun t => RemoveReply (taskTabId t) None ∈ rest ->
                            t = Settled (taskTabId t) true)
                  (closeConcurrently (batchTabs 4) batchWorld).1)
  /\ (closeTabsToClose (batchTabs 5) batchWorld = closeSequentially (batchTabs 5) batchWorld
      /\ exists segments,
           trace (closeTabsToClose (batchTabs 5) batchWorld).2
           = trace batchWorld ++ List.concat segments
           /\ Forall2 (fun tab segment => sequentialSegment (Tab.id tab) segment)
                      (batchTabs 5) segments).
Proof.
  destruct (proj1 (proj2 (startup_batch_boundary (batchTabs 4) batchWorld)) (le_n 4))
    as (H4 & _ & rest & Htrace4 & _ & _ & Hsettled & Hconfirmed).
  pose proof (proj2 (proj2 (startup_batch_boundary (batchTabs 5) batchWorld)) (le_n 5))
    as H5.
  refine (conj (conj H4 _) H5).
  exists rest. exact (conj Htrace4 (conj Hsettled (Hconfirmed batchTabs_NoDup))).
Defined.


(** * Further properties of the code *)


(** ** The registry *)

Lemma hasTab_true (tabs : gmap Z TabInfo) (tabId : Z) :
  TabsInfo.hasTab tabs tabId = true <-> is_Some (tabs !! tabId).
Proof. unfold TabsInfo.hasTab. apply bool_decide_eq_true. Qed.

Lemma hasTab_false (tabs : gmap Z TabInfo) (tabId : Z) :
  TabsInfo.hasTab tabs tabId = false <-> tabs !! tabId = None.
Proof.
  unfold TabsInfo.hasTab. rewrite bool_decide_eq_false.
  rewrite <- eq_None_not_Some. done.
Qed.

Lemma hasTab_ext (tabs tabs' : gmap Z TabInfo) (tabId : Z) :
  (is_Some (tabs' !! tabId) <-> is_Some (tabs !! tabId)) ->
  TabsInfo.hasTab tabs' tabId = TabsInfo.hasTab tabs tabId.
Proof. intros H. unfold TabsInfo.hasTab. by apply bool_decide_ext. Qed.

Lemma updateTab_lookup_ne (tabs : gmap Z TabInfo) (openedTab : Tab.t) (other : Z) (now : Z) :
  Tab.id openedTab <> other ->
  TabsInfo.updateTab tabs openedTab now !! other = tabs !! other.
Proof.
  intros Hne. unfold TabsInfo.updateTab.
  destruct (tabs !! Tab.id openedTab); [by rewrite lookup_insert_ne|done].
Qed.

Lemma updateTab_is_Some (tabs : gmap Z TabInfo) (openedTab : Tab.t) (other : Z) (now : Z) :
  is_Some (TabsInfo.updateTab tabs openedTab now !! other) <-> is_Some (tabs !! other).
Proof.
  destruct (decide (Tab.id openedTab = other)) as [<-|Hne];
    [|by rewrite updateTab_lookup_ne].
  unfold TabsInfo.updateTab.
  destruct (tabs !! Tab.id openedTab) as [tab|] eqn:Htab.
  - rewrite lookup_insert_eq. split; eauto.
  - by rewrite Htab.
Qed.

(** X1: [ignoreTab] and [updateTab] never create and never delete a
    record: the registry knows the same tabs afterwards, and on a tab it
    does not know both change nothing at all. *)
Theorem registry_writes_keep_records (tabs : gmap Z TabInfo) (tabId : Z) (state : bool)
    (openedTab : Tab.t) (now : Z) :
  (forall other,
      TabsInfo.hasTab (TabsInfo.ignoreTab tabs tabId state now) other
      = TabsInfo.hasTab tabs other)
  /\ (forall other,
      TabsInfo.hasTab (TabsInfo.updateTab tabs openedTab now) other
      = TabsInfo.hasTab tabs other)
  /\ (TabsInfo.hasTab tabs tabId = false ->
      TabsInfo.ignoreTab tabs tabId state now = tabs)
  /\ (TabsInfo.hasTab tabs (Tab.id openedTab) = false ->
      TabsInfo.updateTab tabs openedTab now = tabs).
Proof.
  split; [|split; [|split]].
  - intros other. apply hasTab_ext, ignoreTab_is_Some.
  - intros other. apply hasTab_ext, updateTab_is_Some.
  - intros H. apply hasTab_false in H. unfold TabsInfo.ignoreTab. by rewrite H.
  - intros H. apply hasTab_false in H. unfold TabsInfo.updateTab. by rewrite H.
Qed.

Lemma registry_writes_keep_records_witness :
  TabsInfo.ignoreTab oneSettled 2 true 9 = oneSettled
  /\ TabsInfo.updateTab oneSettled (sampleTab 2 1 false) 9 = oneSettled.
Proof.
  destruct (registry_writes_keep_records oneSettled 2 true (sampleTab 2 1 false) 9)
    as (_ & _ & H1 & H2).
  exact (conj (H1 eq_refl) (H2 eq_refl)).
Defined.

(** X2: marking a known tab ignored and unmarking it again leaves its
    url and its [lastComplete] as they were and the tab searchable; only
    [lastAccessed] moves.  No other record is touched. *)
Theorem ignoreTab_round_trip (tabs : gmap Z TabInfo) (tabId : Z) (tab : TabInfo)
    (marked unmarked : Z) :
  tabs !! tabId = Some tab ->
  let tabs' := TabsInfo.ignoreTab (TabsInfo.ignoreTab tabs tabId true marked)
                 tabId false unmarked in
  TabsInfo.isIgnoredTab (TabsInfo.ignoreTab tabs tabId true marked) tabId = true
  /\ tabs' = <[tabId := mkTabInfo (url tab) (lastComplete tab) false unmarked]> tabs
  /\ TabsInfo.isIgnoredTab tabs' tabId = false
  /\ TabsInfo.getLastComplete tabs' tabId = TabsInfo.getLastComplete tabs tabId
  /\ forall other, other <> tabId -> tabs' !! other = tabs !! other.
Proof.
  intros Htab tabs'.
  assert (tabs' = <[tabId := mkTabInfo (url tab) (lastComplete tab) false unmarked]> tabs)
    as Heq.
  { subst tabs'. unfold TabsInfo.ignoreTab. rewrite Htab, lookup_insert_eq. simpl.
    by rewrite insert_insert_eq. }
  split; [|split; [done|]].
  { unfold TabsInfo.isIgnoredTab, TabsInfo.ignoreTab. by rewrite Htab, lookup_insert_eq. }
  rewrite Heq. unfold TabsInfo.isIgnoredTab, TabsInfo.getLastComplete.
  rewrite lookup_insert_eq, Htab. simpl. split; [done|]. split; [done|].
  intros other Hne. by rewrite lookup_insert_ne.
Qed.

Lemma ignoreTab_round_trip_witness :
  TabsInfo.ignoreTab (TabsInfo.ignoreTab oneSettled 1 true 7) 1 false 9
  = <[1 := mkTabInfo (Some "https://example.com/a") (Some 5) false 9]> oneSettled.
Proof.
  exact (proj1 (proj2 (ignoreTab_round_trip oneSettled 1 (settledAt 5) 7 9
                         eq_refl))).
Defined.

(** X3: [updateTab] on a known tab records the tab's url and the clock as
    [lastComplete], so the same tab object no longer counts as changed; it
    keeps the ignored flag and touches no other record. *)
Theorem updateTab_settles (tabs : gmap Z TabInfo) (openedTab : Tab.t) (now : Z) :
  TabsInfo.hasTab tabs (Tab.id openedTab) = true ->
  let tabs' := TabsInfo.updateTab tabs openedTab now in
  TabsInfo.getLastComplete tabs' (Tab.id openedTab) = Some now
  /\ TabsInfo.hasUrlChanged tabs' openedTab = false
  /\ TabsInfo.isIgnoredTab tabs' (Tab.id openedTab)
     = TabsInfo.isIgnoredTab tabs (Tab.id openedTab)
  /\ forall other, other <> Tab.id openedTab -> tabs' !! other = tabs !! other.
Proof.
  intros Hknown tabs'. apply hasTab_true in Hknown as [tab Htab]. subst tabs'.
  unfold TabsInfo.getLastComplete, TabsInfo.hasUrlChanged, TabsInfo.isIgnoredTab.
  split; [|split; [|split]].
  - unfold TabsInfo.updateTab. by rewrite Htab, lookup_insert_eq.
  - unfold TabsInfo.updateTab. rewrite Htab, lookup_insert_eq. simpl.
    by rewrite String.eqb_refl.
  - unfold TabsInfo.updateTab. by rewrite Htab, lookup_insert_eq.
  - intros other Hne. by apply updateTab_lookup_ne.
Qed.

Lemma updateTab_settles_witness :
  TabsInfo.getLastComplete (TabsInfo.updateTab oneUnsettled (sampleTab 1 1 true) 42) 1
  = Some 42
  /\ TabsInfo.hasUrlChanged (TabsInfo.updateTab oneUnsettled (sampleTab 1 1 true) 42)
       (sampleTab 1 1 true) = false.
Proof.
  destruct (updateTab_settles oneUnsettled (sampleTab 1 1 true) 42
              eq_refl)
    as (H1 & H2 & _).
  exact (conj H1 H2).
Defined.

(** X4: [removeTab] makes the tab unknown, hence ignored and without
    [lastComplete], and touches no other record; registering a tab the
    registry did not know and removing it again gives the registry back. *)
Theorem removeTab_forgets (tabs : gmap Z TabInfo) (tabId : Z) (now : Z) :
  let tabs' := TabsInfo.removeTab tabs tabId in
  TabsInfo.hasTab tabs' tabId = false
  /\ TabsInfo.isIgnoredTab tabs' tabId = true
  /\ TabsInfo.getLastComplete tabs' tabId = None
  /\ (forall other, other <> tabId -> tabs' !! other = tabs !! other)
  /\ (TabsInfo.hasTab tabs tabId = false ->
      tabs' = tabs
      /\ TabsInfo.removeTab (TabsInfo.setNewTab tabs tabId now) tabId = tabs).
Proof.
  intros tabs'. subst tabs'. unfold TabsInfo.removeTab.
  split; [|split; [|split; [|split]]].
  - apply hasTab_false, lookup_delete_eq.
  - unfold TabsInfo.isIgnoredTab. by rewrite lookup_delete_eq.
  - unfold TabsInfo.getLastComplete. by rewrite lookup_delete_eq.
  - intros other Hne. by rewrite lookup_delete_ne.
  - intros H. apply hasTab_false in H. split; [by apply delete_id|].
    unfold TabsInfo.setNewTab. rewrite delete_insert_eq. by apply delete_id.
Qed.

Lemma removeTab_forgets_witness :
  TabsInfo.removeTab (TabsInfo.setNewTab oneSettled 2 9) 2 = oneSettled.
Proof.
  destruct (removeTab_forgets oneSettled 2 9) as (_ & _ & _ & _ & H).
  exact (proj2 (H eq_refl)).
Defined.

(** *** Garbage collection, in full *)

Lemma deleteAbsent_lookup (currentTabIds : gset Z) (storedTabIds : list Z)
    (tabs : gmap Z TabInfo) (tabId : Z) :
  TabsInfo.deleteAbsent currentTabIds tabs storedTabIds !! tabId
  = if bool_decide (tabId ∈ storedTabIds /\ tabId ∉ currentTabIds)
    then None else tabs !! tabId.
Proof.
  unfold TabsInfo.deleteAbsent.
  revert tabs. induction storedTabIds as [|k ks IH]; intros tabs; cbn [foldl].
  { rewrite bool_decide_eq_false_2; [done|]. intros [H _]. by apply elem_of_nil in H. }
  rewrite IH. clear IH.
  assert ((if bool_decide (k ∈ currentTabIds) then tabs else delete k tabs) !! tabId
          = if bool_decide (tabId = k /\ tabId ∉ currentTabIds) then None else tabs !! tabId)
    as ->.
  { case_bool_decide as Hk.
    - rewrite bool_decide_eq_false_2; [done|]. intros [-> H]. done.
    - destruct (decide (tabId = k)) as [->|Hne].
      + rewrite bool_decide_eq_true_2 by done. apply lookup_delete_eq.
      + rewrite bool_decide_eq_false_2 by (intros [? _]; done).
        by apply lookup_delete_ne. }
  repeat case_bool_decide; try done.
  - exfalso. match goal with H : ¬ (tabId ∈ k :: ks /\ _) |- _ => apply H end.
    split; [|tauto]. apply elem_of_cons. tauto.
  - exfalso. match goal with H : ¬ (tabId ∈ k :: ks /\ _) |- _ => apply H end.
    split; [|tauto]. apply elem_of_cons. tauto.
  - exfalso. match goal with H : tabId ∈ k :: ks /\ _ |- _ => destruct H as [Hin Hout] end.
    apply elem_of_cons in Hin. tauto.
Qed.

Lemma deleteIdle_nothing (currentTabIds : gset Z) (oneHourAgo : Z)
    (entries : list (Z * TabInfo)) (tabs : gmap Z TabInfo) :
  Forall (fun entry => entry.1 ∈ currentTabIds) entries ->
  TabsInfo.deleteIdle currentTabIds oneHourAgo tabs entries = tabs.
Proof.
  unfold TabsInfo.deleteIdle. revert tabs.
  induction entries as [|[k tab] es IH]; intros tabs Hall; simpl; [done|].
  apply Forall_cons in Hall as [Hk Hes]. simpl in Hk.
  rewrite (bool_decide_eq_true_2 _ Hk), andb_false_r. by apply IH.
Qed.

Lemma cleanup_lookup (tabs : gmap Z TabInfo) (currentTabs : list Tab.t) (now : Z) (tabId : Z) :
  TabsInfo.cleanup tabs (Some currentTabs) now !! tabId
  = if bool_decide (tabId ∈ map Tab.id currentTabs) then tabs !! tabId else None.
Proof.
  unfold TabsInfo.cleanup.
  set (currentTabIds := list_to_set (map Tab.id currentTabs) : gset Z).
  set (kept := TabsInfo.deleteAbsent currentTabIds tabs (map_to_list tabs).*1).
  assert (forall k, kept !! k
                    = if bool_decide (k ∈ map Tab.id currentTabs) then tabs !! k else None)
    as Hkept.
  { intros k. subst kept. rewrite deleteAbsent_lookup.
    destruct (decide (k ∈ map Tab.id currentTabs)) as [Hin|Hout].
    - rewrite (bool_decide_eq_true_2 _ Hin).
      rewrite bool_decide_eq_false_2; [done|].
      intros [_ H]. apply H. subst currentTabIds. by apply elem_of_list_to_set.
    - rewrite (bool_decide_eq_false_2 _ Hout).
      case_bool_decide as H; [done|].
      destruct (tabs !! k) as [tab|] eqn:Hk; [|done].
      exfalso. apply H. split.
      + apply list_elem_of_fmap. exists (k, tab). split; [done|].
        by apply elem_of_map_to_list.
      + subst currentTabIds. by rewrite elem_of_list_to_set. }
  rewrite deleteIdle_nothing; [apply Hkept|].
  apply Forall_forall. intros [k tab] Hentry. simpl.
  apply elem_of_map_to_list in Hentry. rewrite Hkept in Hentry.
  case_bool_decide as Hin; [|discriminate].
  subst currentTabIds. by apply elem_of_list_to_set.
Qed.

(** X5: after [cleanup()] with a snapshot, the registry holds exactly the
    records it held before whose ids are in the snapshot, unchanged; so
    running it again with the same snapshot changes nothing, and without a
    snapshot ([getTabs] failed) it changes nothing at all. *)
Theorem cleanup_restricts_to_snapshot (tabs : gmap Z TabInfo) (currentTabs : list Tab.t)
    (now later : Z) :
  (forall tabId,
      TabsInfo.cleanup tabs (Some currentTabs) now !! tabId
      = if bool_decide (tabId ∈ map Tab.id currentTabs) then tabs !! tabId else None)
  /\ TabsInfo.cleanup (TabsInfo.cleanup tabs (Some currentTabs) now) (Some currentTabs) later
     = TabsInfo.cleanup tabs (Some currentTabs) now
  /\ TabsInfo.cleanup tabs None now = tabs.
Proof.
  split; [apply cleanup_lookup|]. split; [|done].
  apply map_eq. intros k. rewrite !cleanup_lookup. by case_bool_decide.
Qed.

(** X6: the second loop of [cleanup()], the one for records idle for more
    than an hour, never deletes anything: it only looks at records whose id
    is absent from the snapshot, and the first loop has deleted those. *)
Theorem cleanup_idle_pass_is_idle (tabs : gmap Z TabInfo) (currentTabs : list Tab.t) (now : Z) :
  let currentTabIds : gset Z := list_to_set (map Tab.id currentTabs) in
  let afterFirstLoop := TabsInfo.deleteAbsent currentTabIds tabs (map_to_list tabs).*1 in
  TabsInfo.deleteIdle currentTabIds (now - 60 * 60 * 1000) afterFirstLoop
    (map_to_list afterFirstLoop) = afterFirstLoop
  /\ TabsInfo.cleanup tabs (Some currentTabs) now = afterFirstLoop.
Proof.
  intros currentTabIds afterFirstLoop.
  assert (TabsInfo.deleteIdle currentTabIds (now - 60 * 60 * 1000) afterFirstLoop
            (map_to_list afterFirstLoop) = afterFirstLoop) as Hidle.
  { apply deleteIdle_nothing, Forall_forall. intros [k tab] Hentry. simpl.
    apply elem_of_map_to_list in Hentry. subst afterFirstLoop.
    rewrite deleteAbsent_lookup in Hentry.
    case_bool_decide as H; [discriminate|].
    destruct (decide (k ∈ currentTabIds)) as [|Hout]; [done|].
    exfalso. apply H. split; [|done].
    apply list_elem_of_fmap. exists (k, tab). split; [done|].
    by apply elem_of_map_to_list. }
  split; [done|]. unfold TabsInfo.cleanup. fold currentTabIds afterFirstLoop. exact Hidle.
Qed.

(** ** The debouncer *)

Section DebounceFacts.
Context {Args : Type}.
Implicit Types d : Debounced Args.

Lemma tracked_empty : tracked (mkDebounced (Args := Args) ∅ ∅ 0).
Proof.
  split; [|split]; simpl.
  - intros ? ? H. by rewrite lookup_empty in H.
  - intros ? ? ? H. by rewrite lookup_empty in H.
  - intros ? [? H]. by rewrite lookup_empty in H.
Qed.

Lemma tracked_cancel d (windowId : option Z) : tracked d -> tracked (cancel windowId d).2.
Proof.
  intros (Hfwd & Hback & Hfresh).
  destruct windowId as [w|]; simpl; [|done].
  destruct (timers d !! w) as [t|] eqn:Hw; simpl; [|done].
  destruct (Hfwd _ _ Hw) as [a Ht].
  split; [|split]; simpl.
  - intros w' t' H. apply lookup_delete_Some in H as [Hne H].
    destruct (Hfwd _ _ H) as [a' Ht']. exists a'.
    rewrite lookup_delete_ne; [done|]. intros <-. congruence.
  - intros t' w' a' H. apply lookup_delete_Some in H as [Hne H].
    pose proof (Hback _ _ _ H) as Hw'.
    rewrite lookup_delete_ne; [done|]. intros <-. congruence.
  - intros t' [x H]. apply lookup_delete_Some in H as [_ H]. apply Hfresh. eauto.
Qed.

Lemma tracked_debounced d (windowId : option Z) (args : Args) :
  tracked d -> tracked (debounced windowId args d).
Proof.
  intros Htracked. destruct windowId as [w|]; simpl; [|done].
  assert (exists d0,
             (match timers d !! w with
              | Some timerId => clearTimeout timerId d
              | None => d
              end) = d0
             /\ timers d0 = timers d
             /\ nextTimerId d0 = nextTimerId d
             /\ (forall t x, timeouts d0 !! t = Some x -> timeouts d !! t = Some x)
             /\ (forall t w' a, timeouts d !! t = Some (w', a) -> w' <> w ->
                   timeouts d0 !! t = Some (w', a))
             /\ (forall t a, timeouts d0 !! t <> Some (w, a)))
    as (d0 & -> & Htimers & Hnext & Hsub & Hkeep & Hgone).
  { destruct Htracked as (Hfwd & Hback & _).
    destruct (timers d !! w) as [t0|] eqn:Hw; eexists; (split; [done|]); simpl.
    - repeat split; try done.
      + intros t x H. by apply lookup_delete_Some in H as [_ H].
      + intros t w' a H Hne. rewrite lookup_delete_ne; [done|].
        intros <-. destruct (Hfwd _ _ Hw) as [a0 H0]. congruence.
      + intros t a H. apply lookup_delete_Some in H as [Hne H].
        apply Hback in H. congruence.
    - repeat split; try done.
      intros t a H. apply Hback in H. congruence. }
  destruct Htracked as (Hfwd & Hback & Hfresh).
  unfold setTimeout, timers_set. simpl. rewrite Htimers, Hnext.
  split; [|split]; simpl.
  - intros w' t H. destruct (decide (w = w')) as [<-|Hne].
    + rewrite lookup_insert_eq in H. injection H as <-. exists args.
      by rewrite lookup_insert_eq.
    + rewrite lookup_insert_ne in H by done.
      destruct (Hfwd _ _ H) as [a Ht]. exists a.
      rewrite lookup_insert_ne; [by apply Hkeep|].
      intros <-. assert (nextTimerId d < nextTimerId d)%nat; [|lia].
      apply Hfresh. eauto.
  - intros t w' a H. destruct (decide (nextTimerId d = t)) as [<-|Hne].
    + rewrite lookup_insert_eq in H. injection H as <- <-. by rewrite lookup_insert_eq.
    + rewrite lookup_insert_ne in H by done.
      destruct (decide (w = w')) as [<-|Hw]; [by destruct (Hgone t a)|].
      rewrite lookup_insert_ne by done. apply (Hback t w' a). by apply Hsub.
  - intros t [x H]. destruct (decide (nextTimerId d = t)) as [<-|Hne]; [lia|].
    rewrite lookup_insert_ne in H by done.
    assert (t < nextTimerId d)%nat; [|lia]. apply Hfresh. eauto.
Qed.

Lemma fire_tracked d (timerId : nat) (windowId : Z) (args : Args) :
  tracked d -> timeouts d !! timerId = Some (windowId, args) ->
  fire timerId d = (Some (windowId, args), (cancel (Some windowId) d).2).
Proof.
  intros (_ & Hback & _) H. unfold fire, cancel. rewrite H.
  by rewrite (Hback _ _ _ H).
Qed.

Lemma tracked_fire d (timerId : nat) : tracked d -> tracked (fire timerId d).2.
Proof.
  intros Htracked. destruct (timeouts d !! timerId) as [[w a]|] eqn:H.
  - rewrite (fire_tracked _ _ _ _ Htracked H). by apply tracked_cancel.
  - unfold fire. by rewrite H.
Qed.

Lemma cancelAll_timeouts (m : gmap nat (Z * Args)) (ts : gmap Z nat) (timerId : nat) :
  ((exists windowId, ts !! windowId = Some timerId) ->
     map_fold (fun _ t acc => delete t acc) m ts !! timerId = None)
  /\ ((forall windowId, ts !! windowId <> Some timerId) ->
     map_fold (fun _ t acc => delete t acc) m ts !! timerId = m !! timerId).
Proof.
  apply (map_fold_weak_ind
           (fun acc (ts : gmap Z nat) =>
              ((exists windowId, ts !! windowId = Some timerId) -> acc !! timerId = None)
              /\ ((forall windowId, ts !! windowId <> Some timerId) ->
                  acc !! timerId = m !! timerId))).
  - split; [|done]. intros [w H]. by rewrite lookup_empty in H.
  - intros w t ts' acc Hfresh [IHyes IHno].
    destruct (decide (t = timerId)) as [->|Hne].
    + split; [intros _; apply lookup_delete_eq|].
      intros H. destruct (H w). by rewrite lookup_insert_eq.
    + rewrite lookup_delete_ne by done. split.
      * intros [w' H]. apply IHyes. exists w'.
        apply lookup_insert_Some in H as [[_ ?]|[_ ?]]; [congruence|done].
      * intros H. apply IHno. intros w' Hw'. apply (H w').
        rewrite lookup_insert_ne; [done|]. intros <-. congruence.
Qed.

Lemma cancelAll_tracked d :
  tracked d -> cancelAll d = mkDebounced ∅ ∅ (nextTimerId d).
Proof.
  intros (_ & Hback & _). unfold cancelAll. f_equal.
  apply map_eq. intros t. rewrite lookup_empty.
  destruct (cancelAll_timeouts (timeouts d) (timers d) t) as [Hyes Hno].
  destruct (timeouts d !! t) as [[w a]|] eqn:Ht.
  - apply Hyes. exists w. by eapply Hback.
  - destruct (map_fold _ _ _ !! t) as [x|] eqn:Hx; [|done].
    exfalso.
    assert (forall w, timers d !! w <> Some t) as Hnone.
    { intros w Hw. specialize (Hyes (ex_intro _ w Hw)). congruence. }
    specialize (Hno Hnone). congruence.
Qed.

Lemma cleanupStale_fold (currentWindowIds : gset Z) (windowIds : list Z) d :
  tracked d ->
  let d' := foldl (fun d windowId =>
                     if bool_decide (windowId ∈ currentWindowIds) then d
                     else snd (cancel (Some windowId) d)) d windowIds in
  tracked d'
  /\ nextTimerId d' = nextTimerId d
  /\ (forall windowId,
        timers d' !! windowId
        = if bool_decide (windowId ∈ windowIds /\ windowId ∉ currentWindowIds)
          then None else timers d !! windowId)
  /\ (forall timerId x, timeouts d' !! timerId = Some x -> timeouts d !! timerId = Some x)
  /\ (forall timerId windowId args,
        timeouts d !! timerId = Some (windowId, args) ->
        ~ (windowId ∈ windowIds /\ windowId ∉ currentWindowIds) ->
        timeouts d' !! timerId = Some (windowId, args)).
Proof.
  revert d. induction windowIds as [|w ws IH]; intros d Htracked; cbn [foldl].
  { split; [done|]. split; [done|]. split; [|split; [done|]].
    - intros windowId. rewrite bool_decide_eq_false_2; [done|].
      intros [H _]. by apply elem_of_nil in H.
    - intros. done. }
  set (d1 := if bool_decide (w ∈ currentWindowIds) then d
             else snd (cancel (Some w) d)).
  assert (tracked d1) as Htracked1
    by (subst d1; case_bool_decide; [done|by apply (tracked_cancel d (Some w))]).
  destruct (IH d1 Htracked1) as (Htr & Hnext & Htimers & Hsub & Hkeep).
  cbv zeta in Htr, Hnext, Htimers, Hsub, Hkeep.
  assert (nextTimerId d1 = nextTimerId d) as Hnext1.
  { subst d1. case_bool_decide; [done|]. simpl. by destruct (timers d !! w). }
  assert (forall windowId,
             timers d1 !! windowId
             = if bool_decide (windowId = w /\ windowId ∉ currentWindowIds)
               then None else timers d !! windowId) as Htimers1.
  { intros windowId. subst d1. case_bool_decide as Hw.
    - rewrite bool_decide_eq_false_2; [done|]. intros [-> H]. done.
    - simpl. destruct (timers d !! w) as [t|] eqn:Ht; simpl.
      + destruct (decide (windowId = w)) as [->|Hne].
        * rewrite bool_decide_eq_true_2 by done. apply lookup_delete_eq.
        * rewrite bool_decide_eq_false_2 by (intros [? _]; done).
          by apply lookup_delete_ne.
      + case_bool_decide as H; [|done]. destruct H as [-> _]. done. }
  assert (forall timerId x, timeouts d1 !! timerId = Some x -> timeouts d !! timerId = Some x)
    as Hsub1.
  { intros t x. subst d1. case_bool_decide; [done|]. simpl.
    destruct (timers d !! w); simpl; [|done].
    intros Hlive. by apply lookup_delete_Some in Hlive as [_ Hlive]. }
  assert (forall timerId windowId args,
             timeouts d !! timerId = Some (windowId, args) ->
             ~ (windowId = w /\ windowId ∉ currentWindowIds) ->
             timeouts d1 !! timerId = Some (windowId, args)) as Hkeep1.
  { intros t windowId a Ht Hnot. subst d1. case_bool_decide as Hw; [done|]. simpl.
    destruct (timers d !! w) as [t0|] eqn:Ht0; simpl; [|done].
    rewrite lookup_delete_ne; [done|]. intros <-.
    destruct Htracked as (Hfwd & _). destruct (Hfwd _ _ Ht0) as [a0 H0].
    apply Hnot. split; [congruence|]. assert (windowId = w) as -> by congruence. done. }
  split; [done|]. split; [congruence|]. split; [|split].
  - intros windowId. rewrite Htimers, Htimers1.
    repeat case_bool_decide; try done.
    + exfalso. match goal with H : ¬ (windowId ∈ w :: ws /\ _) |- _ => apply H end.
      split; [|tauto]. apply elem_of_cons. tauto.
    + exfalso. match goal with H : ¬ (windowId ∈ w :: ws /\ _) |- _ => apply H end.
      split; [|tauto]. apply elem_of_cons. tauto.
    + exfalso. match goal with H : windowId ∈ w :: ws /\ _ |- _ => destruct H as [Hin Hout] end.
      apply elem_of_cons in Hin. tauto.
  - intros t x H. by apply Hsub1, Hsub.
  - intros t windowId a Ht Hnot. apply Hkeep.
    + apply Hkeep1; [done|]. intros [-> H]. apply Hnot. split; [by left|done].
    + intros [Hin Hout]. apply Hnot. split; [by right|done].
Qed.

End DebounceFacts.

Lemma debounced_fields {Args : Type} (d : Debounced Args) (windowId : Z) (args : Args) :
  timers (debounced (Some windowId) args d) = <[windowId := nextTimerId d]> (timers d)
  /\ timeouts (debounced (Some windowId) args d)
     = <[nextTimerId d := (windowId, args)]>
         (match timers d !! windowId with
          | Some timerId => delete timerId (timeouts d)
          | None => timeouts d
          end)
  /\ nextTimerId (debounced (Some windowId) args d) = S (nextTimerId d).
Proof. simpl. by destruct (timers d !! windowId). Qed.

Lemma cleanupStaleWindows_tracked {Args : Type} (currentWindowIds : gset Z)
    (d : Debounced Args) :
  tracked d ->
  tracked (cleanupStaleWindows currentWindowIds d)
  /\ (forall windowId,
        timers (cleanupStaleWindows currentWindowIds d) !! windowId
        = if bool_decide (windowId ∈ currentWindowIds) then timers d !! windowId else None)
  /\ (forall timerId windowId args,
        timeouts (cleanupStaleWindows currentWindowIds d) !! timerId = Some (windowId, args)
        <-> timeouts d !! timerId = Some (windowId, args) /\ windowId ∈ currentWindowIds).
Proof.
  intros Htracked. unfold cleanupStaleWindows.
  pose proof (cleanupStale_fold currentWindowIds (getPendingWindowIds d) d Htracked)
    as Hfold.
  cbv zeta in Hfold. destruct Hfold as (Htracked' & _ & Htimers & Hsub & Hkeep).
  set (d' := foldl _ d (getPendingWindowIds d)) in *.
  assert (forall windowId,
             timers d' !! windowId
             = if bool_decide (windowId ∈ currentWindowIds)
               then timers d !! windowId else None) as Htimers'.
  { intros w. rewrite Htimers.
    destruct (decide (w ∈ currentWindowIds)) as [Hcur|Hcur].
    - rewrite (bool_decide_eq_true_2 _ Hcur).
      rewrite bool_decide_eq_false_2; [done|]. intros [_ H]. done.
    - rewrite (bool_decide_eq_false_2 _ Hcur).
      destruct (timers d !! w) as [t|] eqn:Hw; [|by case_bool_decide].
      rewrite bool_decide_eq_true_2; [done|]. split; [|done].
      unfold getPendingWindowIds.
      apply list_elem_of_fmap. exists (w, t). split; [done|].
      by apply elem_of_map_to_list. }
  split; [done|]. split; [done|].
  intros t w a. split.
  - intros H. split; [by apply Hsub|].
    destruct Htracked' as (_ & Hback & _). apply Hback in H.
    rewrite Htimers' in H. by case_bool_decide.
  - intros [H Hcur]. apply Hkeep; [done|]. intros [_ Hout]. done.
Qed.

(** X7: the debouncer's bookkeeping stays consistent.  Starting from a
    state where [timers] and the live timeouts match one to one (the empty
    state is one), every operation ([debounced], [cancel], [cancelAll],
    [cleanupStaleWindows], a timer firing) leads to such a state again: no
    timer is left running without an entry, no entry is left without its
    timer. *)
Theorem debouncer_keeps_track {Args : Type} (d : Debounced Args) :
  tracked d ->
  (forall windowId args, tracked (debounced windowId args d))
  /\ (forall windowId, tracked (cancel windowId d).2)
  /\ tracked (cancelAll d)
  /\ (forall currentWindowIds, tracked (cleanupStaleWindows currentWindowIds d))
  /\ (forall timerId, tracked (fire timerId d).2).
Proof.
  intros Htracked. split; [|split; [|split; [|split]]].
  - intros w a. by apply tracked_debounced.
  - intros w. by apply tracked_cancel.
  - rewrite (cancelAll_tracked d Htracked).
    destruct Htracked as (_ & _ & Hfresh).
    split; [|split]; simpl.
    + intros ? ? H. by rewrite lookup_empty in H.
    + intros ? ? ? H. by rewrite lookup_empty in H.
    + intros ? [? H]. by rewrite lookup_empty in H.
  - intros cur. by apply cleanupStaleWindows_tracked.
  - intros t. by apply tracked_fire.
Qed.

Lemma debouncer_keeps_track_witness :
  tracked (debounced (Some 7) tt (mkDebounced ∅ ∅ 0))
  /\ tracked (cancel (Some 7) (debounced (Some 7) tt (mkDebounced ∅ ∅ 0))).2.
Proof.
  pose proof (proj1 (debouncer_keeps_track (mkDebounced ∅ ∅ 0) tracked_empty) (Some 7) tt)
    as H1.
  exact (conj H1 (proj1 (proj2 (debouncer_keeps_track _ H1)) (Some 7))).
Defined.

(** X8: requests for one window coalesce on the trailing edge.  After two
    [debounced] calls for the same window the first timer is dead (it fires
    nothing), the only live timeout of the window is the second one, and
    when it fires it hands over the second call's arguments and leaves
    nothing pending for the window.  Other windows keep their timers. *)
Theorem debounced_coalesces {Args : Type} (d : Debounced Args) (windowId : Z)
    (first second : Args) :
  tracked d ->
  let d1 := debounced (Some windowId) first d in
  let d2 := debounced (Some windowId) second d1 in
  let firstTimer := nextTimerId d in
  let secondTimer := S (nextTimerId d) in
  timers d1 !! windowId = Some firstTimer
  /\ timers d2 !! windowId = Some secondTimer
  /\ fire firstTimer d2 = (None, d2)
  /\ (fire secondTimer d2).1 = Some (windowId, second)
  /\ hasPending windowId (fire secondTimer d2).2 = false
  /\ (forall timerId args,
        timeouts d2 !! timerId = Some (windowId, args) ->
        timerId = secondTimer /\ args = second)
  /\ (forall other, other <> windowId -> timers d2 !! other = timers d !! other).
Proof.
  intros Htracked d1 d2 firstTimer secondTimer.
  destruct (debounced_fields d windowId first) as (Ht1 & Ho1 & Hn1).
  destruct (debounced_fields d1 windowId second) as (Ht2 & Ho2 & Hn2).
  fold d1 in Ht1, Ho1, Hn1. fold d2 in Ht2, Ho2, Hn2.
  assert (timers d1 !! windowId = Some firstTimer) as Hw1
    by (rewrite Ht1; apply lookup_insert_eq).
  rewrite Hw1 in Ho2. rewrite Hn1 in Ht2, Ho2.
  assert (timers d2 !! windowId = Some secondTimer) as Hw2
    by (rewrite Ht2; apply lookup_insert_eq).
  assert (timeouts d2 !! secondTimer = Some (windowId, second)) as Hlive
    by (rewrite Ho2; apply lookup_insert_eq).
  assert (tracked d2) as Htracked2 by (by do 2 apply tracked_debounced).
  split; [done|]. split; [done|]. split; [|split; [|split; [|split]]].
  - unfold fire. rewrite Ho2, lookup_insert_ne by (subst firstTimer; lia).
    by rewrite lookup_delete_eq.
  - unfold fire. by rewrite Hlive.
  - unfold fire. rewrite Hlive. unfold hasPending. simpl.
    rewrite lookup_delete_eq. apply bool_decide_eq_false_2. by inversion 1.
  - intros t a H. destruct Htracked2 as (_ & Hback & _).
    pose proof (Hback _ _ _ H) as Ht. rewrite Hw2 in Ht. injection Ht as <-.
    split; [done|]. congruence.
  - intros other Hne. rewrite Ht2, Ht1. by rewrite !lookup_insert_ne.
Qed.

Lemma debounced_coalesces_witness :
  let d2 := debounced (Some 7) 2%nat (debounced (Some 7) 1%nat (mkDebounced ∅ ∅ 0)) in
  fire 0 d2 = (None, d2) /\ (fire 1 d2).1 = Some (7, 2%nat).
Proof.
  intros d2.
  destruct (debounced_coalesces (mkDebounced ∅ ∅ 0) 7 1%nat 2%nat tracked_empty)
    as (_ & _ & H1 & H2 & _).
  exact (conj H1 H2).
Defined.

(** X9: a timer fires at most once, and a cancelled timer never fires:
    firing a timer again after it fired, or after [cancel] removed it,
    delivers nothing and changes nothing. *)
Theorem timer_fires_at_most_once {Args : Type} (d : Debounced Args) (timerId : nat) :
  fire timerId (fire timerId d).2 = (None, (fire timerId d).2)
  /\ (forall windowId,
        timers d !! windowId = Some timerId ->
        fire timerId (cancel (Some windowId) d).2 = (None, (cancel (Some windowId) d).2)).
Proof.
  split.
  - destruct (timeouts d !! timerId) as [[w a]|] eqn:H.
    + assert (fire timerId d
              = (Some (w, a), timers_delete w (clearTimeout timerId d))) as ->
        by (unfold fire; by rewrite H).
      unfold fire. simpl. by rewrite lookup_delete_eq.
    + assert (fire timerId d = (None, d)) as -> by (unfold fire; by rewrite H).
      unfold fire. simpl. by rewrite H.
  - intros w Hw. unfold cancel. rewrite Hw. unfold fire. simpl.
    by rewrite lookup_delete_eq.
Qed.

(** X10: [cancelAll] leaves nothing pending: no window has an entry, a
    further [cancel] returns [false], and when the bookkeeping was
    consistent no timeout is left alive, so nothing scheduled before can
    still fire. *)
Theorem cancelAll_clears {Args : Type} (d : Debounced Args) :
  (forall windowId, hasPending windowId (cancelAll d) = false)
  /\ (forall windowId, cancel windowId (cancelAll d) = (false, cancelAll d))
  /\ (tracked d ->
      cancelAll d = mkDebounced ∅ ∅ (nextTimerId d)
      /\ forall timerId, fire timerId (cancelAll d) = (None, cancelAll d)).
Proof.
  split; [|split].
  - intros w. unfold hasPending. simpl. rewrite lookup_empty.
    apply bool_decide_eq_false_2. by inversion 1.
  - intros [w|]; [|done]. unfold cancel. simpl. by rewrite lookup_empty.
  - intros Htracked. rewrite (cancelAll_tracked d Htracked). split; [done|].
    intros t. unfold fire. simpl. by rewrite lookup_empty.
Qed.

Lemma cancelAll_clears_witness :
  cancelAll (debounced (Some 8) tt (debounced (Some 7) tt (mkDebounced ∅ ∅ 0)))
  = mkDebounced ∅ ∅ 2.
Proof.
  exact (proj1 (proj2 (proj2 (cancelAll_clears
                                (debounced (Some 8) tt
                                   (debounced (Some 7) tt (mkDebounced ∅ ∅ 0)))))
                  (tracked_debounced _ (Some 8) tt
                     (tracked_debounced _ (Some 7) tt tracked_empty)))).
Defined.

(** X11: [cleanupStaleWindows] cancels exactly the pending refocus of
    windows that are not in the given set: a window stays pending when it
    was pending and is a current window, and the live timeouts afterwards
    are those of current windows. *)
Theorem cleanupStaleWindows_keeps_current {Args : Type} (currentWindowIds : gset Z)
    (d : Debounced Args) :
  tracked d ->
  let d' := cleanupStaleWindows currentWindowIds d in
  (forall windowId,
      hasPending windowId d'
      = hasPending windowId d && bool_decide (windowId ∈ currentWindowIds))
  /\ (forall timerId windowId args,
        timeouts d' !! timerId = Some (windowId, args)
        <-> timeouts d !! timerId = Some (windowId, args) /\ windowId ∈ currentWindowIds).
Proof.
  intros Htracked d'.
  destruct (cleanupStaleWindows_tracked currentWindowIds d Htracked) as (_ & Htimers & Hlive).
  split; [|done]. intros w. unfold hasPending. subst d'. rewrite Htimers.
  destruct (decide (w ∈ currentWindowIds)) as [Hcur|Hcur].
  - by rewrite (bool_decide_eq_true_2 _ Hcur), andb_true_r.
  - rewrite (bool_decide_eq_false_2 _ Hcur), andb_false_r.
    apply bool_decide_eq_false_2. by inversion 1.
Qed.

Lemma cleanupStaleWindows_keeps_current_witness :
  let d := debounced (Some 8) tt (debounced (Some 7) tt (mkDebounced ∅ ∅ 0)) in
  hasPending 7 (cleanupStaleWindows {[ 7 ]} d) = true
  /\ hasPending 8 (cleanupStaleWindows {[ 7 ]} d) = false.
Proof.
  intros d.
  pose proof (proj1 (cleanupStaleWindows_keeps_current {[ 7 ]} d
                       (tracked_debounced _ (Some 8) tt
                          (tracked_debounced _ (Some 7) tt tracked_empty)))) as H.
  exact (conj (H 7) (H 8)).
Defined.

(** ** The tie-break resolver, further *)

Lemma getLastUpdatedTabId_swap (tabs : gmap Z TabInfo) (a b : Tab.t) :
  settledApart tabs a b ->
  getLastUpdatedTabId tabs b a = getLastUpdatedTabId tabs a b.
Proof.
  unfold settledApart, getLastUpdatedTabId.
  destruct (TabsInfo.getLastComplete tabs (Tab.id a)) as [x|],
           (TabsInfo.getLastComplete tabs (Tab.id b)) as [y|]; try done.
  intros Hne. destruct (Z.ltb_spec x y), (Z.ltb_spec y x); try done; lia.
Qed.

Lemma keepsObserved_swap (p known fa aa fb ab : bool) :
  keepsObserved (negb p) known fb ab fa aa = negb (keepsObserved p known fa aa fb ab).
Proof. by destruct p, known, fa, aa, fb, ab. Qed.

(** X12: which of the two tabs triggered the search does not matter.  For
    two tabs with distinct ids that did not settle at the same instant
    (and not both unsettled), [getCloseInfo] closes the same tab and keeps
    the same tab whichever of them is passed as the observed one. *)
Theorem getCloseInfo_role_independent (tabs : gmap Z TabInfo) (a b : Tab.t)
    (focus : option Z) :
  Tab.id a <> Tab.id b ->
  settledApart tabs a b ->
  (getCloseInfo tabs (mkDetails a b focus)).1 = (getCloseInfo tabs (mkDetails b a focus)).1
  /\ tabId (getCloseInfo tabs (mkDetails a b focus)).2
     = tabId (getCloseInfo tabs (mkDetails b a focus)).2.
Proof.
  intros Hne Hapart.
  assert (tabId (getCloseInfo tabs (mkDetails a b focus)).2
          = tabId (getCloseInfo tabs (mkDetails b a focus)).2) as Hkeeper.
  { rewrite !getCloseInfo_decision_table. simpl.
    rewrite (getLastUpdatedTabId_swap tabs a b Hapart).
    assert ((getLastUpdatedTabId tabs a b =? Tab.id b)
            = negb (getLastUpdatedTabId tabs a b =? Tab.id a)) as ->.
    { destruct (getLastUpdatedTabId_cases tabs a b) as [-> | ->].
      - rewrite Z.eqb_refl. simpl. by apply Z.eqb_neq.
      - rewrite Z.eqb_refl. symmetry. apply negb_true_iff. apply Z.eqb_neq. congruence. }
    rewrite keepsObserved_swap. by destruct (keepsObserved _ _ _ _ _ _). }
  split; [|done].
  pose proof (getCloseInfo_unfold tabs (mkDetails a b focus)) as E1.
  pose proof (getCloseInfo_unfold tabs (mkDetails b a focus)) as E2.
  cbv zeta in E1, E2. cbn [observedTab openedTab] in E1, E2.
  rewrite <- Hkeeper in E2.
  pose proof (getCloseInfo_tabId_cases tabs (mkDetails a b focus)) as Hcases.
  cbn [observedTab openedTab] in Hcases.
  set (k := tabId (getCloseInfo tabs (mkDetails a b focus)).2) in *.
  rewrite E1, E2. cbn [fst].
  destruct Hcases as [-> | ->].
  - rewrite Z.eqb_refl. by rewrite (proj2 (Z.eqb_neq _ _) Hne).
  - rewrite Z.eqb_refl. rewrite (proj2 (Z.eqb_neq (Tab.id b) (Tab.id a))); [done|congruence].
Qed.


Lemma getCloseInfo_role_independent_witness :
  (getCloseInfo settledPair (mkDetails (sampleTab 1 3 false) (sampleTab 2 7 true) (Some 7))).1
  = (getCloseInfo settledPair (mkDetails (sampleTab 2 7 true) (sampleTab 1 3 false) (Some 7))).1.
Proof.
  exact (proj1 (getCloseInfo_role_independent settledPair
                  (sampleTab 1 3 false) (sampleTab 2 7 true) (Some 7)
                  ltac:(simpl; lia) ltac:(vm_compute; lia))).
Defined.

(** X13: the tab the user is looking at is not closed.  When the focused
    window is known, a candidate that is the active tab of the focused
    window is the keeper, whatever the settle times and whichever tab was
    observed, unless the other candidate is an active tab of the focused
    window too. *)
Theorem getCloseInfo_keeps_tab_in_view (tabs : gmap Z TabInfo) (details : Details)
    (focused : Z) :
  activeWindowId details = Some focused ->
  focused <> 0 ->
  let observed := observedTab details in
  let opened := openedTab details in
  let inView (tab : Tab.t) := (Tab.windowId tab =? focused) && Tab.active tab in
  (inView observed = true -> inView opened = false ->
     tabId (getCloseInfo tabs details).2 = Tab.id observed)
  /\ (inView opened = true -> inView observed = false ->
     tabId (getCloseInfo tabs details).2 = Tab.id opened).
Proof.
  intros Hfocus Hnz observed opened inView. subst inView.
  rewrite getCloseInfo_decision_table. fold observed opened. rewrite Hfocus. simpl.
  rewrite (proj2 (Z.eqb_neq focused 0) Hnz). simpl.
  destruct (getLastUpdatedTabId tabs observed opened =? Tab.id observed),
           (Tab.windowId observed =? focused), (Tab.active observed),
           (Tab.windowId opened =? focused), (Tab.active opened); simpl; split; done.
Qed.

Lemma getCloseInfo_keeps_tab_in_view_witness :
  tabId (getCloseInfo settledPair
           (mkDetails (sampleTab 1 7 false) (sampleTab 2 7 true) (Some 7))).2 = 2.
Proof.
  exact (proj2 (getCloseInfo_keeps_tab_in_view settledPair
                  (mkDetails (sampleTab 1 7 false) (sampleTab 2 7 true) (Some 7)) 7
                  eq_refl ltac:(lia)) eq_refl eq_refl).
Defined.

(** ** The URL utilities, further *)

Lemma lowerChar_idempotent (c : ascii) : lowerChar (lowerChar c) = lowerChar c.
Proof. destruct c as [[] [] [] [] [] [] [] []]; reflexivity. Qed.

Lemma lowerChar_hash (c : ascii) : Ascii.eqb (lowerChar c) "#" = Ascii.eqb c "#".
Proof. destruct c as [[] [] [] [] [] [] [] []]; reflexivity. Qed.

Lemma toLowerCase_idempotent (s : string) : toLowerCase (toLowerCase s) = toLowerCase s.
Proof. induction s as [|c s IH]; simpl; [done|]. by rewrite lowerChar_idempotent, IH. Qed.

Lemma hasHash_toLowerCase (s : string) : hasHash (toLowerCase s) = hasHash s.
Proof. induction s as [|c s IH]; simpl; [done|]. by rewrite lowerChar_hash, IH. Qed.

Lemma hasHash_beforeHash (s : string) : hasHash (beforeHash s) = false.
Proof.
  induction s as [|c s IH]; simpl; [done|].
  destruct (Ascii.eqb c "#") eqn:Hc; simpl; [done|]. by rewrite Hc.
Qed.

Lemma hasHash_dropChars (n : nat) (s : string) :
  hasHash s = false -> hasHash (dropChars n s) = false.
Proof.
  revert s. induction n as [|n IH]; intros s; [done|].
  destruct s as [|c s]; simpl; [done|].
  intros H. apply orb_false_iff in H as [_ H]. by apply IH.
Qed.

Lemma hasHash_replaceFirst (pat rep s : string) :
  hasHash rep = false -> hasHash s = false -> hasHash (replaceFirst pat rep s) = false.
Proof.
  intros Hrep. induction s as [|c s IH]; intros Hs.
  - cbn [replaceFirst]. destruct (String.prefix pat ""); [|reflexivity].
    rewrite hasHash_append, Hrep. simpl. by apply hasHash_dropChars.
  - cbn [replaceFirst]. destruct (String.prefix pat (String c s)).
    + rewrite hasHash_append, Hrep. simpl. by apply hasHash_dropChars.
    + simpl in *. apply orb_false_iff in Hs as [-> Hs]. simpl. by apply IH.
Qed.

Lemma hasHash_stripTrailingSlash (s : string) :
  hasHash s = false -> hasHash (stripTrailingSlash s) = false.
Proof.
  induction s as [|c s IH]; [done|]. cbn [stripTrailingSlash].
  destruct s as [|c' s'].
  - by destruct (Ascii.eqb c "/").
  - intros H. simpl in H. apply orb_false_iff in H as [Hc H].
    change (hasHash (String c (stripTrailingSlash (String c' s'))) = false).
    simpl. rewrite Hc. simpl. by apply IH.
Qed.

Lemma toLowerCase_stripTrailingSlash (s : string) :
  toLowerCase (stripTrailingSlash s) = stripTrailingSlash (toLowerCase s).
Proof.
  induction s as [|c s IH]; [done|]. cbn [stripTrailingSlash toLowerCase].
  destruct s as [|c' s'].
  - simpl. rewrite lowerChar_slash. by destruct (Ascii.eqb c "/").
  - change (toLowerCase (String c' s')) with (String (lowerChar c') (toLowerCase s')).
    change (toLowerCase (String c (stripTrailingSlash (String c' s'))))
      with (String (lowerChar c) (toLowerCase (stripTrailingSlash (String c' s')))).
    by rewrite IH.
Qed.

(** X14: the comparison key of a network URL carries no fragment and no
    upper-case letter: it contains no [#], and lower-casing it again changes
    nothing. *)
Theorem getMatchingURL_key_shape (url : string) :
  isValidURL url = true ->
  hasHash (getMatchingURL url) = false
  /\ toLowerCase (getMatchingURL url) = getMatchingURL url.
Proof.
  intros Hvalid. unfold getMatchingURL. rewrite Hvalid. simpl. split.
  - apply hasHash_stripTrailingSlash. rewrite hasHash_toLowerCase.
    apply hasHash_replaceFirst; [done|]. apply hasHash_beforeHash.
  - by rewrite toLowerCase_stripTrailingSlash, toLowerCase_idempotent.
Qed.

Lemma getMatchingURL_key_shape_witness :
  hasHash (getMatchingURL "HTTPS://www.Example.com/A/#Top") = false
  /\ toLowerCase (getMatchingURL "HTTPS://www.Example.com/A/#Top")
     = getMatchingURL "HTTPS://www.Example.com/A/#Top".
Proof. exact (getMatchingURL_key_shape "HTTPS://www.Example.com/A/#Top" eq_refl). Defined.

Lemma isValidURL_first (c : ascii) (rest : string) :
  isValidURL (String c rest) = true ->
  c = "f"%char \/ c = "F"%char \/ c = "h"%char \/ c = "H"%char.
Proof.
  unfold isValidURL, startsWith. cbn [toLowerCase].
  destruct c as [[] [] [] [] [] [] [] []]; simpl; intros H; try discriminate; auto.
Qed.

(** X15: the URL classes do not overlap.  A network URL (one
    [isValidURL] accepts) is neither blank nor a browser, chrome or
    extension URL, and the blank URL is a browser URL; so the network case
    and the browser case of the code never both apply. *)
Theorem url_classes_disjoint (url : string) :
  (isValidURL url = true ->
     isBlankURL url = false /\ isBrowserURL url = false
     /\ isChromeURL url = false /\ isExtensionURL url = false)
  /\ (isBlankURL url = true -> isBrowserURL url = true /\ isValidURL url = false).
Proof.
  split.
  - destruct url as [|c rest]; [discriminate|].
    intros H. apply isValidURL_first in H as [-> | [-> | [-> | ->]]]; by repeat split.
  - intros H. apply String.eqb_eq in H as ->. done.
Qed.

Lemma url_classes_disjoint_witness :
  isBrowserURL "https://example.com/a" = false /\ isBrowserURL "about:blank" = true.
Proof.
  destruct (url_classes_disjoint "https://example.com/a") as [H1 _].
  destruct (url_classes_disjoint "about:blank") as [_ H2].
  exact (conj (proj1 (proj2 (H1 eq_refl))) (proj1 (H2 eq_refl))).
Defined.

(** ** The closure executor, further *)

Lemma removeTab_clock (tabId : Z) (n retryCount : nat) (w : World) :
  (maxRetries - retryCount <= n)%nat ->
  exists new,
    trace (removeTab tabId retryCount w).2 = trace w ++ new
    /\ (1 <= attempts new)%nat
    /\ clock (removeTab tabId retryCount w).2
       = clock w + retryDelay * (Z.of_nat (attempts new) - 1).
Proof.
  revert retryCount w. induction n as [|n IH]; intros retryCount w Hn.
  all: rewrite removeTab_eq'.
  all: destruct (chrome_tabs_remove_world tabId w)
         as (Hreply & _ & _ & Hclock & _ & _ & _ & Htr).
  all: destruct (chrome_tabs_remove tabId w) as [lastError w1]; simpl in *.
  all: destruct (removeTab_callback lastError retryCount) as [|m|] eqn:Hcb.
  all: simpl.
  1,2,4,5: exists (attempt tabId (tabsInfo w) lastError); split; [done|];
           change (attempts (attempt tabId (tabsInfo w) lastError)) with 1%nat;
           split; [lia|]; rewrite Hclock; unfold retryDelay; lia.
  - exfalso. unfold removeTab_callback in Hcb.
    destruct lastError as [m|]; [|discriminate].
    destruct (includes m transientMarker); [|discriminate].
    unfold maxRetries in *. destruct (Nat.ltb_spec retryCount 2); [lia|discriminate].
  - destruct (IH (S retryCount) (wait retryDelay w1)) as (new & Hnew & Hpos & Hclk).
    { assert (retryCount < maxRetries)%nat; [|lia].
      unfold removeTab_callback in Hcb.
      destruct lastError as [m|]; [|discriminate].
      destruct (includes m transientMarker); [|discriminate].
      destruct (Nat.ltb_spec retryCount maxRetries); [done|discriminate]. }
    exists (attempt tabId (tabsInfo w) lastError ++ [Wait retryDelay] ++ new).
    split; [|split].
    + rewrite Hnew. simpl. rewrite Htr. by rewrite <- !app_assoc.
    + rewrite !attempts_app. lia.
    + assert (attempts (attempt tabId (tabsInfo w) lastError ++ [Wait retryDelay] ++ new)
              = S (attempts new)) as -> by (by rewrite !attempts_app).
      rewrite Hclk.
      change (clock (wait retryDelay w1)) with (clock w1 + retryDelay).
      rewrite Hclock. unfold retryDelay. lia.
Qed.

(** X16: the time [removeTab] takes.  The only delays of a removal are
    the pauses between attempts: on return the clock has advanced by
    [retryDelay] (50 ms) for each attempt after the first, so by at most
    100 ms, and by nothing when the first answer settles the call; the
    registry and the debouncer are as before. *)
Theorem removeTab_elapsed (tabId : Z) (w : World) :
  let r := removeTab tabId 0 w in
  (exists new,
      trace r.2 = trace w ++ new
      /\ clock r.2 = clock w + retryDelay * (Z.of_nat (attempts new) - 1))
  /\ clock w <= clock r.2 <= clock w + 100
  /\ tabsInfo r.2 = tabsInfo w
  /\ handleRemainingTab r.2 = handleRemainingTab w.
Proof.
  intros r. subst r.
  destruct (removeTab_clock tabId maxRetries 0 w ltac:(lia)) as (new & Hnew & Hpos & Hclk).
  destruct (removeTab_run tabId maxRetries 0 w ltac:(lia))
    as (Htabs & Hdeb & _ & _ & new' & Hnew' & _ & Hbound & _).
  assert (new' = new) as -> by (rewrite Hnew in Hnew'; by apply app_inv_head in Hnew').
  split; [by exists new|]. split; [|done].
  rewrite Hclk. unfold retryDelay, maxRetries in *. lia.
Qed.

(** X17: a refocus is scheduled exactly for a confirmed removal.
    [closeDuplicateTab] never rejects and never focuses a tab itself.  When
    the browser confirmed the removal, the keeper's refocus is pending in
    the debouncer for the keeper's window, replacing what was pending for
    that window; when the removal failed, the debouncer is as before. *)
Theorem closeDuplicateTab_schedules_refocus (tabToCloseId : Z) (remainingTabInfo : KeepInfo)
    (w : World) :
  let r := closeDuplicateTab tabToCloseId remainingTabInfo w in
  let windowId := keep_windowId remainingTabInfo in
  r.1 = Fulfilled tt
  /\ exists new,
       trace r.2 = trace w ++ new
       /\ Forall (fun e => forall tabId windowId, e <> FocusRequest tabId windowId) new
       /\ (RemoveReply tabToCloseId None ∈ new ->
           handleRemainingTab r.2
           = debounced (Some windowId) remainingTabInfo (handleRemainingTab w)
           /\ hasPending windowId (handleRemainingTab r.2) = true)
       /\ (RemoveReply tabToCloseId None ∉ new ->
           handleRemainingTab r.2 = handleRemainingTab w).
Proof.
  intros r windowId. subst r. rewrite closeDuplicateTab_eq. cbv zeta.
  split; [done|].
  destruct (removeTab_run tabToCloseId maxRetries 0 (ignoreTab tabToCloseId true w) ltac:(lia))
    as (Htabs & Hdeb & _ & _ & new & Hnew & _ & _ & Hshape & Hok).
  assert (Forall (fun e => forall tabId windowId, e <> FocusRequest tabId windowId) new) as Hnofocus.
  { eapply Forall_impl; [exact Hshape|]. intros e [-> | [[? ->] | ->]]; done. }
  set (r := removeTab tabToCloseId 0 (ignoreTab tabToCloseId true w)) in *.
  assert (handleRemainingTab r.2 = handleRemainingTab w) as Hdeb' by exact Hdeb.
  exists new. destruct (isFulfilled r.1) eqn:Hf.
  - assert (handleRemainingTab
              (Fulfilled tt,
               handleRemainingTabCall (Some (keep_windowId remainingTabInfo))
                 remainingTabInfo r.2).2
            = debounced (Some windowId) remainingTabInfo (handleRemainingTab w)) as E.
    { rewrite <- Hdeb'. reflexivity. }
    split; [exact Hnew|]. split; [done|]. split.
    + intros _. rewrite E. split; [done|]. unfold hasPending.
      apply bool_decide_eq_true_2.
      rewrite (proj1 (debounced_fields (handleRemainingTab w) windowId remainingTabInfo)).
      rewrite lookup_insert_eq. eauto.
    + intros Hnot. exfalso. apply Hnot. by apply Hok.
  - split; [exact Hnew|]. split; [done|]. split.
    + intros Hin. apply Hok in Hin. congruence.
    + intros _. exact Hdeb.
Qed.

(** ** The refocus handler *)

Lemma handleRemainingTab_run (tab : option Tab.t) (focusError : option string)
    (windowId : Z) (details : KeepInfo) (w : World) :
  let r := _handleRemainingTab tab focusError windowId details w in
  let known := TabsInfo.hasTab (tabsInfo w) (tabId details) in
  let focused := bool_decide (is_Some tab) && bool_decide (focusError = None) in
  r.1 = Fulfilled tt
  /\ trace r.2
     = trace w ++ (if known && bool_decide (is_Some tab)
                   then [FocusRequest (tabId details) windowId] else [])
  /\ tabsInfo r.2
     = (if focused then tabsInfo w else TabsInfo.removeTab (tabsInfo w) (tabId details))
  /\ handleRemainingTab r.2 = handleRemainingTab w
  /\ clock r.2 = clock w.
Proof.
  intros r known focused. subst r known focused. unfold _handleRemainingTab.
  destruct (TabsInfo.hasTab (tabsInfo w) (tabId details)) eqn:Hknown; simpl.
  - destruct tab as [tab|], focusError as [m|]; simpl; repeat split; try done.
    all: by rewrite app_nil_r.
  - apply hasTab_false in Hknown.
    rewrite app_nil_r. repeat split; try done.
    unfold TabsInfo.removeTab. rewrite delete_id by done.
    by destruct (_ && _).
Qed.

(** X18: what the refocus handler does.  [_handleRemainingTab] never
    rejects.  It asks the browser to focus the keeper exactly when the
    keeper has a record and the browser still reports the tab; the keeper's
    record is there afterwards only if the tab was reported and the focus
    succeeded (a keeper without a record stays without one); no other
    record, and neither the debouncer nor the clock, is touched. *)
Theorem handleRemainingTab_focuses_or_forgets (tab : option Tab.t)
    (focusError : option string) (windowId : Z) (details : KeepInfo) (w : World) :
  let r := _handleRemainingTab tab focusError windowId details w in
  let known := TabsInfo.hasTab (tabsInfo w) (tabId details) in
  let focused := bool_decide (is_Some tab) && bool_decide (focusError = None) in
  r.1 = Fulfilled tt
  /\ trace r.2
     = trace w ++ (if known && bool_decide (is_Some tab)
                   then [FocusRequest (tabId details) windowId] else [])
  /\ tabsInfo r.2 !! tabId details = (if focused then tabsInfo w !! tabId details else None)
  /\ (forall other, other <> tabId details -> tabsInfo r.2 !! other = tabsInfo w !! other)
  /\ handleRemainingTab r.2 = handleRemainingTab w
  /\ clock r.2 = clock w.
Proof.
  intros r known focused.
  destruct (handleRemainingTab_run tab focusError windowId details w)
    as (Hok & Htrace & Htabs & Hdeb & Hclock).
  fold r in Hok, Htrace, Htabs, Hdeb, Hclock. fold known in Htrace. fold focused in Htabs.
  split; [done|]. split; [done|]. rewrite Htabs. split; [|split; [|done]].
  - destruct focused; [done|]. unfold TabsInfo.removeTab. by rewrite lookup_delete_eq.
  - intros other Hne. destruct focused; [done|].
    unfold TabsInfo.removeTab. by rewrite lookup_delete_ne.
Qed.

Lemma closeDuplicateTab_confirmed (loser : Z) (info : KeepInfo) (w : World) :
  isFulfilled (removeTab loser 0 (ignoreTab loser true w)).1 = true ->
  handleRemainingTab (closeDuplicateTab loser info w).2
  = debounced (Some (keep_windowId info)) info (handleRemainingTab w).
Proof.
  intros Hok. rewrite closeDuplicateTab_eq. cbv zeta. rewrite Hok.
  destruct (removeTab_run loser maxRetries 0 (ignoreTab loser true w) ltac:(lia))
    as (_ & Hdeb & _).
  cbn [snd]. unfold handleRemainingTabCall. cbn [withDebounced handleRemainingTab].
  by rewrite Hdeb.
Qed.

(** X19: from a confirmed removal to the refocus.  After
    [closeDuplicateTab] has seen its removal confirmed, the timer it set
    delivers the keeper to [_handleRemainingTab] with the keeper's window:
    when the timer expires nothing is pending for that window any more, the
    keeper is focused if it has a record and the browser reports it, and a
    second expiry of the same timer does nothing; if the window is removed
    first ([onWindowRemoved], or [onRemovedTab] of a tab of a closing
    window), the expiry does nothing at all. *)
Theorem refocus_after_confirmed_removal (loser : Z) (info : KeepInfo)
    (tab : option Tab.t) (focusError : option string) (w : World) :
  isFulfilled (removeTab loser 0 (ignoreTab loser true w)).1 = true ->
  let closed := (closeDuplicateTab loser info w).2 in
  let timerId := nextTimerId (handleRemainingTab w) in
  let windowId := keep_windowId info in
  let fired := handleRemainingTab_timeout tab focusError timerId closed in
  fired = (_handleRemainingTab tab focusError windowId info
             (withDebounced (fun d => (fire timerId d).2) closed)).2
  /\ hasPending windowId (handleRemainingTab fired) = false
  /\ (TabsInfo.hasTab (tabsInfo closed) (tabId info) = true -> is_Some tab ->
      trace fired = trace closed ++ [FocusRequest (tabId info) windowId])
  /\ handleRemainingTab_timeout tab focusError timerId fired = fired
  /\ (let gone := onWindowRemoved windowId closed in
      handleRemainingTab_timeout tab focusError timerId gone = gone)
  /\ (forall removedTabId,
        let gone := onRemovedTab removedTabId (mkRemoveInfo true windowId) closed in
        handleRemainingTab_timeout tab focusError timerId gone = gone).
Proof.
  intros Hok closed timerId windowId fired.
  pose proof (closeDuplicateTab_confirmed loser info w Hok) as Hdeb. fold closed in Hdeb.
  destruct (debounced_fields (handleRemainingTab w) windowId info) as (Htimers & Htimeouts & _).
  fold windowId in Hdeb. fold timerId in Htimers, Htimeouts.
  assert (fire timerId (handleRemainingTab closed)
          = (Some (windowId, info),
             timers_delete windowId (clearTimeout timerId (handleRemainingTab closed)))) as Hfire.
  { unfold fire. rewrite Hdeb, Htimeouts, lookup_insert_eq. by rewrite <- Hdeb. }
  assert (fired = (_handleRemainingTab tab focusError windowId info
                     (withDebounced (fun d => (fire timerId d).2) closed)).2) as Hfired.
  { unfold fired, handleRemainingTab_timeout, withDebounced. by rewrite Hfire. }
  destruct (handleRemainingTab_run tab focusError windowId info
              (withDebounced (fun d => (fire timerId d).2) closed))
    as (_ & Htrace & _ & Hd & _).
  rewrite <- Hfired in Htrace, Hd.
  cbn [withDebounced handleRemainingTab tabsInfo trace] in Htrace, Hd.
  rewrite Hfire in Hd. cbn [snd] in Hd.
  assert (timeouts (handleRemainingTab fired) !! timerId = None) as Hdead.
  { rewrite Hd. cbn [timers_delete clearTimeout timeouts]. by rewrite lookup_delete_eq. }
  split; [done|]. split; [|split; [|split; [|split]]].
  - unfold hasPending. apply bool_decide_eq_false_2. rewrite Hd.
    cbn [timers_delete timers]. rewrite lookup_delete_eq. by intros [? ?].
  - intros Hknown [t ->]. rewrite Htrace, Hknown. reflexivity.
  - unfold handleRemainingTab_timeout, fire. by rewrite Hdead.
  - cbv zeta. unfold handleRemainingTab_timeout, onWindowRemoved, fire.
    cbn [withDebounced handleRemainingTab]. unfold cancel.
    rewrite Hdeb, Htimers, lookup_insert_eq.
    cbn [snd timers_delete clearTimeout timeouts]. by rewrite lookup_delete_eq.
  - intros removedTabId. cbv zeta.
    unfold handleRemainingTab_timeout, onRemovedTab, fire.
    cbn [isWindowClosing remove_windowId withDebounced withTabs handleRemainingTab].
    unfold cancel. rewrite Hdeb, Htimers, lookup_insert_eq.
    cbn [snd timers_delete clearTimeout timeouts]. by rewrite lookup_delete_eq.
Qed.

Lemma refocus_after_confirmed_removal_witness :
  trace (handleRemainingTab_timeout (Some (sampleTab 1 3 true)) None 0
           (closeDuplicateTab 2 (mkKeepInfo false true 1 1 3) idleWorld).2)
  = trace (closeDuplicateTab 2 (mkKeepInfo false true 1 1 3) idleWorld).2
    ++ [FocusRequest 1 3].
Proof.
  exact (proj1 (proj2 (proj2
           (refocus_after_confirmed_removal 2 (mkKeepInfo false true 1 1 3)
              (Some (sampleTab 1 3 true)) None idleWorld eq_refl)))
           eq_refl (ex_intro _ _ eq_refl)).
Defined.

(** ** The duplicate search *)

Lemma getCloseInfo_pair (tabs : gmap Z TabInfo) (details : Details) :
  Tab.id (openedTab details) <> Tab.id (observedTab details) ->
  ((getCloseInfo tabs details).1 = Tab.id (openedTab details)
   /\ tabId (getCloseInfo tabs details).2 = Tab.id (observedTab details)
   /\ observedTabClosed (getCloseInfo tabs details).2 = false)
  \/ ((getCloseInfo tabs details).1 = Tab.id (observedTab details)
      /\ tabId (getCloseInfo tabs details).2 = Tab.id (openedTab details)
      /\ observedTabClosed (getCloseInfo tabs details).2 = true).
Proof.
  intros Hne.
  pose proof (getCloseInfo_unfold tabs details) as E. cbv zeta in E.
  pose proof (getCloseInfo_tabId_cases tabs details) as Hcases.
  set (k := tabId (getCloseInfo tabs details).2) in *.
  rewrite E. cbn [fst snd observedTabClosed].
  destruct Hcases as [-> | ->].
  - left. by rewrite Z.eqb_refl.
  - right. by rewrite (proj2 (Z.eqb_neq _ _) Hne).
Qed.

Lemma skipsOpenedTab_false (tabs : gmap Z TabInfo) (observedTab openedTab : Tab.t) :
  skipsOpenedTab tabs observedTab openedTab = false ->
  Tab.id openedTab <> Tab.id observedTab
  /\ TabsInfo.isIgnoredTab tabs (Tab.id openedTab) = false
  /\ isBlankURL (Tab.url openedTab) && negb (isTabComplete openedTab) = false.
Proof.
  unfold skipsOpenedTab. intros H.
  apply orb_false_iff in H as [H H3]. apply orb_false_iff in H as [H1 H2].
  by apply Z.eqb_neq in H1.
Qed.

Lemma searchLoop_outcome (browser : Browser) (observed : Tab.t) (key : string)
    (openedTabs : list Tab.t) (awaits : nat) (w : World) :
  searchOutcome observed key openedTabs
    (searchLoop browser observed key openedTabs awaits w).1.
Proof.
  revert awaits w. induction openedTabs as [|opened rest IH]; intros awaits w.
  { constructor. }
  cbn [searchLoop].
  destruct (skipsOpenedTab (tabsInfo w) observed opened) eqn:Hskip.
  { apply outcome_skip, IH. }
  apply skipsOpenedTab_false in Hskip as (Hne & _ & Hblank).
  destruct (String.eqb_spec (getMatchingURL (Tab.url opened)) key) as [Hkey|_].
  2: { apply outcome_skip, IH. }
  destruct (getActiveWindowId browser awaits w) as [focus w1].
  pose proof (getCloseInfo_pair (tabsInfo w1) (mkDetails observed opened focus) Hne)
    as Hpair. cbn [observedTab openedTab] in Hpair.
  destruct (getCloseInfo (tabsInfo w1) (mkDetails observed opened focus))
    as [loser info]. cbn [fst snd] in Hpair.
  destruct (closeDuplicateTab_start loser w1) as [lastError w2].
  destruct Hpair as [(Hl & Hk & Hc) | (Hl & Hk & Hc)]; rewrite Hc.
  - specialize (IH (S awaits) w2).
    destruct (searchLoop browser observed key rest (S awaits) w2) as [more w3].
    by apply outcome_closeOpened.
  - by apply outcome_closeObserved.
Qed.

Lemma searchForDuplicateTabsToClose_outcome (browser : Browser) (observedTab : Tab.t)
    (queryComplete : bool) (loadingUrl : option string) (w : World) :
  let url := observedTabUrl observedTab loadingUrl in
  searchOutcome observedTab (getMatchingURL url)
    (default [] (getTabs browser queryComplete url (Tab.windowId observedTab)))
    (searchForDuplicateTabsToClose browser observedTab queryComplete loadingUrl w).1.
Proof.
  intros url. unfold searchForDuplicateTabsToClose. fold url.
  destruct (getTabs browser queryComplete url (Tab.windowId observedTab))
    as [openedTabs|]; simpl; [|constructor].
  destruct (1 <? List.length openedTabs)%nat.
  - apply searchLoop_outcome.
  - clear. induction openedTabs; by constructor.
Qed.

Lemma searchOutcome_sound (observedTab : Tab.t) (key : string)
    (openedTabs : list Tab.t) (started : list Started) :
  searchOutcome observedTab key openedTabs started ->
  Forall (fun s =>
            exists openedTab,
              openedTab ∈ openedTabs
              /\ candidateFor observedTab key openedTab
              /\ ((tabToCloseId s = Tab.id openedTab
                   /\ tabId (remainingTabInfo s) = Tab.id observedTab)
                  \/ (tabToCloseId s = Tab.id observedTab
                      /\ tabId (remainingTabInfo s) = Tab.id openedTab))) started.
Proof.
  induction 1 as [|t rest started _ IH|t rest s started Hc Hl Hk Ho _ IH|t rest s Hc Hl Hk Ho].
  - constructor.
  - eapply Forall_impl; [exact IH|]. intros s (o & Hin & ?). exists o. split; [by right|done].
  - constructor.
    + exists t. split; [by left|]. split; [done|]. by left.
    + eapply Forall_impl; [exact IH|]. intros s' (o & Hin & ?). exists o. split; [by right|done].
  - constructor; [|constructor].
    exists t. split; [by left|]. split; [done|]. by right.
Qed.

(** X20: what a search may close.  Every closure that
    [searchForDuplicateTabsToClose] starts is for a pair made of the
    observed tab and a tab of the query result that is another tab, has the
    canonical key of the observed URL and is not a blank page still
    loading; the closure closes one tab of the pair and keeps the other.
    This holds whatever runs while the search is suspended. *)
Theorem search_closes_only_duplicates (browser : Browser) (observedTab : Tab.t)
    (queryComplete : bool) (loadingUrl : option string) (w : World) :
  let url := observedTabUrl observedTab loadingUrl in
  let openedTabs := default [] (getTabs browser queryComplete url (Tab.windowId observedTab)) in
  Forall (fun s =>
            exists openedTab,
              openedTab ∈ openedTabs
              /\ Tab.id openedTab <> Tab.id observedTab
              /\ getMatchingURL (Tab.url openedTab) = getMatchingURL url
              /\ isBlankURL (Tab.url openedTab) && negb (isTabComplete openedTab) = false
              /\ ((tabToCloseId s = Tab.id openedTab
                   /\ tabId (remainingTabInfo s) = Tab.id observedTab)
                  \/ (tabToCloseId s = Tab.id observedTab
                      /\ tabId (remainingTabInfo s) = Tab.id openedTab)))
         (searchForDuplicateTabsToClose browser observedTab queryComplete loadingUrl w).1.
Proof.
  intros url openedTabs.
  pose proof (searchOutcome_sound _ _ _ _
                (searchForDuplicateTabsToClose_outcome browser observedTab queryComplete
                   loadingUrl w)) as H.
  cbv zeta in H. fold url in H. fold openedTabs in H.
  eapply Forall_impl; [exact H|].
  intros s (o & Hin & (H1 & H2 & H3) & H4). by exists o.
Qed.

Lemma searchOutcome_observed_last (observedTab : Tab.t) (key : string)
    (openedTabs : list Tab.t) (started : list Started) :
  searchOutcome observedTab key openedTabs started ->
  Forall (fun s => tabToCloseId s <> Tab.id observedTab
                   /\ tabId (remainingTabInfo s) = Tab.id observedTab
                   /\ observedTabClosed (remainingTabInfo s) = false)
         (removelast started).
Proof.
  induction 1 as [|t rest started _ IH|t rest s started Hc Hl Hk Ho Hrest IH|t rest s Hc Hl Hk Ho].
  - constructor.
  - exact IH.
  - destruct started as [|s' started']; [constructor|].
    change (removelast (s :: s' :: started')) with (s :: removelast (s' :: started')).
    constructor; [|exact IH]. destruct Hc as (Hne & _). split; [congruence|done].
  - constructor.
Qed.

(** X21: the observed tab is closed at most once, and last.  Of the
    closures a search starts, all but the last close the other tab of the
    pair and keep the observed tab; so at most one closure closes the
    observed tab, and the search ends with it.  This holds whatever runs
    while the search is suspended. *)
Theorem search_closes_observed_last (browser : Browser) (observedTab : Tab.t)
    (queryComplete : bool) (loadingUrl : option string) (w : World) :
  let started :=
    (searchForDuplicateTabsToClose browser observedTab queryComplete loadingUrl w).1 in
  Forall (fun s => tabToCloseId s <> Tab.id observedTab
                   /\ tabId (remainingTabInfo s) = Tab.id observedTab
                   /\ observedTabClosed (remainingTabInfo s) = false)
         (removelast started)
  /\ (List.length (filter (fun s => tabToCloseId s = Tab.id observedTab) started) <= 1)%nat.
Proof.
  intros started.
  pose proof (searchOutcome_observed_last _ _ _ _
                (searchForDuplicateTabsToClose_outcome browser observedTab queryComplete
                   loadingUrl w)) as H.
  cbv zeta in H. fold started in H. split; [exact H|].
  clear -H. induction started as [|s rest IH]; [simpl; lia|].
  destruct rest as [|s' rest'].
  - rewrite filter_cons. destruct (decide _); simpl; lia.
  - change (removelast (s :: s' :: rest')) with (s :: removelast (s' :: rest')) in H.
    apply Forall_cons in H as [(Hne & _) H].
    rewrite filter_cons. destruct (decide _) as [Heq|_]; [done|]. by apply IH.
Qed.

Lemma searchOutcome_losers (observedTab : Tab.t) (key : string)
    (openedTabs : list Tab.t) (started : list Started) :
  searchOutcome observedTab key openedTabs started ->
  NoDup (map Tab.id openedTabs) ->
  NoDup (map tabToCloseId started)
  /\ (forall id, id ∈ map tabToCloseId started ->
        id = Tab.id observedTab \/ id ∈ map Tab.id openedTabs)
  /\ (forall id, id ∈ map (fun s => tabId (remainingTabInfo s)) started ->
        id = Tab.id observedTab \/ id ∈ map Tab.id openedTabs)
  /\ match last started with
     | Some s => tabId (remainingTabInfo s) ∉ map tabToCloseId started
     | None => True
     end.
Proof.
  intros Hout. induction Hout
    as [|t rest started _ IH|t rest s started Hc Hl Hk Ho Hrest IH|t rest s Hc Hl Hk Ho];
    intros Hnodup.
  - split; [constructor|]. split; [|split; [|done]]; intros id Hin; by inversion Hin.
  - simpl in Hnodup. apply NoDup_cons in Hnodup as [Hnotin Hnodup].
    destruct (IH Hnodup) as (H1 & H2 & H3 & H4).
    split; [done|]. split; [|split; [|done]].
    + intros id Hin. destruct (H2 id Hin) as [?|?]; [by left|right; simpl; by right].
    + intros id Hin. destruct (H3 id Hin) as [?|?]; [by left|right; simpl; by right].
  - simpl in Hnodup. apply NoDup_cons in Hnodup as [Hnotin Hnodup].
    destruct (IH Hnodup) as (H1 & H2 & H3 & H4).
    destruct Hc as (Hne & _).
    assert (Tab.id t ∉ map tabToCloseId started) as Hfresh.
    { intros Hin. destruct (H2 _ Hin) as [?|?]; [congruence|done]. }
    split; [|split; [|split]].
    + simpl. rewrite Hl. by apply NoDup_cons.
    + intros id Hin. simpl in Hin. apply elem_of_cons in Hin as [-> | Hin].
      * right. rewrite Hl. simpl. by left.
      * destruct (H2 id Hin) as [?|?]; [by left|right; simpl; by right].
    + intros id Hin. simpl in Hin. apply elem_of_cons in Hin as [-> | Hin].
      * by left.
      * destruct (H3 id Hin) as [?|?]; [by left|right; simpl; by right].
    + destruct started as [|s' started'].
      * simpl. rewrite Hk, Hl. intros Hin. apply list_elem_of_singleton in Hin. congruence.
      * change (last (s :: s' :: started')) with (last (s' :: started')).
        destruct (last (s' :: started')) as [z|] eqn:Hz; [|done].
        intros Hin. change (map tabToCloseId (s :: s' :: started'))
          with (tabToCloseId s :: map tabToCloseId (s' :: started')) in Hin.
        apply elem_of_cons in Hin as [Heq | Hin]; [|by apply H4].
        rewrite Hl in Heq.
        assert (tabId (remainingTabInfo z) ∈
                  map (fun s => tabId (remainingTabInfo s)) (s' :: started')) as Hz'.
        { apply list_elem_of_fmap. exists z. split; [done|]. by apply last_Some_elem_of. }
        destruct (H3 _ Hz') as [Hobs|Hin']; congruence.
  - destruct Hc as (Hne & _). split; [|split; [|split]].
    + simpl. apply NoDup_singleton.
    + intros id Hin. simpl in Hin. apply list_elem_of_singleton in Hin as ->. by left.
    + intros id Hin. simpl in Hin. apply list_elem_of_singleton in Hin as ->.
      right. rewrite Hk. simpl. by left.
    + simpl. rewrite Hk, Hl. intros Hin. apply list_elem_of_singleton in Hin. congruence.
Qed.

(** X22: a search spares a copy.  When the tabs of the query result have
    distinct ids, a search asks for each tab to be closed at most once, and
    the tab kept by the last closure it starts is closed by none of them:
    the search never asks for every copy of the page to be closed. *)
Theorem search_spares_a_copy (browser : Browser) (observedTab : Tab.t)
    (queryComplete : bool) (loadingUrl : option string) (w : World) :
  let url := observedTabUrl observedTab loadingUrl in
  let openedTabs := default [] (getTabs browser queryComplete url (Tab.windowId observedTab)) in
  let started :=
    (searchForDuplicateTabsToClose browser observedTab queryComplete loadingUrl w).1 in
  NoDup (map Tab.id openedTabs) ->
  NoDup (map tabToCloseId started)
  /\ match last started with
     | Some s => tabId (remainingTabInfo s) ∉ map tabToCloseId started
     | None => True
     end.
Proof.
  intros url openedTabs started Hnodup.
  pose proof (searchForDuplicateTabsToClose_outcome browser observedTab queryComplete
                loadingUrl w) as Hout.
  cbv zeta in Hout. fold url in Hout. fold openedTabs in Hout. fold started in Hout.
  by destruct (searchOutcome_losers _ _ _ _ Hout Hnodup) as (H1 & _ & _ & H4).
Qed.

Lemma search_spares_a_copy_witness :
  NoDup (map tabToCloseId
           (searchForDuplicateTabsToClose
              (quietBrowser None [sampleTab 1 1 false; sampleTab 2 1 true] None)
              (sampleTab 1 1 false) false None idleWorld).1).
Proof.
  refine (proj1 (search_spares_a_copy
                   (quietBrowser None [sampleTab 1 1 false; sampleTab 2 1 true] None)
                   (sampleTab 1 1 false) false None idleWorld _)).
  simpl. apply NoDup_cons. split; [|apply NoDup_singleton].
  intros H. apply list_elem_of_singleton in H. discriminate.
Defined.

Lemma isIgnoredTab_ignoreTab (tabs : gmap Z TabInfo) (loser id : Z) (now : Z) :
  TabsInfo.isIgnoredTab (TabsInfo.ignoreTab tabs loser true now) id
  = bool_decide (id = loser) || TabsInfo.isIgnoredTab tabs id.
Proof.
  unfold TabsInfo.isIgnoredTab, TabsInfo.ignoreTab.
  destruct (decide (id = loser)) as [->|Hne].
  - rewrite bool_decide_eq_true_2 by done. simpl.
    destruct (tabs !! loser) as [tab|] eqn:Hl.
    + by rewrite lookup_insert_eq.
    + by rewrite Hl.
  - rewrite bool_decide_eq_false_2 by done. simpl.
    destruct (tabs !! loser) as [tab|] eqn:Hl; [|done].
    by rewrite lookup_insert_ne.
Qed.

Lemma closeDuplicateTab_start_world (loser : Z) (w : World) :
  let r := closeDuplicateTab_start loser w in
  r.1 = removeReplies w (removeCalls w) loser
  /\ tabsInfo r.2 = TabsInfo.ignoreTab (tabsInfo w) loser true (clock w)
  /\ handleRemainingTab r.2 = handleRemainingTab w
  /\ clock r.2 = clock w
  /\ removeCalls r.2 = S (removeCalls w)
  /\ trace r.2 = trace w ++ [RemoveRequest loser (tabsInfo r.2)].
Proof. done. Qed.

Lemma searchLoop_undisturbed (browser : Browser) (observed : Tab.t) (key : string)
    (openedTabs : list Tab.t) (awaits : nat) (w : World) :
  undisturbed browser ->
  let r := searchLoop browser observed key openedTabs awaits w in
  handleRemainingTab r.2 = handleRemainingTab w
  /\ clock r.2 = clock w
  /\ removeCalls r.2 = (removeCalls w + List.length r.1)%nat
  /\ (forall id, id ∉ map tabToCloseId r.1 -> tabsInfo r.2 !! id = tabsInfo w !! id)
  /\ (forall id, is_Some (tabsInfo r.2 !! id) <-> is_Some (tabsInfo w !! id))
  /\ (forall id, TabsInfo.isIgnoredTab (tabsInfo w) id = true ->
        TabsInfo.isIgnoredTab (tabsInfo r.2) id = true)
  /\ (forall id, id ∈ map tabToCloseId r.1 ->
        TabsInfo.isIgnoredTab (tabsInfo r.2) id = true)
  /\ (forall id, TabsInfo.isIgnoredTab (tabsInfo w) id = true -> id <> Tab.id observed ->
        Forall (fun s => tabToCloseId s <> id /\ tabId (remainingTabInfo s) <> id) r.1)
  /\ exists new,
       trace r.2 = trace w ++ new
       /\ Forall2 (fun e s =>
                     exists registry,
                       e = RemoveRequest (tabToCloseId s) registry
                       /\ TabsInfo.isIgnoredTab registry (tabToCloseId s) = true)
                  new r.1.
Proof.
  intros Hquiet. revert awaits w.
  induction openedTabs as [|opened rest IH]; intros awaits w; cbv zeta.
  { cbn [searchLoop fst snd]. split; [done|]. split; [done|]. split; [simpl; lia|].
    split; [done|]. split; [done|]. split; [done|].
    split; [intros id Hin; by inversion Hin|]. split; [intros; constructor|].
    exists []. split; [by rewrite app_nil_r|constructor]. }
  cbn [searchLoop].
  destruct (skipsOpenedTab (tabsInfo w) observed opened) eqn:Hskip; [apply IH|].
  destruct (String.eqb_spec (getMatchingURL (Tab.url opened)) key) as [Hkey|_]; [|apply IH].
  apply skipsOpenedTab_false in Hskip as (Hne & Hvisible & _).
  pose proof (Hquiet awaits w) as Hw1.
  destruct (getActiveWindowId browser awaits w) as [focus w1]. cbn [snd] in Hw1. subst w1.
  pose proof (getCloseInfo_pair (tabsInfo w) (mkDetails observed opened focus) Hne) as Hpair.
  cbn [observedTab openedTab] in Hpair.
  destruct (getCloseInfo (tabsInfo w) (mkDetails observed opened focus)) as [loser info].
  cbn [fst snd] in Hpair.
  destruct (closeDuplicateTab_start_world loser w) as (_ & Htabs & Hdeb & Hclock & Hcalls & Htrace).
  destruct (closeDuplicateTab_start loser w) as [lastError w2]. cbn [fst snd] in *.
  assert (forall id, TabsInfo.isIgnoredTab (tabsInfo w2) id
                     = bool_decide (id = loser) || TabsInfo.isIgnoredTab (tabsInfo w) id)
    as Hflag by (intros id; rewrite Htabs; apply isIgnoredTab_ignoreTab).
  assert (forall id, id <> loser -> tabsInfo w2 !! id = tabsInfo w !! id) as Hframe.
  { intros id Hid. rewrite Htabs. by apply ignoreTab_lookup_ne. }
  assert (forall id, is_Some (tabsInfo w2 !! id) <-> is_Some (tabsInfo w !! id)) as Hdom.
  { intros id. rewrite Htabs. apply ignoreTab_is_Some. }
  assert (forall id, TabsInfo.isIgnoredTab (tabsInfo w) id = true -> id <> Tab.id observed ->
            loser <> id /\ tabId info <> id) as Hfresh.
  { intros id Hid Hobs.
    assert (Tab.id opened <> id) by (intros <-; congruence).
    destruct Hpair as [(-> & -> & _) | (-> & -> & _)]; split; congruence. }
  assert (TabsInfo.isIgnoredTab (tabsInfo w2) loser = true) as Hloser.
  { rewrite Hflag. by rewrite bool_decide_eq_true_2. }
  destruct (observedTabClosed info) eqn:Hclosed.
  - cbn [fst snd]. split; [done|]. split; [done|]. split; [simpl; lia|].
    split; [|split; [done|split; [|split; [|split]]]].
    + intros id Hid. apply Hframe. intros ->. apply Hid. simpl. by left.
    + intros id Hid. rewrite Hflag, Hid. apply orb_true_r.
    + intros id Hid. simpl in Hid. apply list_elem_of_singleton in Hid as ->. done.
    + intros id Hid Hobs. constructor; [|constructor]. by apply Hfresh.
    + exists [RemoveRequest loser (tabsInfo w2)]. split; [done|].
      constructor; [|constructor]. by exists (tabsInfo w2).
  - specialize (IH (S awaits) w2). cbv zeta in IH.
    destruct (searchLoop browser observed key rest (S awaits) w2) as [more w3].
    cbn [fst snd] in *.
    destruct IH as (Hd & Hc & Hn & Hf & Hs & Hi & Hl & Hu & new & Hnew & Hreq).
    split; [congruence|]. split; [congruence|]. split; [simpl; lia|].
    split; [|split; [|split; [|split; [|split]]]].
    + intros id Hid. rewrite Hf.
      * apply Hframe. intros ->. apply Hid. simpl. by left.
      * intros Hin. apply Hid. simpl. by right.
    + intros id. by rewrite Hs.
    + intros id Hid. apply Hi. rewrite Hflag, Hid. apply orb_true_r.
    + intros id Hid. simpl in Hid. apply elem_of_cons in Hid as [-> | Hid].
      * by apply Hi.
      * by apply Hl.
    + intros id Hid Hobs. constructor; [by apply Hfresh|].
      apply Hu; [|done]. rewrite Hflag, Hid. apply orb_true_r.
    + exists (RemoveRequest loser (tabsInfo w2) :: new). split.
      * rewrite Hnew, Htrace. by rewrite <- app_assoc.
      * constructor; [|done]. by exists (tabsInfo w2).
Qed.

(** X23: a search that is not disturbed.  When nothing else runs while
    the search waits for the focused window, the search sends exactly one
    removal request per closure it starts, in that order and nothing else,
    each one after hiding its tab from other searches ([isIgnoredTab] holds
    in the registry the request sees, and still at the end); it creates and
    deletes no record, touches only the records of the tabs it closes, and
    leaves the debouncer and the clock alone.  A tab that was hidden when
    the search began, other than the observed tab, is neither closed nor
    kept by it. *)
Theorem search_undisturbed (browser : Browser) (observedTab : Tab.t)
    (queryComplete : bool) (loadingUrl : option string) (w : World) :
  undisturbed browser ->
  let r := searchForDuplicateTabsToClose browser observedTab queryComplete loadingUrl w in
  (exists new,
      trace r.2 = trace w ++ new
      /\ Forall2 (fun e s =>
                    exists registry,
                      e = RemoveRequest (tabToCloseId s) registry
                      /\ TabsInfo.isIgnoredTab registry (tabToCloseId s) = true)
                 new r.1)
  /\ removeCalls r.2 = (removeCalls w + List.length r.1)%nat
  /\ (forall id, id ∈ map tabToCloseId r.1 ->
        TabsInfo.isIgnoredTab (tabsInfo r.2) id = true)
  /\ (forall id, id ∉ map tabToCloseId r.1 -> tabsInfo r.2 !! id = tabsInfo w !! id)
  /\ (forall id, TabsInfo.hasTab (tabsInfo r.2) id = TabsInfo.hasTab (tabsInfo w) id)
  /\ (forall id, TabsInfo.isIgnoredTab (tabsInfo w) id = true -> id <> Tab.id observedTab ->
        Forall (fun s => tabToCloseId s <> id /\ tabId (remainingTabInfo s) <> id) r.1)
  /\ handleRemainingTab r.2 = handleRemainingTab w
  /\ clock r.2 = clock w.
Proof.
  intros Hquiet r. subst r. unfold searchForDuplicateTabsToClose.
  assert (forall w0 : World,
             let r : list Started * World := ([], w0) in
             (exists new,
                 trace r.2 = trace w0 ++ new
                 /\ Forall2 (fun e s =>
                               exists registry,
                                 e = RemoveRequest (tabToCloseId s) registry
                                 /\ TabsInfo.isIgnoredTab registry (tabToCloseId s) = true)
                            new r.1)
             /\ removeCalls r.2 = (removeCalls w0 + List.length r.1)%nat
             /\ (forall id, id ∈ map tabToCloseId r.1 ->
                   TabsInfo.isIgnoredTab (tabsInfo r.2) id = true)
             /\ (forall id, id ∉ map tabToCloseId r.1 -> tabsInfo r.2 !! id = tabsInfo w0 !! id)
             /\ (forall id, TabsInfo.hasTab (tabsInfo r.2) id = TabsInfo.hasTab (tabsInfo w0) id)
             /\ (forall id, TabsInfo.isIgnoredTab (tabsInfo w0) id = true ->
                   id <> Tab.id observedTab ->
                   Forall (fun s => tabToCloseId s <> id /\ tabId (remainingTabInfo s) <> id) r.1)
             /\ handleRemainingTab r.2 = handleRemainingTab w0
             /\ clock r.2 = clock w0) as Hnothing.
  { intros w0 r. subst r. cbn [fst snd]. split.
    - exists []. split; [by rewrite app_nil_r|constructor].
    - split; [simpl; lia|]. split; [intros id Hin; by inversion Hin|].
      split; [done|]. split; [done|]. split; [intros; constructor|]. done. }
  destruct (getTabs browser queryComplete (observedTabUrl observedTab loadingUrl)
              (Tab.windowId observedTab)) as [openedTabs|]; [|apply Hnothing].
  destruct (1 <? List.length openedTabs)%nat; [|apply Hnothing].
  destruct (searchLoop_undisturbed browser observedTab
              (getMatchingURL (observedTabUrl observedTab loadingUrl)) openedTabs 0 w Hquiet)
    as (Hd & Hc & Hn & Hf & Hs & Hi & Hl & Hu & Hnew).
  repeat (split; [done|]). split; [|done].
  intros id. by apply hasTab_ext.
Qed.

Lemma search_undisturbed_witness :
  removeCalls (searchForDuplicateTabsToClose
                 (quietBrowser None [sampleTab 1 1 false; sampleTab 2 1 true] None)
                 (sampleTab 1 1 false) false None idleWorld).2
  = (removeCalls idleWorld
     + List.length (searchForDuplicateTabsToClose
                      (quietBrowser None [sampleTab 1 1 false; sampleTab 2 1 true] None)
                      (sampleTab 1 1 false) false None idleWorld).1)%nat.
Proof.
  exact (proj1 (proj2 (search_undisturbed
                         (quietBrowser None [sampleTab 1 1 false; sampleTab 2 1 true] None)
                         (sampleTab 1 1 false) false None idleWorld
                         (fun _ _ => eq_refl)))).
Defined.

(** ** The event listeners *)

Lemma closeDuplicateTab_start_hides (loser : Z) (w : World) :
  TabsInfo.isIgnoredTab (tabsInfo (closeDuplicateTab_start loser w).2) loser = true.
Proof.
  destruct (closeDuplicateTab_start_world loser w) as (_ & -> & _).
  rewrite isIgnoredTab_ignoreTab. by rewrite bool_decide_eq_true_2.
Qed.

(** X24: events of a hidden tab are dropped.  While [isIgnoredTab]
    holds for a tab (it has no record, or a closure has set its flag and
    the removal has not failed), the navigation listeners
    [onBeforeNavigate], [onCompletedTab] and [onUpdatedTab] do nothing for
    that tab: no record changes and no search starts, whatever the browser
    would answer. *)
Theorem listeners_drop_hidden_tabs (browser : Browser) (tabId : Z) (w : World) :
  TabsInfo.isIgnoredTab (tabsInfo w) tabId = true ->
  (forall details,
      nav_tabId details = tabId ->
      onBeforeNavigate browser details w = ([], w)
      /\ onCompletedTab browser details w = ([], w))
  /\ (forall changeInfo tab favIconUrl,
        onUpdatedTab browser tabId changeInfo tab favIconUrl w = ([], w)).
Proof.
  intros Hhidden. split.
  - intros details <-. unfold onBeforeNavigate, onCompletedTab. rewrite Hhidden.
    split; by destruct (_ && _).
  - intros changeInfo tab favIconUrl. unfold onUpdatedTab. by rewrite Hhidden.
Qed.

Lemma listeners_drop_hidden_tabs_witness :
  let w := (closeDuplicateTab_start 1 idleWorld).2 in
  onCompletedTab (quietBrowser (Some (sampleTab 1 1 true)) [] None)
    (mkNavigationDetails 0 1 "https://example.com/a") w = ([], w).
Proof.
  exact (proj2 (proj1 (listeners_drop_hidden_tabs
                         (quietBrowser (Some (sampleTab 1 1 true)) [] None) 1
                         (closeDuplicateTab_start 1 idleWorld).2
                         (closeDuplicateTab_start_hides 1 idleWorld))
                  (mkNavigationDetails 0 1 "https://example.com/a") eq_refl)).
Defined.

Lemma searchLoop_skip (browser : Browser) (observed : Tab.t) (key : string)
    (skipped rest : list Tab.t) (awaits : nat) (w : World) :
  Forall (fun t => Tab.id t = Tab.id observed \/ getMatchingURL (Tab.url t) <> key) skipped ->
  searchLoop browser observed key (skipped ++ rest) awaits w
  = searchLoop browser observed key rest awaits w.
Proof.
  induction 1 as [|t skipped Ht _ IH]; [done|].
  cbn [app searchLoop]. destruct (skipsOpenedTab (tabsInfo w) observed t) eqn:Hskip; [done|].
  apply skipsOpenedTab_false in Hskip as (Hne & _).
  destruct Ht as [Heq|Hkey]; [done|].
  by destruct (String.eqb_spec (getMatchingURL (Tab.url t)) key).
Qed.

(** X25: a page that finishes loading as a duplicate gives way.  When
    [onCompletedTab] fires for the main frame of a tab that is not hidden,
    and the first tab of the query result that is another tab with the same
    canonical key has a record that is not hidden and settled no later than
    now, then, the focused window being unknown and nothing else running
    meanwhile, the listener starts exactly one closure: it closes the tab
    that just completed and keeps the settled one, to be refocused in the
    settled tab's window; the completed tab is hidden from then on and the
    settled tab's record is untouched. *)
Theorem completed_duplicate_gives_way (browser : Browser) (details : NavigationDetails)
    (tab original : Tab.t) (skipped rest : list Tab.t) (record : TabInfo) (settled : Z)
    (w : World) :
  frameId details = 0 ->
  nav_tabId details <> -1 ->
  TabsInfo.isIgnoredTab (tabsInfo w) (nav_tabId details) = false ->
  getTab browser (nav_tabId details) = Some tab ->
  Tab.id tab = nav_tabId details ->
  getTabs browser false (Tab.url tab) (Tab.windowId tab) = Some (skipped ++ original :: rest) ->
  (1 < List.length (skipped ++ original :: rest))%nat ->
  Forall (fun t => Tab.id t = Tab.id tab
                   \/ getMatchingURL (Tab.url t) <> getMatchingURL (Tab.url tab)) skipped ->
  Tab.id original <> Tab.id tab ->
  getMatchingURL (Tab.url original) = getMatchingURL (Tab.url tab) ->
  isBlankURL (Tab.url original) && negb (isTabComplete original) = false ->
  tabsInfo w !! Tab.id original = Some record ->
  ignored record = false ->
  lastComplete record = Some settled ->
  settled <= clock w ->
  undisturbed browser ->
  (forall n w', truthy (getActiveWindowId browser n w').1 = false) ->
  let r := onCompletedTab browser details w in
  map tabToCloseId r.1 = [Tab.id tab]
  /\ map (fun s => tabId (remainingTabInfo s)) r.1 = [Tab.id original]
  /\ map (fun s => keep_windowId (remainingTabInfo s)) r.1 = [Tab.windowId original]
  /\ trace r.2 = trace w ++ [RemoveRequest (Tab.id tab) (tabsInfo r.2)]
  /\ TabsInfo.isIgnoredTab (tabsInfo r.2) (Tab.id tab) = true
  /\ TabsInfo.getLastComplete (tabsInfo r.2) (Tab.id tab) = Some (clock w)
  /\ tabsInfo r.2 !! Tab.id original = Some record.
Proof.
  intros Hframe Htab Hvisible HgetTab Hid Hquery Hlen Hskipped Hne Hkey Hblank
         Hrecord Hignored Hsettled Hpast Hquiet Hfocus r.
  subst r. unfold onCompletedTab.
  rewrite Hframe, (proj2 (Z.eqb_neq _ _) Htab), Hvisible, HgetTab. cbn [Z.eqb andb negb].
  cbv zeta.
  set (w1 := withTabs (fun tabs => TabsInfo.updateTab tabs tab (clock w)) w).
  assert (trace w1 = trace w) as Htrace1 by done.
  unfold searchForDuplicateTabsToClose, observedTabUrl.
  rewrite Hquery, (proj2 (Nat.ltb_lt _ _) Hlen).
  rewrite (searchLoop_skip _ _ _ _ _ _ _ Hskipped).
  assert (exists own, tabsInfo w !! Tab.id tab = Some own /\ ignored own = false)
    as (own & Hown & Hownflag).
  { rewrite <- Hid in Hvisible. unfold TabsInfo.isIgnoredTab in Hvisible.
    destruct (tabsInfo w !! Tab.id tab) as [own|]; [eauto|discriminate]. }
  assert (tabsInfo w1 !! Tab.id tab
          = Some (mkTabInfo (Some (Tab.url tab)) (Some (clock w)) false (clock w))) as Htab1.
  { unfold w1. cbn [withTabs tabsInfo]. unfold TabsInfo.updateTab. rewrite Hown, Hownflag.
    by rewrite lookup_insert_eq. }
  assert (tabsInfo w1 !! Tab.id original = Some record) as Horig1.
  { unfold w1. cbn [withTabs tabsInfo]. rewrite updateTab_lookup_ne by congruence. done. }
  cbn [searchLoop].
  assert (skipsOpenedTab (tabsInfo w1) tab original = false) as ->.
  { unfold skipsOpenedTab, TabsInfo.isIgnoredTab.
    rewrite Horig1, Hignored, Hblank, (proj2 (Z.eqb_neq _ _) Hne). done. }
  rewrite (proj2 (String.eqb_eq _ _) Hkey).
  pose proof (Hquiet 0%nat w1) as Hw. pose proof (Hfocus 0%nat w1) as Hunknown.
  destruct (getActiveWindowId browser 0 w1) as [focus w']. cbn [fst snd] in Hw, Hunknown.
  subst w'.
  assert (getLastUpdatedTabId (tabsInfo w1) tab original = Tab.id original) as Hrecency.
  { unfold getLastUpdatedTabId, TabsInfo.getLastComplete.
    rewrite Htab1, Horig1, Hsettled. cbn [lastComplete].
    destruct (Z.ltb_spec (clock w) settled); [lia|done]. }
  pose proof (getCloseInfo_unfold (tabsInfo w1) (mkDetails tab original focus)) as E.
  cbv zeta in E. rewrite getCloseInfo_tabId in E.
  cbn [observedTab openedTab activeWindowId] in E.
  rewrite Hunknown, Hrecency, (proj2 (Z.eqb_neq _ _) Hne) in E. rewrite E. clear E.
  cbn [negb observedTabClosed].
  destruct (closeDuplicateTab_start_world (Tab.id tab) w1)
    as (_ & Htabs & _ & _ & _ & Htrace).
  destruct (closeDuplicateTab_start (Tab.id tab) w1) as [lastError w2].
  cbn [fst snd map tabToCloseId remainingTabInfo tabId keep_windowId] in *.
  split; [done|]. split; [done|]. split; [done|]. split; [by rewrite <- Htrace1|].
  rewrite Htabs. split; [|split].
  - rewrite isIgnoredTab_ignoreTab. by rewrite bool_decide_eq_true_2.
  - unfold TabsInfo.getLastComplete, TabsInfo.ignoreTab. rewrite Htab1.
    by rewrite lookup_insert_eq.
  - rewrite ignoreTab_lookup_ne by congruence. done.
Qed.

Lemma completed_duplicate_gives_way_witness :
  map tabToCloseId
    (onCompletedTab
       (quietBrowser (Some (sampleTab 2 1 true)) [sampleTab 2 1 true; sampleTab 1 1 false] None)
       (mkNavigationDetails 0 2 "https://example.com/a") idleWorld).1 = [2].
Proof.
  refine (proj1 (completed_duplicate_gives_way
                   (quietBrowser (Some (sampleTab 2 1 true))
                      [sampleTab 2 1 true; sampleTab 1 1 false] None)
                   (mkNavigationDetails 0 2 "https://example.com/a")
                   (sampleTab 2 1 true) (sampleTab 1 1 false) [sampleTab 2 1 true] []
                   (settledAt 0) 0 idleWorld
                   eq_refl _ eq_refl eq_refl eq_refl eq_refl _
                   (Forall_cons_2 _ _ _ (or_introl eq_refl) (Forall_nil_2 _)) _
                   eq_refl eq_refl eq_refl eq_refl eq_refl _
                   (fun _ _ => eq_refl) (fun _ _ => eq_refl))).
  - simpl. lia.
  - simpl. lia.
  - simpl. lia.
  - simpl. lia.
Defined.

(** ** The startup reconciler, further *)

Lemma sortInsert_perm (a : Tab.t) (sorted : list Tab.t) : sortInsert a sorted ≡ₚ a :: sorted.
Proof.
  induction sorted as [|b rest IH]; [done|]. cbn [sortInsert].
  destruct (lastAccessedOr0 b - lastAccessedOr0 a <=? 0); [done|].
  rewrite IH. apply Permutation_swap.
Qed.

Lemma sortByLastAccessed_perm (tabs : list Tab.t) : sortByLastAccessed tabs ≡ₚ tabs.
Proof.
  induction tabs as [|a tabs IH]; [done|].
  change (sortByLastAccessed (a :: tabs)) with (sortInsert a (sortByLastAccessed tabs)).
  by rewrite sortInsert_perm, IH.
Qed.

Lemma sortInsert_descending (a : Tab.t) (sorted : list Tab.t) :
  descending sorted -> descending (sortInsert a sorted).
Proof.
  induction sorted as [|b rest IH]; [by repeat split|].
  intros [Hb Hrest]. cbn [sortInsert].
  destruct (Z.leb_spec (lastAccessedOr0 b - lastAccessedOr0 a) 0) as [Hle|Hgt].
  - split; [|by split]. constructor; [lia|].
    eapply Forall_impl; [exact Hb|]. intros c Hc. simpl in Hc. lia.
  - split; [|by apply IH].
    rewrite sortInsert_perm. constructor; [lia|done].
Qed.

Lemma sortByLastAccessed_descending (tabs : list Tab.t) : descending (sortByLastAccessed tabs).
Proof.
  induction tabs as [|a tabs IH]; [done|].
  change (sortByLastAccessed (a :: tabs)) with (sortInsert a (sortByLastAccessed tabs)).
  by apply sortInsert_descending.
Qed.

Lemma sortInsert_filter (v : Z) (a : Tab.t) (sorted : list Tab.t) :
  descending sorted ->
  filter (fun t => lastAccessedOr0 t = v) (sortInsert a sorted)
  = filter (fun t => lastAccessedOr0 t = v) (a :: sorted).
Proof.
  induction sorted as [|b rest IH]; [done|].
  intros [Hb Hrest]. cbn [sortInsert].
  destruct (Z.leb_spec (lastAccessedOr0 b - lastAccessedOr0 a) 0) as [Hle|Hgt]; [done|].
  rewrite filter_cons, (IH Hrest), !filter_cons.
  destruct (decide (lastAccessedOr0 b = v)) as [Hbv|Hbv];
    destruct (decide (lastAccessedOr0 a = v)) as [Hav|Hav]; try done.
  lia.
Qed.

(** X26: how the startup reconciler ranks a group.  The sort of
    [findAndCloseDuplicatesOnInstall] rearranges the tabs of a group
    without losing or adding any, puts them in descending order of
    [lastAccessed || 0], and keeps tabs with equal values in the order the
    browser listed them; so [tabs[0]], the tab kept, is one accessed at
    least as recently as every tab closed. *)
Theorem sortByLastAccessed_ranks (tabs : list Tab.t) :
  sortByLastAccessed tabs ≡ₚ tabs
  /\ descending (sortByLastAccessed tabs)
  /\ (forall v, filter (fun t => lastAccessedOr0 t = v) (sortByLastAccessed tabs)
                = filter (fun t => lastAccessedOr0 t = v) tabs)
  /\ match sortByLastAccessed tabs with
     | [] => tabs = []
     | tabToKeep :: tabsToClose =>
         tabToKeep ∈ tabs
         /\ Forall (fun t => t ∈ tabs /\ lastAccessedOr0 t <= lastAccessedOr0 tabToKeep)
                   tabsToClose
     end.
Proof.
  split; [apply sortByLastAccessed_perm|]. split; [apply sortByLastAccessed_descending|].
  split.
  - intros v. induction tabs as [|a tabs IH]; [done|].
    change (sortByLastAccessed (a :: tabs)) with (sortInsert a (sortByLastAccessed tabs)).
    rewrite sortInsert_filter by apply sortByLastAccessed_descending.
    by rewrite !filter_cons, IH.
  - pose proof (sortByLastAccessed_perm tabs) as Hperm.
    pose proof (sortByLastAccessed_descending tabs) as Hdesc.
    destruct (sortByLastAccessed tabs) as [|keep close].
    + by apply Permutation_nil_l in Hperm.
    + destruct Hdesc as [Hkeep _]. split.
      * rewrite <- Hperm. by left.
      * apply Forall_forall. intros t Ht. split.
        -- rewrite <- Hperm. by right.
        -- by apply (proj1 (Forall_forall _ _) Hkeep).
Qed.

Lemma lookupGroup_groupPush (key matchingUrl : string) (tab : Tab.t)
    (tabGroups : list (string * list Tab.t)) :
  lookupGroup key (groupPush matchingUrl tab tabGroups)
  = if String.eqb matchingUrl key
    then Some (default [] (lookupGroup matchingUrl tabGroups) ++ [tab])
    else lookupGroup key tabGroups.
Proof.
  induction tabGroups as [|[k tabs] rest IH].
  - simpl. by destruct (String.eqb matchingUrl key).
  - cbn [groupPush lookupGroup].
    destruct (String.eqb_spec k matchingUrl) as [->|Hk].
    + cbn [lookupGroup]. by destruct (String.eqb matchingUrl key).
    + cbn [lookupGroup]. rewrite IH.
      destruct (String.eqb_spec k key) as [->|Hk'].
      * by rewrite (proj2 (String.eqb_neq _ _) (not_eq_sym Hk)).
      * done.
Qed.

Lemma groupPush_keys (matchingUrl : string) (tab : Tab.t)
    (tabGroups : list (string * list Tab.t)) :
  (groupPush matchingUrl tab tabGroups).*1
  = if bool_decide (matchingUrl ∈ tabGroups.*1) then tabGroups.*1
    else tabGroups.*1 ++ [matchingUrl].
Proof.
  induction tabGroups as [|[k tabs] rest IH].
  - rewrite bool_decide_eq_false_2 by (simpl; intros H; inversion H). done.
  - cbn [groupPush]. destruct (String.eqb_spec k matchingUrl) as [->|Hk].
    + rewrite bool_decide_eq_true_2; [done|]. simpl. by left.
    + rewrite fmap_cons, IH. cbn [fst fmap list_fmap].
      destruct (decide (matchingUrl ∈ rest.*1)) as [Hin|Hnotin].
      * rewrite !bool_decide_eq_true_2; [done|by right|done].
      * rewrite !bool_decide_eq_false_2; [done| |done].
        intros Hin. apply elem_of_cons in Hin as [?|?]; [congruence|done].
Qed.

Lemma lookupGroup_elem (key : string) (tabs : list Tab.t)
    (tabGroups : list (string * list Tab.t)) :
  NoDup tabGroups.*1 ->
  (key, tabs) ∈ tabGroups <-> lookupGroup key tabGroups = Some tabs.
Proof.
  induction tabGroups as [|[k ts] rest IH]; intros Hnodup.
  - split; [intros H; by inversion H|discriminate].
  - rewrite fmap_cons in Hnodup. apply NoDup_cons in Hnodup as [Hk Hnodup].
    cbn [lookupGroup]. rewrite elem_of_cons.
    destruct (String.eqb_spec k key) as [->|Hne].
    + split.
      * intros [[= ->]|Hin]; [done|]. exfalso. apply Hk.
        apply list_elem_of_fmap. by exists (key, tabs).
      * intros [= ->]. by left.
    + rewrite <- (IH Hnodup). split.
      * intros [[= ? ?]|Hin]; [congruence|done].
      * by right.
Qed.

Lemma groupTabs_snoc (allTabs : list Tab.t) (tab : Tab.t) :
  groupTabs (allTabs ++ [tab])
  = if isBlankURL (Tab.url tab) || isBrowserURL (Tab.url tab) then groupTabs allTabs
    else groupPush (getMatchingURL (Tab.url tab)) tab (groupTabs allTabs).
Proof. unfold groupTabs. by rewrite foldl_app. Qed.

Lemma groupTabs_lookup (allTabs : list Tab.t) (key : string) :
  lookupGroup key (groupTabs allTabs)
  = match filter (fun tab => groupedUnder key tab = true) allTabs with
    | [] => None
    | tabs => Some tabs
    end.
Proof.
  induction allTabs as [|tab allTabs IH] using rev_ind; [done|].
  rewrite groupTabs_snoc, filter_app, filter_cons, filter_nil.
  destruct (groupedUnder key tab) eqn:Hgrouped.
  - unfold groupedUnder in Hgrouped. apply andb_true_iff in Hgrouped as [Hskip Hkey].
    apply negb_true_iff in Hskip. apply String.eqb_eq in Hkey. rewrite Hskip.
    rewrite decide_True by done.
    rewrite lookupGroup_groupPush, Hkey, String.eqb_refl, IH.
    by destruct (filter (fun tab0 => groupedUnder key tab0 = true) allTabs).
  - rewrite decide_False by done. rewrite app_nil_r.
    destruct (isBlankURL (Tab.url tab) || isBrowserURL (Tab.url tab)) eqn:Hskip; [done|].
    unfold groupedUnder in Hgrouped. rewrite Hskip in Hgrouped. cbn [negb andb] in Hgrouped.
    by rewrite lookupGroup_groupPush, Hgrouped.
Qed.

Lemma groupTabs_keys (allTabs : list Tab.t) : NoDup (groupTabs allTabs).*1.
Proof.
  induction allTabs as [|tab allTabs IH] using rev_ind; [constructor|].
  rewrite groupTabs_snoc.
  destruct (isBlankURL (Tab.url tab) || isBrowserURL (Tab.url tab)); [done|].
  rewrite groupPush_keys.
  destruct (decide (getMatchingURL (Tab.url tab) ∈ (groupTabs allTabs).*1)) as [Hin|Hnotin].
  - by rewrite bool_decide_eq_true_2.
  - rewrite bool_decide_eq_false_2 by done.
    apply NoDup_app. split; [done|]. split; [|apply NoDup_singleton].
    intros k Hk Hk'. apply list_elem_of_singleton in Hk' as ->. done.
Qed.

Lemma groupTabs_elem (allTabs : list Tab.t) (key : string) (tabs : list Tab.t) :
  (key, tabs) ∈ groupTabs allTabs
  <-> tabs = filter (fun tab => groupedUnder key tab = true) allTabs /\ tabs <> [].
Proof.
  rewrite (lookupGroup_elem _ _ _ (groupTabs_keys allTabs)), groupTabs_lookup.
  destruct (filter (fun tab => groupedUnder key tab = true) allTabs) as [|t ts].
  - split; [discriminate|]. by intros [-> ?].
  - split; [by intros [= <-]|]. by intros [-> _].
Qed.

(** X27: the groups of the startup reconciler.  [tabGroups] has one
    entry per canonical key, and the entry of a key lists, in the browser's
    order, exactly the tabs with that key that are neither blank nor
    browser pages; a key without such a tab has no entry.  So every such
    tab is in exactly one group, and no blank or browser page is in
    any. *)
Theorem groupTabs_partitions (allTabs : list Tab.t) :
  NoDup (groupTabs allTabs).*1
  /\ (forall key tabs,
        (key, tabs) ∈ groupTabs allTabs
        <-> tabs = filter (fun tab => groupedUnder key tab = true) allTabs /\ tabs <> [])
  /\ (forall tab,
        tab ∈ allTabs ->
        if isBlankURL (Tab.url tab) || isBrowserURL (Tab.url tab)
        then forall key tabs, (key, tabs) ∈ groupTabs allTabs -> tab ∉ tabs
        else exists tabs,
            (getMatchingURL (Tab.url tab), tabs) ∈ groupTabs allTabs /\ tab ∈ tabs).
Proof.
  split; [apply groupTabs_keys|]. split; [apply groupTabs_elem|].
  intros tab Hin.
  destruct (isBlankURL (Tab.url tab) || isBrowserURL (Tab.url tab)) eqn:Hskip.
  - intros key tabs Hg Htab. apply groupTabs_elem in Hg as [-> _].
    apply list_elem_of_filter in Htab as [Hgrouped _].
    unfold groupedUnder in Hgrouped. by rewrite Hskip in Hgrouped.
  - exists (filter (fun t => groupedUnder (getMatchingURL (Tab.url tab)) t = true) allTabs).
    assert (tab ∈ filter (fun t => groupedUnder (getMatchingURL (Tab.url tab)) t = true) allTabs)
      as Htab.
    { apply list_elem_of_filter. split; [|done].
      unfold groupedUnder. rewrite Hskip. simpl. by apply String.eqb_eq. }
    split; [|done]. apply groupTabs_elem. split; [done|].
    intros Hnil. rewrite Hnil in Htab. by inversion Htab.
Qed.

Lemma concerns_unique (id id' : Z) (e : Event) : concerns id e -> concerns id' e -> id = id'.
Proof. destruct e; simpl; congruence || done. Qed.

Lemma closesOnly_app (ids : list Z) (events events' : list Event) :
  closesOnly ids events -> closesOnly ids events' -> closesOnly ids (events ++ events').
Proof. intros H H'. apply Forall_app. by split. Qed.

Lemma closesOnly_weaken (ids ids' : list Z) (events : list Event) :
  (forall id, id ∈ ids -> id ∈ ids') -> closesOnly ids events -> closesOnly ids' events.
Proof.
  intros Hsub H. eapply Forall_impl; [exact H|]. intros e He id Hid. by apply Hsub, He.
Qed.

Lemma closeSequentially_closesOnly (tabsToClose : list Tab.t) (w : World) :
  exists new,
    trace (closeSequentially tabsToClose w).2 = trace w ++ new
    /\ closesOnly (map Tab.id tabsToClose) new
    /\ Forall (fun e => forall tabId windowId, e <> FocusRequest tabId windowId) new.
Proof.
  destruct (closeSequentially_segments tabsToClose w) as (segments & Htr & Hsegs).
  exists (List.concat segments). split; [done|]. clear Htr.
  induction Hsegs as [|tab segment rest segments' Hseg _ IH]; [by split; constructor|].
  destruct IH as [IH1 IH2].
  destruct Hseg as (chain & Hchain & _ & Hend).
  assert (closesOnly (map Tab.id (tab :: rest)) segment
          /\ Forall (fun e => forall tabId windowId, e <> FocusRequest tabId windowId) segment)
    as [H1 H2].
  { assert (closesOnly (map Tab.id (tab :: rest)) chain
            /\ Forall (fun e => forall tabId windowId, e <> FocusRequest tabId windowId) chain)
      as [Hc1 Hc2].
    { split.
      - eapply Forall_impl; [exact Hchain|]. intros e [He| ->] id Hid; [|done].
        rewrite (concerns_unique _ _ _ Hid He). simpl. by left.
      - eapply Forall_impl; [exact Hchain|]. intros e [He| ->] t win; [|done].
        intros ->. done. }
    destruct Hend as [[_ ->]|[_ ->]]; [|done]. split.
    - apply closesOnly_app; [done|]. constructor; [|constructor]. by intros id Hid.
    - apply Forall_app. split; [done|]. constructor; [|constructor]. done. }
  cbn [List.concat]. split.
  - apply closesOnly_app; [done|].
    eapply closesOnly_weaken; [|exact IH1]. intros id Hid. simpl. by right.
  - apply Forall_app. by split.
Qed.

Lemma closeConcurrently_closesOnly (tabsToClose : list Tab.t) (w : World) :
  exists new,
    trace (closeConcurrently tabsToClose w).2 = trace w ++ new
    /\ closesOnly (map Tab.id tabsToClose) new
    /\ Forall (fun e => forall tabId windowId, e <> FocusRequest tabId windowId) new.
Proof.
  unfold closeConcurrently.
  destruct (ignoreAll_world tabsToClose w) as (Htr0 & _).
  destruct (issueAll_world tabsToClose (ignoreAll tabsToClose w)) as (Hids & _ & _ & Htr1).
  destruct (issueAll tabsToClose (ignoreAll tabsToClose w)) as [tasks w2]. cbn [fst snd] in *.
  rewrite Htr0 in Htr1.
  apply (runTasks_invariant
           (fun tasks' w' =>
              map taskTabId tasks' = map Tab.id tabsToClose
              /\ exists new,
                   trace w' = trace w ++ new
                   /\ closesOnly (map Tab.id tabsToClose) new
                   /\ Forall (fun e => forall tabId windowId, e <> FocusRequest tabId windowId)
                             new)).
  - intros tasks' w' i t (Hids' & new & Htr & Hnew & Hnofocus) Hi _.
    split.
    { rewrite <- Hids'. change map with (@fmap list _).
      rewrite list_fmap_insert, stepTask_taskTabId.
      apply list_insert_id. by rewrite list_lookup_fmap, Hi. }
    destruct (stepTask_events t (tick w')) as (extra & Htr' & Hextra).
    exists (new ++ extra). split; [rewrite Htr'; simpl; by rewrite Htr, app_assoc|].
    assert (taskTabId t ∈ map Tab.id tabsToClose) as Hmember.
    { rewrite <- Hids'. apply list_elem_of_fmap. exists t. split; [done|].
      by eapply list_elem_of_lookup_2. }
    split.
    + apply closesOnly_app; [done|].
      eapply Forall_impl; [exact Hextra|]. intros e [He| ->] id Hid; [|done].
      by rewrite (concerns_unique _ _ _ Hid He).
    + apply Forall_app. split; [done|].
      eapply Forall_impl; [exact Hextra|]. intros e [He| ->] tabId windowId; [|done].
      intros ->. done.
  - split; [done|].
    exists (map (fun tab => RemoveRequest (Tab.id tab) (tabsInfo (ignoreAll tabsToClose w)))
              tabsToClose).
    split; [done|]. split.
    + apply Forall_forall. intros e He id Hid.
      apply list_elem_of_fmap in He as (tab & -> & Htab). simpl in Hid. subst id.
      apply list_elem_of_fmap. by exists tab.
    + apply Forall_forall. intros e He tabId windowId.
      apply list_elem_of_fmap in He as (tab & -> & Htab). done.
Qed.

Lemma closeTabsToClose_closesOnly (tabsToClose : list Tab.t) (w : World) :
  exists new,
    trace (closeTabsToClose tabsToClose w).2 = trace w ++ new
    /\ closesOnly (map Tab.id tabsToClose) new
    /\ Forall (fun e => forall tabId windowId, e <> FocusRequest tabId windowId) new.
Proof.
  unfold closeTabsToClose. destruct (List.length tabsToClose <=? 4)%nat.
  - apply closeConcurrently_closesOnly.
  - apply closeSequentially_closesOnly.
Qed.

Lemma closeGroup_events (tabs : list Tab.t) (w : World) :
  (closeGroup tabs w).1 = Fulfilled tt
  /\ exists new,
       trace (closeGroup tabs w).2 = trace w ++ new /\ Forall (groupEvents tabs) new.
Proof.
  unfold closeGroup, groupEvents.
  destruct (sortByLastAccessed tabs) as [|tabToKeep tabsToClose].
  { split; [done|]. exists []. split; [by rewrite app_nil_r|constructor]. }
  cbn [head tail]. unfold mbind, Async_bind, await.
  pose proof (closeTabsToClose_fulfils tabsToClose w) as Hok.
  destruct (closeTabsToClose_closesOnly tabsToClose w) as (new & Htr & Hnew & Hnofocus).
  destruct (closeTabsToClose tabsToClose w) as [o w1]. cbn [fst snd] in *. subst o.
  assert (Forall (fun e =>
                    (forall id, concerns id e -> id ∈ map Tab.id tabsToClose)
                    /\ (forall tabId windowId,
                          e = FocusRequest tabId windowId ->
                          exists keep, Some tabToKeep = Some keep
                                       /\ tabId = Tab.id keep /\ windowId = Tab.windowId keep))
                 new) as Hnew'.
  { apply Forall_forall. intros e He. split.
    - by apply (proj1 (Forall_forall _ _) Hnew).
    - intros tabId windowId ->. by destruct (proj1 (Forall_forall _ _) Hnofocus _ He tabId windowId). }
  destruct (existsb Tab.active tabsToClose).
  - split; [done|]. exists (new ++ [FocusRequest (Tab.id tabToKeep) (Tab.windowId tabToKeep)]).
    split; [simpl; by rewrite Htr, app_assoc|].
    apply Forall_app. split; [done|]. constructor; [|constructor]. split.
    + by intros id Hid.
    + intros tabId windowId [= <- <-]. by exists tabToKeep.
  - split; [done|]. by exists new.
Qed.

Lemma closeGroups_events (urlGroups : list (string * list Tab.t)) (w : World) :
  exists new,
    trace (closeGroups urlGroups w).2 = trace w ++ new
    /\ Forall (fun e => exists g, g ∈ urlGroups /\ groupEvents g.2 e) new.
Proof.
  revert w. induction urlGroups as [|[key tabs] rest IH]; intros w.
  { exists []. split; [by rewrite app_nil_r|constructor]. }
  cbn [closeGroups]. unfold mbind, Async_bind, await.
  destruct (closeGroup_events tabs w) as (Hok & new & Htr & Hnew).
  destruct (closeGroup tabs w) as [o w1]. cbn [fst snd] in *. subst o.
  destruct (IH w1) as (new' & Htr' & Hnew').
  exists (new ++ new'). split; [by rewrite Htr', Htr, app_assoc|].
  apply Forall_app. split.
  - eapply Forall_impl; [exact Hnew|]. intros e He. exists (key, tabs). split; [by left|done].
  - eapply Forall_impl; [exact Hnew'|]. intros e (g & Hg & He). exists g. split; [by right|done].
Qed.

Lemma NoDup_map_eq {A B : Type} (f : A -> B) (l : list A) (x y : A) :
  NoDup (map f l) -> x ∈ l -> y ∈ l -> f x = f y -> x = y.
Proof.
  induction l as [|a l IH]; intros Hnodup Hx Hy Hf; [by inversion Hx|].
  simpl in Hnodup. apply NoDup_cons in Hnodup as [Ha Hnodup].
  apply elem_of_cons in Hx as [->|Hx]; apply elem_of_cons in Hy as [->|Hy].
  - done.
  - exfalso. apply Ha. rewrite Hf. apply list_elem_of_fmap. by exists y.
  - exfalso. apply Ha. rewrite <- Hf. apply list_elem_of_fmap. by exists x.
  - by apply IH.
Qed.

Lemma group_sorted_ids (allTabs : list Tab.t) (key : string) :
  NoDup (map Tab.id allTabs) ->
  NoDup (map Tab.id (sortByLastAccessed
                       (filter (fun tab => groupedUnder key tab = true) allTabs))).
Proof.
  intros Hnodup. change map with (@fmap list _) in *.
  rewrite sortByLastAccessed_perm.
  eapply sublist_NoDup; [exact Hnodup|]. apply fmap_sublist, sublist_filter.
Qed.

(** X28: the startup reconciler keeps the most recently accessed copy
    of every page.  When the browser lists tabs with distinct ids, every
    removal request of [findAndCloseDuplicatesOnInstall] is for a listed tab
    that is neither a blank nor a browser page and for which another listed
    tab with the same canonical key, accessed at least as recently, is never
    asked to be closed during the run; and every focus request is for a tab
    that is never asked to be closed.  This holds on both branches of the
    batch policy and under every order in which the browser answers. *)
Theorem startup_keeps_most_recent (allTabs : list Tab.t) (w : World) :
  NoDup (map Tab.id allTabs) ->
  let r := findAndCloseDuplicatesOnInstall (Some allTabs) w in
  exists new,
    trace r.2 = trace w ++ new
    /\ (forall e id,
          e ∈ new -> concerns id e ->
          exists tab tabToKeep,
            tab ∈ allTabs /\ Tab.id tab = id
            /\ tabToKeep ∈ allTabs /\ Tab.id tabToKeep <> id
            /\ isBlankURL (Tab.url tab) || isBrowserURL (Tab.url tab) = false
            /\ getMatchingURL (Tab.url tabToKeep) = getMatchingURL (Tab.url tab)
            /\ lastAccessedOr0 tab <= lastAccessedOr0 tabToKeep
            /\ forall e', e' ∈ new -> ~ concerns (Tab.id tabToKeep) e')
    /\ (forall tabId windowId,
          FocusRequest tabId windowId ∈ new ->
          (exists tabToKeep,
              tabToKeep ∈ allTabs /\ Tab.id tabToKeep = tabId
              /\ Tab.windowId tabToKeep = windowId)
          /\ forall e', e' ∈ new -> ~ concerns tabId e').
Proof.
  intros Hnodup r. subst r. unfold findAndCloseDuplicatesOnInstall.
  destruct (List.length allTabs <=? 1)%nat.
  { exists []. split; [by rewrite app_nil_r|].
    split; [intros e id He; by inversion He|intros t win He; by inversion He]. }
  cbv zeta.
  set (urlGroups := filter (fun g : string * list Tab.t => (1 < List.length g.2)%nat)
                      (groupTabs allTabs)).
  destruct (closeGroups_events urlGroups w) as (new & Htr & Hnew).
  exists new. split; [done|].
  assert (forall g, g ∈ urlGroups ->
            g.2 = filter (fun tab => groupedUnder g.1 tab = true) allTabs) as Hgroup.
  { intros [key tabs] Hg. apply list_elem_of_filter in Hg as [_ Hg].
    by apply groupTabs_elem in Hg as [-> _]. }
  assert (forall key tab,
            tab ∈ sortByLastAccessed (filter (fun tab => groupedUnder key tab = true) allTabs) ->
            tab ∈ allTabs
            /\ isBlankURL (Tab.url tab) || isBrowserURL (Tab.url tab) = false
            /\ getMatchingURL (Tab.url tab) = key) as Hmember.
  { intros key tab Htab. rewrite sortByLastAccessed_perm in Htab.
    apply list_elem_of_filter in Htab as [Hg Hin]. split; [done|].
    unfold groupedUnder in Hg. apply andb_true_iff in Hg as [Hg1 Hg2].
    split; [by apply negb_true_iff|by apply String.eqb_eq]. }
  assert (forall g tabToKeep,
            g ∈ urlGroups -> head (sortByLastAccessed g.2) = Some tabToKeep ->
            forall e', e' ∈ new -> ~ concerns (Tab.id tabToKeep) e') as Hsafe.
  { intros g keep Hg Hhead e' He' Hconcerns.
    destruct (proj1 (Forall_forall _ _) Hnew e' He') as (g' & Hg' & Hclose & _).
    specialize (Hclose _ Hconcerns).
    apply list_elem_of_fmap in Hclose as (b & Hb & Htail).
    rewrite (Hgroup g Hg) in Hhead. rewrite (Hgroup g' Hg') in Htail.
    pose proof (group_sorted_ids allTabs g.1 Hnodup) as Hids.
    pose proof (group_sorted_ids allTabs g'.1 Hnodup) as Hids'.
    destruct (sortByLastAccessed (filter (fun tab => groupedUnder g.1 tab = true) allTabs))
      as [|k close] eqn:Hsorted; [discriminate|]. injection Hhead as ->.
    destruct (sortByLastAccessed (filter (fun tab => groupedUnder g'.1 tab = true) allTabs))
      as [|k' close'] eqn:Hsorted'; [by inversion Htail|]. cbn [tail] in Htail.
    destruct (Hmember g.1 keep) as (Hkeep_in & _ & Hkeep_key); [rewrite Hsorted; by left|].
    destruct (Hmember g'.1 b) as (Hb_in & _ & Hb_key); [rewrite Hsorted'; by right|].
    assert (keep = b) as -> by (by apply (NoDup_map_eq Tab.id allTabs)).
    rewrite <- Hkeep_key, Hb_key, Hsorted' in Hsorted. injection Hsorted as -> ->.
    simpl in Hids'. apply NoDup_cons in Hids' as [Hfresh _]. apply Hfresh.
    apply list_elem_of_fmap. by exists b. }
  split.
  - intros e id He Hconcerns.
    destruct (proj1 (Forall_forall _ _) Hnew e He) as (g & Hg & Hclose & _).
    specialize (Hclose _ Hconcerns).
    apply list_elem_of_fmap in Hclose as (tab & -> & Htail).
    pose proof (Hsafe g) as Hsafe_g.
    rewrite (Hgroup g Hg) in Htail, Hsafe_g.
    pose proof (group_sorted_ids allTabs g.1 Hnodup) as Hids.
    pose proof (sortByLastAccessed_descending
                  (filter (fun tab => groupedUnder g.1 tab = true) allTabs)) as Hdesc.
    pose proof (Hmember g.1) as Hmember_g.
    destruct (sortByLastAccessed (filter (fun tab => groupedUnder g.1 tab = true) allTabs))
      as [|keep close]; [by inversion Htail|]. cbn [tail] in Htail.
    destruct (Hmember_g keep) as (Hkeep_in & _ & Hkeep_key); [by left|].
    destruct (Hmember_g tab) as (Htab_in & Htab_ok & Htab_key); [by right|].
    exists tab, keep. split; [done|]. split; [done|]. split; [done|]. split.
    { simpl in Hids. apply NoDup_cons in Hids as [Hfresh _]. intros Heq. apply Hfresh.
      rewrite Heq. apply list_elem_of_fmap. by exists tab. }
    split; [done|]. split; [congruence|]. split.
    { destruct Hdesc as [Hdesc _]. by apply (proj1 (Forall_forall _ _) Hdesc). }
    by apply Hsafe_g.
  - intros tabId windowId He.
    destruct (proj1 (Forall_forall _ _) Hnew _ He) as (g & Hg & _ & Hfocus).
    destruct (Hfocus tabId windowId eq_refl) as (keep & Hhead & -> & ->).
    split; [|by apply (Hsafe g)].
    exists keep. split; [|done].
    rewrite (Hgroup g Hg) in Hhead.
    apply head_Some_elem_of in Hhead. by apply (Hmember g.1) in Hhead as (? & _).
Qed.

Lemma startup_keeps_most_recent_witness :
  exists new,
    trace (findAndCloseDuplicatesOnInstall (Some (batchTabs 4)) batchWorld).2
    = trace batchWorld ++ new.
Proof.
  destruct (startup_keeps_most_recent (batchTabs 4) batchWorld batchTabs_NoDup)
    as (new & Hnew & _).
  by exists new.
Defined.

Lemma closeTabsToClose_requests (tabsToClose : list Tab.t) (w : World) :
  exists new,
    trace (closeTabsToClose tabsToClose w).2 = trace w ++ new
    /\ forall tab, tab ∈ tabsToClose ->
         exists registry, RemoveRequest (Tab.id tab) registry ∈ new.
Proof.
  unfold closeTabsToClose. destruct (List.length tabsToClose <=? 4)%nat.
  - cbn [snd]. unfold closeConcurrently.
    destruct (ignoreAll_world tabsToClose w) as (Htr0 & _).
    destruct (issueAll_world tabsToClose (ignoreAll tabsToClose w)) as (_ & _ & _ & Htr1).
    destruct (issueAll tabsToClose (ignoreAll tabsToClose w)) as [tasks w2].
    cbn [fst snd] in *. rewrite Htr0 in Htr1.
    destruct (runTasks_trace tasks w2) as (extra & Htr2 & _).
    exists (map (fun tab => RemoveRequest (Tab.id tab) (tabsInfo (ignoreAll tabsToClose w)))
              tabsToClose ++ extra).
    split; [by rewrite Htr2, Htr1, app_assoc|].
    intros tab Htab. exists (tabsInfo (ignoreAll tabsToClose w)).
    apply elem_of_app. left. apply list_elem_of_fmap. by exists tab.
  - destruct (closeSequentially_segments tabsToClose w) as (segments & Htr & Hsegs).
    exists (List.concat segments). split; [done|]. clear Htr.
    induction Hsegs as [|t segment rest segments' Hseg _ IH]; intros tab Htab;
      [by inversion Htab|].
    cbn [List.concat]. apply elem_of_cons in Htab as [->|Htab].
    + destruct Hseg as (chain & _ & (registry & Hreq) & Hend).
      exists registry. apply elem_of_app. left.
      destruct Hend as [[_ ->]|[_ ->]]; [|done]. apply elem_of_app. by left.
    + destruct (IH tab Htab) as (registry & Hreq).
      exists registry. apply elem_of_app. by right.
Qed.

Lemma closeGroup_requests (tabs : list Tab.t) (w : World) :
  exists new,
    trace (closeGroup tabs w).2 = trace w ++ new
    /\ forall tab, tab ∈ tail (sortByLastAccessed tabs) ->
         exists registry, RemoveRequest (Tab.id tab) registry ∈ new.
Proof.
  unfold closeGroup.
  destruct (sortByLastAccessed tabs) as [|tabToKeep tabsToClose].
  { exists []. split; [by rewrite app_nil_r|]. intros tab Htab. by inversion Htab. }
  cbn [tail]. unfold mbind, Async_bind, await.
  pose proof (closeTabsToClose_fulfils tabsToClose w) as Hok.
  destruct (closeTabsToClose_requests tabsToClose w) as (new & Htr & Hnew).
  destruct (closeTabsToClose tabsToClose w) as [o w1]. cbn [fst snd] in *. subst o.
  destruct (existsb Tab.active tabsToClose).
  - exists (new ++ [FocusRequest (Tab.id tabToKeep) (Tab.windowId tabToKeep)]).
    split; [simpl; by rewrite Htr, app_assoc|].
    intros tab Htab. destruct (Hnew tab Htab) as (registry & Hreq).
    exists registry. apply elem_of_app. by left.
  - by exists new.
Qed.

Lemma closeGroups_requests (urlGroups : list (string * list Tab.t)) (w : World) :
  exists new,
    trace (closeGroups urlGroups w).2 = trace w ++ new
    /\ forall g tab, g ∈ urlGroups -> tab ∈ tail (sortByLastAccessed g.2) ->
         exists registry, RemoveRequest (Tab.id tab) registry ∈ new.
Proof.
  revert w. induction urlGroups as [|[key tabs] rest IH]; intros w.
  { exists []. split; [by rewrite app_nil_r|]. intros g tab Hg. by inversion Hg. }
  cbn [closeGroups]. unfold mbind, Async_bind, await.
  destruct (closeGroup_events tabs w) as (Hok & _).
  destruct (closeGroup_requests tabs w) as (new & Htr & Hnew).
  destruct (closeGroup tabs w) as [o w1]. cbn [fst snd] in *. subst o.
  destruct (IH w1) as (new' & Htr' & Hnew').
  exists (new ++ new'). split; [by rewrite Htr', Htr, app_assoc|].
  intros g tab Hg Htab. apply elem_of_cons in Hg as [->|Hg].
  - destruct (Hnew tab Htab) as (registry & Hreq). exists registry. apply elem_of_app. by left.
  - destruct (Hnew' g tab Hg Htab) as (registry & Hreq).
    exists registry. apply elem_of_app. by right.
Qed.

(** X29: the startup reconciler asks for every other copy to be closed.
    For every canonical key that two or more of the listed tabs share
    (blank and browser pages apart), [findAndCloseDuplicatesOnInstall] sends
    a removal request for every tab of the group except the first of the
    sorted group, whichever branch of the batch policy the group takes and
    whether or not earlier removals failed. *)
Theorem startup_closes_every_other_copy (allTabs : list Tab.t) (w : World) :
  exists new,
    trace (findAndCloseDuplicatesOnInstall (Some allTabs) w).2 = trace w ++ new
    /\ forall key tab,
         (1 < List.length (filter (fun tab => groupedUnder key tab = true) allTabs))%nat ->
         tab ∈ tail (sortByLastAccessed
                       (filter (fun tab => groupedUnder key tab = true) allTabs)) ->
         exists registry, RemoveRequest (Tab.id tab) registry ∈ new.
Proof.
  unfold findAndCloseDuplicatesOnInstall.
  destruct (Nat.leb_spec (List.length allTabs) 1) as [Hshort|_].
  { exists []. split; [by rewrite app_nil_r|]. intros key tab Hlen. exfalso.
    pose proof (sublist_length _ _
                  (sublist_filter (fun tab => groupedUnder key tab = true) allTabs)).
    lia. }
  cbv zeta.
  destruct (closeGroups_requests
              (filter (fun g : string * list Tab.t => (1 < List.length g.2)%nat)
                 (groupTabs allTabs)) w) as (new & Htr & Hnew).
  exists new. split; [done|]. intros key tab Hlen Htab.
  apply (Hnew (key, filter (fun tab => groupedUnder key tab = true) allTabs) tab); [|done].
  apply list_elem_of_filter. split; [done|].
  apply groupTabs_elem. split; [done|].
  intros Hnil. rewrite Hnil in Hlen. simpl in Hlen. lia.
Qed.
